(** * The patch tool of claudetool/patch.go

    A shallow embedding of [Run], [patchParse], [patchRun], [reindent] and
    [IsAutogeneratedGoFile], with the clipboard store of [PatchTool] as a
    finite map, the operating system as a record of replies together with
    the trace of calls made, and the packages that are not part of the
    sources (patchkit, editbuf, go/parser, path/filepath, encoding/json)
    either modelled from the specification or taken as parameters. *)

From Stdlib Require Import Ascii.
From stdpp Require Import gmap strings list.

#[local] Set Warnings "-register-all,-clear-no-such-hyp".

(** ** Go strings

    A Go string is a sequence of bytes; offsets and lengths count bytes. *)

Definition LF : ascii := "010"%char.
Definition TAB : ascii := "009"%char.
Definition nl : string := String LF "".
Definition tab : string := String TAB "".

Module GoStrings.

(** [len(s)] *)
Definition len (s : string) : nat := String.length s.

(** [s[n:]] and [s[:n]], without the bounds check. *)
Fixpoint drop (n : nat) (s : string) : string :=
  match n, s with
  | O, _ => s
  | S _, EmptyString => EmptyString
  | S n', String _ r => drop n' r
  end.

Fixpoint take (n : nat) (s : string) : string :=
  match n, s with
  | O, _ => EmptyString
  | S _, EmptyString => EmptyString
  | S n', String c r => String c (take n' r)
  end.

(** [s[a:b]]; Go panics unless [a <= b <= len(s)]: [None] is the panic. *)
Definition slice (s : string) (a b : nat) : option string :=
  if (a <=? b) && (b <=? len s) then Some (take (b - a) (drop a s)) else None.

(** [strings.HasPrefix(s, prefix)] *)
Fixpoint HasPrefix (s prefix : string) : bool :=
  match prefix, s with
  | EmptyString, _ => true
  | String _ _, EmptyString => false
  | String p ps, String c cs => Ascii.eqb c p && HasPrefix cs ps
  end.

(** [strings.CutPrefix(s, prefix)]: [Some after] when found. *)
Definition CutPrefix (s prefix : string) : option string :=
  if HasPrefix s prefix then Some (drop (len prefix) s) else None.

(** [strings.HasSuffix(s, suffix)] *)
Definition HasSuffix (s suffix : string) : bool :=
  (len suffix <=? len s) && String.eqb (drop (len s - len suffix) s) suffix.

(** [strings.Contains(s, substr)] *)
Fixpoint Contains (s substr : string) : bool :=
  HasPrefix s substr ||
  match s with
  | EmptyString => false
  | String _ r => Contains r substr
  end.

(** [strings.Split(s, sep)] for a separator of one byte, the only use in
    the sources ([sep = "\n"]).  The result is never empty. *)
Fixpoint Split (s : string) (sep : ascii) : list string :=
  match s with
  | EmptyString => [EmptyString]
  | String c r =>
      if Ascii.eqb c sep then EmptyString :: Split r sep
      else match Split r sep with
           | [] => [String c EmptyString]
           | l :: ls => String c l :: ls
           end
  end.

(** [strings.Join(elems, sep)] *)
Fixpoint Join (elems : list string) (sep : string) : string :=
  match elems with
  | [] => EmptyString
  | [e] => e
  | e :: rest => e +:+ sep +:+ Join rest sep
  end.

(** The ASCII fast path of [strings.ToLower]. *)
Definition isASCII (c : ascii) : bool :=
  match c with Ascii _ _ _ _ _ _ _ b7 => negb b7 end.

Definition lowerByte (c : ascii) : ascii :=
  let n := nat_of_ascii c in
  if (65 <=? n) && (n <=? 90) then ascii_of_nat (n + 32) else c.

Fixpoint allASCII (s : string) : bool :=
  match s with
  | EmptyString => true
  | String c r => isASCII c && allASCII r
  end.

Fixpoint mapBytes (f : ascii -> ascii) (s : string) : string :=
  match s with
  | EmptyString => EmptyString
  | String c r => String (f c) (mapBytes f r)
  end.

End GoStrings.

(** ** Errors and notes

    An error is kept as data: one constructor per [fmt.Errorf] call site,
    carrying the arguments of its format string; [ErrJoin] is the value of
    [errors.Join]. *)

(** An edit of editbuf: replace the bytes in [[e_start, e_end)] by [e_new]. *)
Record edit := { e_start : nat; e_end : nat; e_new : string }.

(** One entry of [clipboardsModified]:
    [<clipboard_modified name="%s">...<new_contents>%q</new_contents>...]. *)
Record Note := { note_name : string; note_new_contents : string }.

Inductive error :=
| ErrNoPatches                        (* "no patches provided" *)
| ErrFileNotExist (path : string)     (* "file %q does not exist" *)
| ErrOS (msg : string)                (* an error value of package os *)
| ErrReadFile (path : string) (err : error)
                                      (* "failed to read file %q: %w" *)
| ErrToClipboardNotReplace (name : string)
    (* "toClipboard (%s): can only be used with replace operation" *)
| ErrToClipboardEmptyOldText (name : string)
    (* "toClipboard (%s): oldText cannot be empty when using toClipboard" *)
| ErrFromClipboardMissing (name : string)
    (* "fromClipboard (%s): no clipboard with that name" *)
| ErrStripPrecondition (line strip : string)
    (* "strip precondition failed: line %q does not start with %q" *)
| ErrReindent (strip add : string) (err : error)
                                      (* "reindent(%q -> %q): %w" *)
| ErrOldTextEmpty (i : nat) (operation : string)
    (* "patch %d: oldText cannot be empty for %s operation" *)
| ErrNotUnique (oldText : string)     (* "old text not unique:\n%s" *)
| ErrInternal                         (* "internal error" *)
| ErrNotFound (oldText : string)      (* "old text not found:\n%s" *)
| ErrUnrecognized (operation : string)
                                      (* "unrecognized operation %q" *)
| ErrOverlap (e0 e : edit)            (* editbuf: overlapping edits *)
| ErrMkdirAll (dir : string) (err : error)
                                      (* "failed to create directory %q: %w" *)
| ErrWriteFile (path : string) (err : error)
    (* "failed to write patched contents to file %q: %w" *)
| ErrJoin (errs : list error)         (* errors.Join(errs...) *)
| ErrPatchFailed (patchErr : error) (clipboardsModified : list Note).
    (* fmt.Errorf("%s", patchErr.Error() + "\n" + msg + ...) *)

Inductive result (A : Type) :=
| Ok (a : A)
| Err (e : error).
Arguments Ok {A} a.
Arguments Err {A} e.

(** [errors.Join]: nil errors are discarded, and the result is nil when
    nothing is left; otherwise one error wrapping the others, in order. *)
Definition errors_Join (errs : list (option error)) : option error :=
  match omap id errs with
  | [] => None
  | es => Some (ErrJoin es)
  end.

(** The errors an error stands for once the joins are flattened: the
    entries of the aggregated error list, a line (or block) each in
    [Error()]. *)
Fixpoint entries (e : error) : list error :=
  match e with
  | ErrJoin errs =>
      (fix go (l : list error) : list error :=
         match l with
         | [] => []
         | x :: r => entries x ++ go r
         end) errs
  | _ => [e]
  end.

Definition entries_of (patchErr : option error) : list error :=
  match patchErr with
  | None => []
  | Some e => entries e
  end.

(** ** Package editbuf *)

Module editbuf.

(** Modelled from the spec: the type [editbuf.Buffer] is not part of the
    sources.  Section 3 of the specification: an ordered set of pending
    edits, all referring to one immutable original byte sequence. *)
Record Buffer := { old : string; q : list edit }.

(** Modelled from the spec: [editbuf.NewBuffer] is not part of the
    sources; a buffer is created fresh per batch, with no pending edit. *)
Definition NewBuffer (orig : string) : Buffer := {| old := orig; q := [] |}.

(** Modelled from the spec: [Buffer.Replace] is not part of the sources;
    section 4.2, [registerEdit]: the edit is recorded, nothing is checked
    before materialization.  The arguments are those of the call sites in
    patch.go: the two ends of the span and the replacement. *)
Definition Replace (b : Buffer) (start end_ : nat) (new : string) : Buffer :=
  {| old := old b;
     q := q b ++ [ {| e_start := start; e_end := end_; e_new := new |} ] |}.

(** Modelled from the spec: [Buffer.Insert] is not part of the sources;
    an insertion registers the empty span at [pos]. *)
Definition Insert (b : Buffer) (pos : nat) (new : string) : Buffer :=
  Replace b pos pos new.

(** Modelled from the spec: the order [Buffer.Bytes] sorts the pending
    edits in.  Section 4.2: by offset; two edits at one offset are ordered
    by the end of their span, so that an insertion at the start of a
    replaced span is emitted before it, whichever was registered first. *)
Definition before (e x : edit) : bool :=
  (e_start e <? e_start x)
  || ((e_start e =? e_start x) && (e_end e <=? e_end x)).

(** Modelled from the spec: the sort of [Buffer.Bytes], a stable insertion
    sort of the pending edits in that order. *)
Fixpoint insert_by_start (e : edit) (l : list edit) : list edit :=
  match l with
  | [] => [e]
  | x :: r =>
      if before e x then e :: x :: r
      else x :: insert_by_start e r
  end.

Fixpoint sort_by_start (l : list edit) : list edit :=
  match l with
  | [] => []
  | e :: r => insert_by_start e (sort_by_start r)
  end.

(** Modelled from the spec: the span of the edit is the span
    [(0, len(Document))] that an overwrite registers.  Section 4.2: such an
    edit is incompatible with any other edit of the batch.  On an empty
    document this is the span of every insertion too: the buffer is given
    offsets and lengths, not the kind of the operation. *)
Definition whole (orig : string) (e : edit) : bool :=
  (e_start e =? 0) && (e_end e =? GoStrings.len orig).

(** Modelled from the spec: the spans [[e_start, e_end)] of two edits
    intersect.  Each starts before the other ends: two spans that share a
    byte, or an insertion strictly inside a replaced span.  Two insertions
    at one offset, and an insertion at either end of a replaced span, do
    not intersect. *)
Definition spans_intersect (a b : edit) : bool :=
  (e_start a <? e_end b) && (e_start b <? e_end a).

(** Modelled from the spec: two pending edits that cannot both be
    applied.  Sections 3 and 4.2: their spans intersect, or one of them
    spans the whole document. *)
Definition incompatible (orig : string) (a b : edit) : bool :=
  whole orig a || whole orig b || spans_intersect a b.

(** Modelled from the spec: the overlap check of [Buffer.Bytes].  The
    first edit of the list, in its order, that is incompatible with a later
    one, with the first such later one. *)
Fixpoint overlap (orig : string) (l : list edit) : option (edit * edit) :=
  match l with
  | [] => None
  | e :: r =>
      match List.find (incompatible orig e) r with
      | Some e' => Some (e, e')
      | None => overlap orig r
      end
  end.

(** Modelled from the spec: the walk of [Buffer.Bytes] over the sorted
    edits.  Section 4.2: the original bytes from [offset] on, interleaved
    with the replacements. *)
Fixpoint emit (orig : string) (offset : nat) (l : list edit) : string :=
  match l with
  | [] => GoStrings.drop offset orig
  | e :: r =>
      GoStrings.take (e_start e - offset) (GoStrings.drop offset orig)
      +:+ e_new e +:+ emit orig (e_end e) r
  end.

(** Modelled from the spec: [Buffer.Bytes] is not part of the sources.
    Section 4.2: materialization sorts the registered edits by offset and
    emits the original bytes interleaved with the replacements; two edits
    that are incompatible are rejected with an error naming both, whatever
    the order they were registered in. *)
Definition Bytes (b : Buffer) : result string :=
  let edits := sort_by_start (q b) in
  match overlap (old b) edits with
  | Some (e0, e) => Err (ErrOverlap e0 e)
  | None => Ok (emit (old b) 0 edits)
  end.

End editbuf.

(** ** Package patchkit *)

Module patchkit.

(** Modelled from the spec: the type [patchkit.Spec] is not part of the
    sources.  patch.go reads its fields [Off] and [Len]; the replacement
    text it was built from is what [ApplyToEditBuf] registers. *)
Record Spec := { Off : nat; Len : nat; New : string }.

(** Modelled from the spec: the literal substring search of
    [patchkit.Unique].  The offsets of [haystack] at which [needle] occurs,
    counted from [base]. *)
Fixpoint occurrences_from (base : nat) (haystack needle : string)
  : list nat :=
  (if GoStrings.HasPrefix haystack needle then [base] else []) ++
  match haystack with
  | EmptyString => []
  | String _ r => occurrences_from (S base) r needle
  end.

Definition occurrences (haystack needle : string) : list nat :=
  occurrences_from 0 haystack needle.

(** Modelled from the spec: [patchkit.Unique] is not part of the sources.
    Section 4.1, tier 1: literal substring search; the count is 0, 1, or 2
    for two or more occurrences, the three values the switch of patchRun
    gives a meaning to. *)
Definition Unique (haystack needle replace : string) : option Spec * nat :=
  match occurrences haystack needle with
  | [] => (None, 0)
  | [off] =>
      (Some {| Off := off; Len := GoStrings.len needle; New := replace |}, 1)
  | _ => (None, 2)
  end.

(** Modelled from the spec: [Spec.ApplyToEditBuf] is not part of the
    sources.  Section 4.5: a found match registers the edit, the matched
    span replaced by the resolved new text. *)
Definition ApplyToEditBuf (s : Spec) (buf : editbuf.Buffer)
  : editbuf.Buffer :=
  editbuf.Replace buf (Off s) (Off s + Len s) (New s).

End patchkit.

(** ** What patch.go takes from outside

    Functions of packages that are not part of the sources and that the
    specification does not pin down; every theorem holds for all of them. *)
Record Externals := {
  (** path/filepath *)
  filepath_IsAbs : string -> bool;
  filepath_Join : string -> string -> string;
  filepath_Dir : string -> string;
  (** [strings.Map(unicode.ToLower, run)] for a run of bytes outside
      ASCII: the lower case of the runes (or invalid bytes) it encodes *)
  unicode_ToLower : string -> string;
  (** [parser.ParseFile(fset, "x.go", buf, ImportsOnly|ParseComments)]:
      [None] is a parse error, otherwise [cg.Text()] of each comment group
      of [f.Comments]. *)
  parser_ParseFile : string -> option (list string);
  (** [diff.Text] as used by [generateUnifiedDiff]: the text it writes,
      or the message [generateUnifiedDiff] makes of its error *)
  diff_Text : string -> string -> string -> string;
  (** tiers 2 to 5 of the match ladder: [(spec, ok)] as [Some spec] *)
  UniqueDedent : string -> string -> string -> option patchkit.Spec;
  UniqueInValidGo : string -> string -> string -> option patchkit.Spec;
  UniqueGoTokens : string -> string -> string -> option patchkit.Spec;
  UniqueTrim : string -> string -> string -> option patchkit.Spec
}.

(** ** The data of patch.go *)

(** Indentation adjustment configuration. *)
Record Reindent := { Strip : string; Add : string }.

(** A single patch operation; an absent JSON field is the empty string, and
    [PReindent] is the pointer field [Reindent] ([None] is nil). *)
Record PatchRequest := {
  Operation : string;
  OldText : string;
  NewText : string;
  ToClipboard : string;
  FromClipboard : string;
  PReindent : option Reindent
}.

Record PatchInput := { Path : string; Patches : list PatchRequest }.

(** The fields of [PatchTool] that [patchRun] uses: the working directory
    and the clipboards, name to text. *)
Record PatchTool := {
  WorkingDir : string;
  clipboards : gmap string string
}.

Record PatchDisplayData := {
  d_path : string;
  d_oldContent : string;
  d_newContent : string;
  d_diff : string
}.

(** The text of a successful response: [<patches_applied>all</patches_applied>],
    one line per entry of [clipboardsModified], and the warning (with the
    path) when the file appears to be autogenerated. *)
Record Response := {
  r_clipboardsModified : list Note;
  r_warning : option string
}.

Inductive ToolOut :=
| ErrorToolOut (e : error)
| ToolOutOK (LLMContent : Response) (Display : PatchDisplayData).

(** ** The operating system

    What the three calls of [patchRun] answer on one run, and the calls a
    run makes, in order. *)
Inductive ReadResult :=
| ReadOK (data : string)
| ReadNotExist
| ReadError (err : error).

Record OSReplies := {
  onReadFile : ReadResult;
  onMkdirAll : option error;
  onWriteFile : option error
}.

Inductive Event :=
| EvReadFile (path : string)
| EvMkdirAll (dir : string)
| EvWriteFile (path data : string).

Definition is_write (ev : Event) : bool :=
  match ev with
  | EvWriteFile _ _ => true
  | _ => false
  end.

(** How a call of [patchRun] ends: it returns an output, or a slice
    expression out of range panics; either way the clipboards are those
    the run left in the tool, and the trace lists the calls made. *)
Inductive RunResult :=
| Returned (out : ToolOut) (cb : gmap string string) (trace : list Event)
| Panicked (cb : gmap string string) (trace : list Event).

(** ** reindent *)

(** The first loop of [reindent]: every non-empty line loses the prefix
    [strip], or the loop returns the error for the first line without it. *)
Fixpoint strip_lines (lines : list string) (strip : string)
  : result (list string) :=
  match lines with
  | [] => Ok []
  | line :: rest =>
      if decide (line = "") then
        match strip_lines rest strip with
        | Ok rest' => Ok (line :: rest')
        | Err e => Err e
        end
      else
        match GoStrings.CutPrefix line strip with
        | None => Err (ErrStripPrecondition line strip)
        | Some line' =>
            match strip_lines rest strip with
            | Ok rest' => Ok (line' :: rest')
            | Err e => Err e
            end
        end
  end.

(** The second loop: [add] in front of every line that is not empty. *)
Definition add_lines (lines : list string) (add : string) : list string :=
  map (fun line => if decide (line = "") then line else add +:+ line) lines.

(** [reindent] applies indentation adjustments to text. *)
Definition reindent (text : string) (adj : option Reindent) : result string :=
  match adj with
  | None => Ok text
  | Some adj =>
      let lines := GoStrings.Split text LF in
      match strip_lines lines (Strip adj) with
      | Err e => Err e
      | Ok lines => Ok (GoStrings.Join (add_lines lines (Add adj)) nl)
      end
  end.

(** ** IsAutogeneratedGoFile and patchRun *)

(** The state of the loop over [input.Patches]: the clipboards of the tool,
    the edit buffer, the joined matching errors and the clipboard notes. *)
Record LoopState := {
  cb : gmap string string;
  buf : editbuf.Buffer;
  patchErr : option error;
  clipboardsModified : list Note
}.

(** What one iteration does: go on with the next patch, return from
    [patchRun], or panic; the clipboards are those written so far. *)
Inductive Flow :=
| Continue (st : LoopState)
| Return (out : ToolOut) (cb : gmap string string)
| Panic (cb : gmap string string).

Definition set_buf (st : LoopState) (b : editbuf.Buffer) : LoopState :=
  {| cb := cb st; buf := b; patchErr := patchErr st;
     clipboardsModified := clipboardsModified st |}.

Definition set_cb (st : LoopState) (c : gmap string string) : LoopState :=
  {| cb := c; buf := buf st; patchErr := patchErr st;
     clipboardsModified := clipboardsModified st |}.

(** [patchErr = errors.Join(patchErr, err)] *)
Definition join_patchErr (st : LoopState) (err : error) : LoopState :=
  {| cb := cb st; buf := buf st;
     patchErr := errors_Join [patchErr st; Some err];
     clipboardsModified := clipboardsModified st |}.

(** Signals that a file is autogenerated, when present anywhere in it. *)
Definition autogeneratedSignals : list string :=
  [ nl +:+ "func bindataRead(" ].

Section PatchTool.

Variable X : Externals.

(** The runes read since the last ASCII byte, mapped. *)
Definition flushRun (run : string) : string :=
  if decide (run = "") then "" else unicode_ToLower X run.

(** [strings.Map(unicode.ToLower, s)], the path of [strings.ToLower] for a
    string with a byte outside ASCII.  A byte of ASCII is a rune of its
    own, mapped to its lower case; the bytes outside ASCII between two
    bytes of ASCII encode runes, mapped by [unicode.ToLower].  [run] holds
    the bytes outside ASCII read since the last byte of ASCII. *)
Fixpoint mapRunes (run s : string) : string :=
  match s with
  | EmptyString => flushRun run
  | String c r =>
      if GoStrings.isASCII c then
        flushRun run +:+ String (GoStrings.lowerByte c) (mapRunes "" r)
      else mapRunes (run +:+ String c "") r
  end.

(** [strings.ToLower]: the bytes lower-cased one by one when all are
    ASCII, the runes mapped otherwise. *)
Definition ToLower (s : string) : string :=
  if GoStrings.allASCII s then GoStrings.mapBytes GoStrings.lowerByte s
  else mapRunes "" s.

(** Signals that a file is autogenerated, when present at its top. *)
Definition autogeneratedHeaderSignals : list string :=
  [ ToLower "generate"; ToLower "DO NOT EDIT"; ToLower "export by" ].

(** [IsAutogeneratedGoFile] reports whether a Go file has markers
    indicating it was autogenerated. *)
Definition IsAutogeneratedGoFile (buf : string) : bool :=
  if existsb (fun sig => GoStrings.Contains buf sig) autogeneratedSignals
  then true
  else
    match parser_ParseFile X buf with
    | Some comments =>
        existsb (fun cg =>
                   let t := ToLower cg in
                   existsb (fun sig => GoStrings.Contains t sig)
                     autogeneratedHeaderSignals)
          comments
    | None => false
    end.

Definition generateUnifiedDiff (filePath original patched : string)
  : string :=
  diff_Text X filePath original patched.

(** The closure [updateToClipboard] of [patchRun]; [None] is the panic of
    the slice expression [origStr[spec.Off : spec.Off+spec.Len]]. *)
Definition updateToClipboard (origStr : string) (patch : PatchRequest)
    (spec : patchkit.Spec) (st : LoopState) : option LoopState :=
  if decide (ToClipboard patch = "") then Some st
  else
    match GoStrings.slice origStr (patchkit.Off spec)
            (patchkit.Off spec + patchkit.Len spec) with
    | None => None
    | Some matchedOldText =>
        Some {| cb := <[ToClipboard patch := matchedOldText]> (cb st);
                buf := buf st;
                patchErr := patchErr st;
                clipboardsModified :=
                  clipboardsModified st ++
                  [ {| note_name := ToClipboard patch;
                       note_new_contents := matchedOldText |} ] |}
    end.

(** A recovery tier that found its match: apply, then update the
    clipboard. *)
Definition applied_with_clipboard (origStr : string) (patch : PatchRequest)
    (spec : patchkit.Spec) (st : LoopState) : Flow :=
  let st := set_buf st (patchkit.ApplyToEditBuf spec (buf st)) in
  match updateToClipboard origStr patch spec st with
  | Some st => Continue st
  | None => Panic (cb st)
  end.

(** The case ["replace"] of the switch on [patch.Operation]. *)
Definition replace_case (origStr : string) (i : nat) (patch : PatchRequest)
    (newText : string) (st : LoopState) : Flow :=
  if decide (OldText patch = "") then
    Return (ErrorToolOut (ErrOldTextEmpty i (Operation patch))) (cb st)
  else
    match patchkit.Unique origStr (OldText patch) newText with
    | (_, 0) =>
        match UniqueDedent X origStr (OldText patch) newText with
        | Some spec => applied_with_clipboard origStr patch spec st
        | None =>
        match UniqueInValidGo X origStr (OldText patch) newText with
        | Some spec => applied_with_clipboard origStr patch spec st
        | None =>
        match UniqueGoTokens X origStr (OldText patch) newText with
        | Some spec => applied_with_clipboard origStr patch spec st
        | None =>
        match UniqueTrim X origStr (OldText patch) newText with
        | Some spec =>
            Continue (set_buf st (patchkit.ApplyToEditBuf spec (buf st)))
        | None => Continue (join_patchErr st (ErrNotFound (OldText patch)))
        end end end end
    | (Some spec, 1) =>
        Continue (set_buf st (patchkit.ApplyToEditBuf spec (buf st)))
    | (None, 1) => Panic (cb st)
    | (_, 2) => Continue (join_patchErr st (ErrNotUnique (OldText patch)))
    | _ => Continue (join_patchErr st ErrInternal)
    end.

(** The switch on [patch.Operation], with the resolved [newText]. *)
Definition operation_case (orig : string) (i : nat) (patch : PatchRequest)
    (newText : string) (st : LoopState) : Flow :=
  if decide (Operation patch = "prepend_bof") then
    Continue (set_buf st (editbuf.Insert (buf st) 0 newText))
  else if decide (Operation patch = "append_eof") then
    Continue (set_buf st (editbuf.Insert (buf st) (GoStrings.len orig) newText))
  else if decide (Operation patch = "overwrite") then
    Continue (set_buf st
                (editbuf.Replace (buf st) 0 (GoStrings.len orig) newText))
  else if decide (Operation patch = "replace") then
    replace_case orig i patch newText st
  else
    Return (ErrorToolOut (ErrUnrecognized (Operation patch))) (cb st).

(** The resolved [newText] of a patch: the clipboard named by
    [fromClipboard] instead of [patch.NewText], then the indentation
    adjustment; [c] are the clipboards at that point. *)
Definition resolve_newText (patch : PatchRequest) (c : gmap string string)
  : result string :=
  let fromClip :=
    if decide (FromClipboard patch = "") then Ok (NewText patch)
    else
      match c !! FromClipboard patch with
      | None => Err (ErrFromClipboardMissing (FromClipboard patch))
      | Some clipboardText => Ok clipboardText
      end in
  match fromClip with
  | Err e => Err e
  | Ok newText =>
      match PReindent patch with
      | None => Ok newText
      | Some adj =>
          match reindent newText (Some adj) with
          | Err e => Err (ErrReindent (Strip adj) (Add adj) e)
          | Ok reindentedText => Ok reindentedText
          end
      end
  end.

(** The part of the loop body after [toClipboard]. *)
Definition resolve_and_apply (orig : string) (i : nat)
    (patch : PatchRequest) (st : LoopState) : Flow :=
  match resolve_newText patch (cb st) with
  | Err e => Return (ErrorToolOut e) (cb st)
  | Ok newText => operation_case orig i patch newText st
  end.

(** One iteration of [for i, patch := range input.Patches]. *)
Definition patchStep (orig : string) (i : nat) (patch : PatchRequest)
    (st : LoopState) : Flow :=
  if decide (ToClipboard patch = "") then resolve_and_apply orig i patch st
  else if decide (Operation patch = "replace") then
    if decide (OldText patch = "") then
      Return (ErrorToolOut (ErrToClipboardEmptyOldText (ToClipboard patch)))
        (cb st)
    else
      resolve_and_apply orig i patch
        (set_cb st (<[ToClipboard patch := OldText patch]> (cb st)))
  else
    Return (ErrorToolOut (ErrToClipboardNotReplace (ToClipboard patch)))
      (cb st).

(** The loop over the patches, from index [i]. *)
Fixpoint patchLoop (orig : string) (i : nat) (patches : list PatchRequest)
    (st : LoopState) : Flow :=
  match patches with
  | [] => Continue st
  | patch :: rest =>
      match patchStep orig i patch st with
      | Continue st' => patchLoop orig (S i) rest st'
      | stop => stop
      end
  end.

(** The operations allowed on a file that does not exist. *)
Definition creates (patch : PatchRequest) : bool :=
  bool_decide (Operation patch = "prepend_bof") ||
  bool_decide (Operation patch = "append_eof") ||
  bool_decide (Operation patch = "overwrite").

(** [patchRun] after the loop: reject on a matching error or an overlap,
    otherwise write the file and build the response. *)
Definition patchFinish (os : OSReplies) (path orig : string)
    (autogenerated : bool) (flow : Flow) : RunResult :=
  match flow with
  | Panic c => Panicked c [EvReadFile path]
  | Return out c => Returned out c [EvReadFile path]
  | Continue st =>
      match patchErr st with
      | Some e =>
          Returned (ErrorToolOut (ErrPatchFailed e (clipboardsModified st)))
            (cb st) [EvReadFile path]
      | None =>
          match editbuf.Bytes (buf st) with
          | Err e => Returned (ErrorToolOut e) (cb st) [EvReadFile path]
          | Ok patched =>
              let dir := filepath_Dir X path in
              match onMkdirAll os with
              | Some e =>
                  Returned (ErrorToolOut (ErrMkdirAll dir e)) (cb st)
                    [EvReadFile path; EvMkdirAll dir]
              | None =>
                  let trace := [EvReadFile path; EvMkdirAll dir;
                                EvWriteFile path patched] in
                  match onWriteFile os with
                  | Some e =>
                      Returned (ErrorToolOut (ErrWriteFile path e)) (cb st)
                        trace
                  | None =>
                      Returned
                        (ToolOutOK
                           {| r_clipboardsModified := clipboardsModified st;
                              r_warning :=
                                if autogenerated then Some path else None |}
                           {| d_path := path;
                              d_oldContent := orig;
                              d_newContent := patched;
                              d_diff :=
                                generateUnifiedDiff path orig patched |})
                        (cb st) trace
                  end
              end
          end
      end
  end.

(** The state the loop starts from. *)
Definition initial (p : PatchTool) (orig : string) : LoopState :=
  {| cb := clipboards p; buf := editbuf.NewBuffer orig;
     patchErr := None; clipboardsModified := [] |}.

(** [patchRun] from the point where the file has been read. *)
Definition patchApply (p : PatchTool) (os : OSReplies) (path : string)
    (patches : list PatchRequest) (orig : string) : RunResult :=
  let likelyGoFile := GoStrings.HasSuffix path ".go" in
  let autogenerated := likelyGoFile && IsAutogeneratedGoFile orig in
  patchFinish os path orig autogenerated
    (patchLoop orig 0 patches (initial p orig)).

(** [input.Path] made absolute. *)
Definition resolved_path (p : PatchTool) (input : PatchInput) : string :=
  if filepath_IsAbs X (Path input) then Path input
  else filepath_Join X (WorkingDir p) (Path input).

(** [patchRun] implements the guts of the patch tool. *)
Definition patchRun (p : PatchTool) (os : OSReplies) (input : PatchInput)
  : RunResult :=
  let path := resolved_path p input in
  match Patches input with
  | [] => Returned (ErrorToolOut ErrNoPatches) (clipboards p) []
  | _ =>
      match onReadFile os with
      | ReadNotExist =>
          if forallb creates (Patches input) then
            patchApply p os path (Patches input) ""
          else
            Returned (ErrorToolOut (ErrFileNotExist path)) (clipboards p)
              [EvReadFile path]
      | ReadError err =>
          Returned (ErrorToolOut (ErrReadFile path err)) (clipboards p)
            [EvReadFile path]
      | ReadOK orig => patchApply p os path (Patches input) orig
      end
  end.

End PatchTool.

(** ** An instance of the externals

    Unix paths, no header comment parsed, an empty diff, and one recovery
    tier only: a dedent by exactly one tab. *)

Module Demo.

(** Modelled from the spec: [patchkit.UniqueDedent] is not part of the
    sources.  Section 4.1, tier 2, for the single whitespace delta of the
    example of section 8 (the search text lacks the tab every line of the
    document carries): the probe is the search text re-indented by that
    delta, and tier 1 is retried with the probe. *)
Definition dedent_one_tab (haystack needle replace : string)
  : option patchkit.Spec :=
  let probe s := GoStrings.Join (add_lines (GoStrings.Split s LF) tab) nl in
  match patchkit.Unique haystack (probe needle) (probe replace) with
  | (Some spec, 1) => Some spec
  | _ => None
  end.

Definition X : Externals := {|
  filepath_IsAbs := fun p => GoStrings.HasPrefix p "/";
  filepath_Join := fun dir p => dir +:+ "/" +:+ p;
  filepath_Dir := fun _ => "/w";
  unicode_ToLower := fun s => s;
  parser_ParseFile := fun _ => None;
  diff_Text := fun _ _ _ => "";
  UniqueDedent := dedent_one_tab;
  UniqueInValidGo := fun _ _ _ => None;
  UniqueGoTokens := fun _ _ _ => None;
  UniqueTrim := fun _ _ _ => None
|}.

Definition os_ok (data : string) : OSReplies :=
  {| onReadFile := ReadOK data; onMkdirAll := None; onWriteFile := None |}.

Definition os_missing : OSReplies :=
  {| onReadFile := ReadNotExist; onMkdirAll := None; onWriteFile := None |}.

Definition tool (c : gmap string string) : PatchTool :=
  {| WorkingDir := "/w"; clipboards := c |}.

Definition op (operation oldText newText : string) : PatchRequest :=
  {| Operation := operation; OldText := oldText; NewText := newText;
     ToClipboard := ""; FromClipboard := ""; PReindent := None |}.

Definition op_to (operation oldText newText toClipboard : string)
  : PatchRequest :=
  {| Operation := operation; OldText := oldText; NewText := newText;
     ToClipboard := toClipboard; FromClipboard := ""; PReindent := None |}.

Definition op_from (operation oldText fromClipboard : string)
  : PatchRequest :=
  {| Operation := operation; OldText := oldText; NewText := "";
     ToClipboard := ""; FromClipboard := fromClipboard;
     PReindent := None |}.

(** A document of two lines indented by a tab, and the two lines without
    their indentation. *)
Definition indented : string :=
  tab +:+ "foo()" +:+ nl +:+ tab +:+ "bar()" +:+ nl.

Definition flat : string := "foo()" +:+ nl +:+ "bar()" +:+ nl.

End Demo.

(** ** The specification's vocabulary

    Definitions that follow the words of the specification, to state what
    the code above is compared with. *)

(** A text has a terminal newline. *)
Fixpoint ends_with_LF (s : string) : bool :=
  match s with
  | EmptyString => false
  | String c EmptyString => Ascii.eqb c LF
  | String _ r => ends_with_LF r
  end.

(** The text holds a line feed. *)
Fixpoint has_LF (s : string) : bool :=
  match s with
  | EmptyString => false
  | String c r => Ascii.eqb c LF || has_LF r
  end.

(** What [reindent] makes of one line: an empty line is left alone; a
    non-empty line loses [strip] and, when something is left, gains
    [add]. *)
Definition reindent_line (strip add line : string) : string :=
  if decide (line = "") then ""
  else
    let rest := GoStrings.drop (GoStrings.len strip) line in
    if decide (rest = "") then "" else add +:+ rest.

(** A non-empty line that does not start with [strip]. *)
Definition lacks_prefix (strip line : string) : bool :=
  negb (bool_decide (line = "")) && negb (GoStrings.HasPrefix line strip).

(** The tiers of the match ladder, in order. *)
Inductive Tier := ExactUnique | DedentUnique | ValidGoWhitespace
                | TokenStream | FirstLineTrim.

(** The contract of the ladder: a unique span and the tier that found it,
    or ambiguous, or not found. *)
Inductive Match :=
| Found (tier : Tier) (spec : patchkit.Spec)
| Ambiguous
| NotFound.

Section Ladder.

Variable X : Externals.

(** Tiers 2 to 5, each with the recovery function that implements it. *)
Definition recovery_tiers
  : list (Tier * (string -> string -> string -> option patchkit.Spec)) :=
  [ (DedentUnique, UniqueDedent X);
    (ValidGoWhitespace, UniqueInValidGo X);
    (TokenStream, UniqueGoTokens X);
    (FirstLineTrim, UniqueTrim X) ].

(** The first tier of a list that finds a match. *)
Fixpoint first_match
    (tiers : list (Tier * (string -> string -> string -> option patchkit.Spec)))
    (document oldText newText : string) : Match :=
  match tiers with
  | [] => NotFound
  | (tier, f) :: rest =>
      match f document oldText newText with
      | Some spec => Found tier spec
      | None => first_match rest document oldText newText
      end
  end.

(** Section 4.1: the tiers are tried strictly in order; zero occurrences
    at tier 1 fall through, one occurrence succeeds, two or more stop the
    ladder. *)
Definition ladder (document oldText newText : string) : Match :=
  match patchkit.occurrences document oldText with
  | [] => first_match recovery_tiers document oldText newText
  | [off] =>
      Found ExactUnique
        {| patchkit.Off := off; patchkit.Len := GoStrings.len oldText;
           patchkit.New := newText |}
  | _ => Ambiguous
  end.

(** The clipboards once [toClipboard] has captured [oldText]. *)
Definition captured (patch : PatchRequest) (c : gmap string string)
  : gmap string string :=
  if decide (ToClipboard patch = "") then c
  else <[ToClipboard patch := OldText patch]> c.

(** Section 7, structural errors: the one a patch raises, if any, with
    the clipboards [c] it is resolved in. *)
Definition structural_error (i : nat) (patch : PatchRequest)
    (c : gmap string string) : option error :=
  if bool_decide (ToClipboard patch ≠ "")
     && bool_decide (Operation patch ≠ "replace")
  then Some (ErrToClipboardNotReplace (ToClipboard patch))
  else if bool_decide (ToClipboard patch ≠ "")
          && bool_decide (OldText patch = "")
  then Some (ErrToClipboardEmptyOldText (ToClipboard patch))
  else
    match resolve_newText patch (captured patch c) with
    | Err e => Some e
    | Ok _ =>
        if bool_decide (Operation patch = "replace") then
          if bool_decide (OldText patch = "")
          then Some (ErrOldTextEmpty i (Operation patch))
          else None
        else if creates patch then None
        else Some (ErrUnrecognized (Operation patch))
    end.

(** Section 7, matching errors: the one a replace raises, if any. *)
Definition matching_error (orig : string) (patch : PatchRequest)
    (c : gmap string string) : option error :=
  if bool_decide (Operation patch = "replace") then
    match resolve_newText patch (captured patch c) with
    | Ok newText =>
        match ladder orig (OldText patch) newText with
        | Ambiguous => Some (ErrNotUnique (OldText patch))
        | NotFound => Some (ErrNotFound (OldText patch))
        | Found _ _ => None
        end
    | Err _ => None
    end
  else None.

(** The failing operations of a batch, by index, each with its matching
    error: the operations are resolved in request order, each in the
    state the ones before it left. *)
Fixpoint failures (orig : string) (i : nat) (patches : list PatchRequest)
    (st : LoopState) : list (nat * error) :=
  match patches with
  | [] => []
  | patch :: rest =>
      match patchStep X orig i patch st with
      | Continue st' =>
          match matching_error orig patch (cb st) with
          | Some e => [(i, e)]
          | None => []
          end ++ failures orig (S i) rest st'
      | _ => []
      end
  end.

(** A replace of a text by itself, at the one place the text occurs at:
    the new text it resolves to, with the clipboards [c], is its old
    text. *)
Definition replaces_by_itself (orig : string) (patch : PatchRequest)
    (c : gmap string string) : Prop :=
  Operation patch = "replace" ∧ OldText patch ≠ ""
  ∧ resolve_newText patch (captured patch c) = Ok (OldText patch)
  ∧ ∃ off, patchkit.occurrences orig (OldText patch) = [off].

(** A batch of such replaces only, each resolved in the state the
    operations before it left. *)
Fixpoint identity_batch (orig : string) (i : nat)
    (patches : list PatchRequest) (st : LoopState) : Prop :=
  match patches with
  | [] => True
  | patch :: rest =>
      replaces_by_itself orig patch (cb st)
      ∧ ∀ st', patchStep X orig i patch st = Continue st' →
               identity_batch orig (S i) rest st'
  end.

(** The clipboard writes of one operation, in order: the capture of the
    old text before the match (a replace with a capture name and an old
    text), then the re-capture of the matched text when a tier 2 to 4
    found the match and the matched span lies in the document. *)
Definition step_writes (orig : string) (patch : PatchRequest)
    (c : gmap string string) : list (string * string) :=
  if bool_decide (ToClipboard patch ≠ "")
     && bool_decide (Operation patch = "replace")
     && bool_decide (OldText patch ≠ "")
  then
    (ToClipboard patch, OldText patch) ::
    match resolve_newText patch (captured patch c) with
    | Ok newText =>
        match ladder orig (OldText patch) newText with
        | Found ExactUnique _ | Found FirstLineTrim _ => []
        | Found _ spec =>
            match GoStrings.slice orig (patchkit.Off spec)
                    (patchkit.Off spec + patchkit.Len spec) with
            | Some m => [(ToClipboard patch, m)]
            | None => []
            end
        | Ambiguous | NotFound => []
        end
    | Err _ => []
    end
  else [].

(** The clipboard writes of a batch, in order, up to the operation the
    batch stops at. *)
Fixpoint writes (orig : string) (i : nat) (patches : list PatchRequest)
    (st : LoopState) : list (string * string) :=
  match patches with
  | [] => []
  | patch :: rest =>
      step_writes orig patch (cb st) ++
      match patchStep X orig i patch st with
      | Continue st' => writes orig (S i) rest st'
      | _ => []
      end
  end.

End Ladder.

(** A clipboard store after a list of writes, the last write of a name
    winning. *)
Definition apply_writes (c : gmap string string)
    (ws : list (string * string)) : gmap string string :=
  foldl (λ m w, <[w.1 := w.2]> m) c ws.

(** The snapshot of the document a batch works on: the file as read, or
    the empty document when the file does not exist and every operation
    creates; otherwise there is none. *)
Definition snapshot (os : OSReplies) (patches : list PatchRequest)
  : option string :=
  match onReadFile os with
  | ReadOK data => Some data
  | ReadNotExist => if forallb creates patches then Some "" else None
  | ReadError _ => None
  end.

(** A result with the autogenerated warning taken out. *)
Definition erase_warning (r : RunResult) : RunResult :=
  match r with
  | Returned (ToolOutOK resp d) c tr =>
      Returned
        (ToolOutOK {| r_clipboardsModified := r_clipboardsModified resp;
                      r_warning := None |} d) c tr
  | _ => r
  end.

(** The output is an error. *)
Definition rejected (out : ToolOut) : Prop :=
  match out with
  | ErrorToolOut _ => True
  | ToolOutOK _ _ => False
  end.

(** The clipboard notes an output carries, when it is one that does. *)
Definition notes_of (out : ToolOut) : option (list Note) :=
  match out with
  | ToolOutOK resp _ => Some (r_clipboardsModified resp)
  | ErrorToolOut (ErrPatchFailed _ notes) => Some notes
  | ErrorToolOut _ => None
  end.

(** No call of the trace writes the file. *)
Definition no_write (tr : list Event) : Prop := existsb is_write tr = false.

(** The span of an edit is an interval. *)
Definition well_formed (e : edit) : Prop := e_start e ≤ e_end e.

(** Two edits a list holds at different places that are incompatible. *)
Definition conflict (orig : string) (l : list edit) (x y : edit) : Prop :=
  ∃ i j, i ≠ j ∧ l !! i = Some x ∧ l !! j = Some y
         ∧ editbuf.incompatible orig x y = true.

(** A step of the loop that registered the edit [e] and left the recorded
    errors as they were. *)
Definition registered (e : edit) (st st' : LoopState) : Prop :=
  editbuf.q (buf st') = editbuf.q (buf st) ++ [e]
  ∧ editbuf.old (buf st') = editbuf.old (buf st)
  ∧ patchErr st' = patchErr st.

(** A step of the loop that recorded the error [err] after those recorded
    before, and left the buffer, the clipboards and the notes as they
    were. *)
Definition recorded (err : error) (st st' : LoopState) : Prop :=
  buf st' = buf st ∧ cb st' = cb st
  ∧ clipboardsModified st' = clipboardsModified st
  ∧ patchErr st' =
    Some (ErrJoin match patchErr st with
                  | Some earlier => [earlier; err]
                  | None => [err]
                  end).

(** The tiers whose match is written back to the clipboard the operation
    captures to: all recovery tiers but the first-line trim. *)
Definition recaptures (tier : Tier) (patch : PatchRequest) : bool :=
  match tier with
  | DedentUnique | ValidGoWhitespace | TokenStream =>
      negb (bool_decide (ToClipboard patch = ""))
  | ExactUnique | FirstLineTrim => false
  end.

(** A step of the loop that left the clipboards and the notes as they
    were. *)
Definition quiet (st st' : LoopState) : Prop :=
  cb st' = cb st ∧ clipboardsModified st' = clipboardsModified st.

(** A step of the loop that wrote [text] to the clipboard [name] and noted
    it. *)
Definition recaptured (name text : string) (st st' : LoopState) : Prop :=
  cb st' = <[name := text]> (cb st)
  ∧ clipboardsModified st' =
    clipboardsModified st
    ++ [ {| note_name := name; note_new_contents := text |} ].

(** An edit that replaces a span of at least one byte by the bytes the
    document has there. *)
Definition identity_edit (orig : string) (e : edit) : Prop :=
  e_start e < e_end e
  ∧ e_new e
    = GoStrings.take (e_end e - e_start e) (GoStrings.drop (e_start e) orig).

(** The edits of a list follow one another from [offset] on: each starts
    at or after the end of the one before. *)
Fixpoint in_sequence (offset : nat) (l : list edit) : Prop :=
  match l with
  | [] => True
  | e :: r => offset ≤ e_start e ∧ in_sequence (e_end e) r
  end.

(** The text [sub] occurs in [s]. *)
Definition occurs (sub s : string) : Prop := ∃ a b, s = a +:+ sub +:+ b.

(** The byte [c] is the byte [d], or the capital letter of the small
    letter [d]. *)
Definition same_letter (c d : ascii) : Prop :=
  c = d
  ∨ (97 ≤ nat_of_ascii d ≤ 122 ∧ nat_of_ascii c + 32 = nat_of_ascii d).

(** The text [v] is the phrase but for the case of its letters. *)
Fixpoint spells (v phrase : string) : Prop :=
  match v, phrase with
  | EmptyString, EmptyString => True
  | String c v', String d phrase' => same_letter c d ∧ spells v' phrase'
  | _, _ => False
  end.

(** The bytes of a phrase: ASCII, and none a capital letter. *)
Definition small (phrase : string) : Prop :=
  GoStrings.allASCII phrase = true
  ∧ GoStrings.mapBytes GoStrings.lowerByte phrase = phrase.

(** The phrases that, in a comment of the header of a Go file, tell that
    the file is generated. *)
Definition header_phrases : list string :=
  [ "generate"; "do not edit"; "export by" ].

(** The literal marker that, anywhere in a file, tells that it is
    generated: a line starting with the bindata reader. *)
Definition literal_marker : string := nl +:+ "func bindataRead(".

(** The file name has the extension of a Go file. *)
Definition go_file (path : string) : Prop := ∃ stem, path = stem +:+ ".go".

(** The clipboards a flow leaves in the tool. *)
Definition flow_cb (f : Flow) : gmap string string :=
  match f with
  | Continue st => cb st
  | Return _ c => c
  | Panic c => c
  end.

(** ** patchParse and Run *)

(** An error value of encoding/json. *)
Inductive json_error := JSONError (msg : string).

(** What [json.Unmarshal(m, &v)] leaves: a nil error and the value [v], or
    an error; patch.go reads [v] only when the error is nil. *)
Inductive decoded (A : Type) :=
| Decoded (v : A)
| DecodeError (err : json_error).
Arguments Decoded {A} v.
Arguments DecodeError {A} err.

Definition decode_err {A : Type} (r : decoded A) : option json_error :=
  match r with
  | Decoded _ => None
  | DecodeError err => Some err
  end.

(** A simplified version of [PatchInput] for single patch operations;
    [one_Patches] is the pointer field [Patches] ([None] is nil). *)
Record PatchInputOne := {
  one_Path : string;
  one_Patches : option PatchRequest
}.

(** [PatchInputOne] with a better name for the singular case. *)
Record PatchInputOneSingular := {
  singular_Path : string;
  singular_Patch : option PatchRequest
}.

(** [string_Patches] contains the patches as a JSON string. *)
Record PatchInputOneString := {
  string_Path : string;
  string_Patches : string
}.

(** [json.Unmarshal], one function for each type [patchParse] decodes
    into; encoding/json is not part of the sources, and every theorem holds
    for all of them. *)
Record JSON := {
  Unmarshal_PatchInput : string → decoded PatchInput;
  Unmarshal_PatchInputOne : string → decoded PatchInputOne;
  Unmarshal_PatchInputOneSingular : string → decoded PatchInputOneSingular;
  Unmarshal_PatchInputOneString : string → decoded PatchInputOneString;
  Unmarshal_PatchRequest : string → decoded PatchRequest;
  Unmarshal_PatchRequests : string → decoded (list PatchRequest)
}.

(** The two errors of [patchParse], each with the message [m]. *)
Inductive parse_error :=
| ErrPatchesMissing (m : string)
    (* "patches field is missing or empty (this may indicate a truncated
       LLM response)\nJSON: %s" *)
| ErrUnmarshalInput (originalErr : json_error) (m : string).
    (* "failed to unmarshal patch input: %w\nJSON: %s" *)

Inductive parsed :=
| Parsed (input : PatchInput)
| ParseFailed (err : parse_error).

(** The output of [Run]: [llm.ErrorToolOut] of the error of [patchParse],
    or the output of [patchRun]. *)
Inductive Output :=
| ParseErrorOut (err : parse_error)
| RunOut (out : ToolOut).

(** [PatchCallback] runs after the patch tool has executed: it receives
    the patch input and the tool output, and returns a new, possibly
    altered tool output. *)
Definition PatchCallback : Type := PatchInput → Output → Output.

(** How a call of [Run] ends, as [RunResult] for [patchRun]. *)
Inductive Outcome :=
| Done (output : Output) (cb : gmap string string) (trace : list Event)
| Crashed (cb : gmap string string) (trace : list Event).

(** [if originalErr == nil { originalErr = err }] *)
Definition keep_first (originalErr err : option json_error)
  : option json_error :=
  match originalErr with
  | Some _ => originalErr
  | None => err
  end.

(** The end of [patchParse]: the JSON parsed but no form was accepted, or
    the first error is reported. *)
Definition parse_failure (originalErr : option json_error) (m : string)
  : parsed :=
  match originalErr with
  | None => ParseFailed (ErrPatchesMissing m)
  | Some err => ParseFailed (ErrUnmarshalInput err m)
  end.

(** [if p.Callback != nil { return p.Callback(input, output) }] *)
Definition respond (Callback : option PatchCallback) (input : PatchInput)
    (output : Output) : Output :=
  match Callback with
  | Some callback => callback input output
  | None => output
  end.

Section Run.

Variable X : Externals.
Variable J : JSON.

(** The last form [patchParse] accepts: [patches] is a JSON string that
    holds one patch, or an array of patches. *)
Definition parse_string (m : string) (originalErr : option json_error)
  : parsed :=
  match Unmarshal_PatchInputOneString J m with
  | Decoded inputOneString =>
      if decide (string_Patches inputOneString = "") then
        parse_failure originalErr m
      else
        let one := Unmarshal_PatchRequest J (string_Patches inputOneString) in
        let accepted :=
          match one with
          | Decoded onePatch =>
              if decide (Operation onePatch = "") then None else Some onePatch
          | DecodeError _ => None
          end in
        match accepted with
        | Some onePatch =>
            Parsed {| Path := string_Path inputOneString;
                      Patches := [onePatch] |}
        | None =>
            let originalErr := keep_first originalErr (decode_err one) in
            let array :=
              Unmarshal_PatchRequests J (string_Patches inputOneString) in
            match array with
            | Decoded patches =>
                Parsed {| Path := string_Path inputOneString;
                          Patches := patches |}
            | DecodeError _ =>
                parse_failure (keep_first originalErr (decode_err array)) m
            end
        end
  | DecodeError _ => parse_failure originalErr m
  end.

(** The form with the field [patch], one patch. *)
Definition parse_singular (m : string) (originalErr : option json_error)
  : parsed :=
  let r := Unmarshal_PatchInputOneSingular J m in
  match r with
  | Decoded inputOneSingular =>
      match singular_Patch inputOneSingular with
      | Some patch =>
          Parsed {| Path := singular_Path inputOneSingular;
                    Patches := [patch] |}
      | None => parse_string m (keep_first originalErr (decode_err r))
      end
  | DecodeError _ => parse_string m (keep_first originalErr (decode_err r))
  end.

(** The form with the field [patches] holding one patch, not an array. *)
Definition parse_one (m : string) (originalErr : option json_error)
  : parsed :=
  let r := Unmarshal_PatchInputOne J m in
  match r with
  | Decoded inputOne =>
      match one_Patches inputOne with
      | Some patch =>
          Parsed {| Path := one_Path inputOne; Patches := [patch] |}
      | None => parse_singular m (keep_first originalErr (decode_err r))
      end
  | DecodeError _ => parse_singular m (keep_first originalErr (decode_err r))
  end.

(** [patchParse] parses the input message into a [PatchInput] structure.
    It accepts a few different formats. *)
Definition patchParse (m : string) : parsed :=
  let r := Unmarshal_PatchInput J m in
  match r with
  | Decoded input =>
      match Patches input with
      | [] => parse_one m (decode_err r)
      | _ :: _ => Parsed input
      end
  | DecodeError _ => parse_one m (decode_err r)
  end.

(** [Run] implements the patch tool logic.  [Callback] is the field of
    that name ([None] is nil).  A nil map of clipboards reads as the empty
    map, which is what [Run] puts in its place before anything is written.
    [patchRun] assigns the resolved path to [input.Path] through its
    pointer argument, so that is the path of the input the callback is
    given; after a failed parse the input is the zero value. *)
Definition Run (Callback : option PatchCallback) (p : PatchTool)
    (os : OSReplies) (m : string) : Outcome :=
  match patchParse m with
  | ParseFailed err =>
      Done (respond Callback {| Path := ""; Patches := [] |}
              (ParseErrorOut err))
        (clipboards p) []
  | Parsed input =>
      match patchRun X p os input with
      | Returned out c trace =>
          Done (respond Callback
                  {| Path := resolved_path X p input;
                     Patches := Patches input |} (RunOut out))
            c trace
      | Panicked c trace => Crashed c trace
      end
  end.

End Run.

(** ** More vocabulary *)

(** The calls a run made, and the clipboards it left in the tool. *)
Definition trace_of (r : RunResult) : list Event :=
  match r with
  | Returned _ _ trace => trace
  | Panicked _ trace => trace
  end.

Definition clipboards_of (r : RunResult) : gmap string string :=
  match r with
  | Returned _ c _ => c
  | Panicked c _ => c
  end.

Definition outcome_clipboards (r : Outcome) : gmap string string :=
  match r with
  | Done _ c _ => c
  | Crashed c _ => c
  end.

Definition outcome_trace (r : Outcome) : list Event :=
  match r with
  | Done _ _ trace => trace
  | Crashed _ trace => trace
  end.

(** The path an event names. *)
Definition event_path (ev : Event) : string :=
  match ev with
  | EvReadFile path => path
  | EvMkdirAll dir => dir
  | EvWriteFile path _ => path
  end.

(** One call of the tool in a conversation: the working directory at that
    time, the replies of the operating system, and the message. *)
Record Call := {
  call_dir : string;
  call_os : OSReplies;
  call_m : string
}.

(** The calls of a conversation on one tool, each starting from the
    clipboards the call before it left. *)
Fixpoint session (X : Externals) (J : JSON) (Callback : option PatchCallback)
    (c : gmap string string) (calls : list Call) : list Outcome :=
  match calls with
  | [] => []
  | call :: rest =>
      let r := Run X J Callback
                 {| WorkingDir := call_dir call; clipboards := c |}
                 (call_os call) (call_m call) in
      r :: session X J Callback (outcome_clipboards r) rest
  end.

(** The clipboards a conversation ends with. *)
Definition session_clipboards (c : gmap string string)
    (outcomes : list Outcome) : gmap string string :=
  match last outcomes with
  | Some r => outcome_clipboards r
  | None => c
  end.

(** The decode errors [patchParse] can keep, in the order of the decodes:
    the three forms of the message and, when the string form was decoded
    with a non-empty string, the two decodes of that string.  The error of
    decoding the string form itself is not among them. *)
Definition decode_errors (J : JSON) (m : string)
  : list (option json_error) :=
  [ decode_err (Unmarshal_PatchInput J m);
    decode_err (Unmarshal_PatchInputOne J m);
    decode_err (Unmarshal_PatchInputOneSingular J m) ] ++
  match Unmarshal_PatchInputOneString J m with
  | Decoded inputOneString =>
      if decide (string_Patches inputOneString = "") then []
      else [ decode_err (Unmarshal_PatchRequest J
                           (string_Patches inputOneString));
             decode_err (Unmarshal_PatchRequests J
                           (string_Patches inputOneString)) ]
  | DecodeError _ => []
  end.

(** The forms of a message [patchParse] accepts, each with the input it
    is read as: the standard form with at least one patch; the field
    [patches] holding one patch; the field [patch]; the field [patches]
    holding a string that decodes to one patch with an operation; and that
    string decoding to an array of patches. *)
Definition accepts_standard (J : JSON) (m : string) (input : PatchInput)
  : Prop :=
  Unmarshal_PatchInput J m = Decoded input ∧ Patches input ≠ [].

Definition accepts_one (J : JSON) (m : string) (input : PatchInput) : Prop :=
  ∃ v patch,
    Unmarshal_PatchInputOne J m = Decoded v ∧ one_Patches v = Some patch
    ∧ input = {| Path := one_Path v; Patches := [patch] |}.

Definition accepts_singular (J : JSON) (m : string) (input : PatchInput)
  : Prop :=
  ∃ v patch,
    Unmarshal_PatchInputOneSingular J m = Decoded v
    ∧ singular_Patch v = Some patch
    ∧ input = {| Path := singular_Path v; Patches := [patch] |}.

Definition accepts_string_one (J : JSON) (m : string) (input : PatchInput)
  : Prop :=
  ∃ v patch,
    Unmarshal_PatchInputOneString J m = Decoded v ∧ string_Patches v ≠ ""
    ∧ Unmarshal_PatchRequest J (string_Patches v) = Decoded patch
    ∧ Operation patch ≠ ""
    ∧ input = {| Path := string_Path v; Patches := [patch] |}.

Definition accepts_string_array (J : JSON) (m : string) (input : PatchInput)
  : Prop :=
  ∃ v patches,
    Unmarshal_PatchInputOneString J m = Decoded v ∧ string_Patches v ≠ ""
    ∧ Unmarshal_PatchRequests J (string_Patches v) = Decoded patches
    ∧ input = {| Path := string_Path v; Patches := patches |}.

(** The first of the decode errors, as [patchParse] reports it. *)
Definition reported_error (J : JSON) (m : string) : parse_error :=
  match head (omap id (decode_errors J m)) with
  | Some err => ErrUnmarshalInput err m
  | None => ErrPatchesMissing m
  end.

(** Two patches that differ at most in which of prepend_bof, append_eof
    and overwrite they are, and in their old text. *)
Definition same_creation (a b : PatchRequest) : Prop :=
  creates a = true ∧ creates b = true ∧
  NewText a = NewText b ∧ ToClipboard a = ToClipboard b ∧
  FromClipboard a = FromClipboard b ∧ PReindent a = PReindent b.

(** Two patches that agree on every field the loop reads: the operation,
    the clipboards named and the reindent; the new text unless
    fromClipboard is set; the old text when the operation is a replace. *)
Definition same_effect (a b : PatchRequest) : Prop :=
  Operation a = Operation b ∧ ToClipboard a = ToClipboard b
  ∧ FromClipboard a = FromClipboard b ∧ PReindent a = PReindent b
  ∧ (FromClipboard a = "" → NewText a = NewText b)
  ∧ (Operation a = "replace" → OldText a = OldText b).

(** The errors an output of [patchRun] can be: one error of the kinds
    below, a matching failure being the joined errors of the replaces that
    did not match, each not found or not unique. *)
Definition matching_entry (e : error) : bool :=
  match e with
  | ErrNotUnique _ | ErrNotFound _ => true
  | _ => false
  end.

Definition output_error (e : error) : Prop :=
  match e with
  | ErrNoPatches | ErrFileNotExist _ | ErrReadFile _ _
  | ErrToClipboardNotReplace _ | ErrToClipboardEmptyOldText _
  | ErrFromClipboardMissing _ | ErrOldTextEmpty _ _ | ErrUnrecognized _
  | ErrOverlap _ _ | ErrMkdirAll _ _ | ErrWriteFile _ _ => True
  | ErrReindent strip _ (ErrStripPrecondition _ strip') => strip' = strip
  | ErrPatchFailed patchErr _ =>
      entries patchErr ≠ [] ∧ forallb matching_entry (entries patchErr) = true
  | _ => False
  end.

(** What the joined matching errors are made of. *)
Definition matching_only (patchErr : option error) : Prop :=
  match patchErr with
  | None => True
  | Some e =>
      entries e ≠ [] ∧ forallb matching_entry (entries e) = true
  end.

(** A small decoder, for the examples: whatever the message, the replies
    of encoding/json to a message whose field [patches] is a string
    holding the empty array. *)
Module DemoJSON.

Definition J : JSON := {|
  Unmarshal_PatchInput := λ _,
    DecodeError (JSONError "cannot unmarshal string into Go struct field");
  Unmarshal_PatchInputOne := λ _,
    DecodeError (JSONError "cannot unmarshal string into Go struct field");
  Unmarshal_PatchInputOneSingular := λ _,
    Decoded {| singular_Path := "f.txt"; singular_Patch := None |};
  Unmarshal_PatchInputOneString := λ _,
    Decoded {| string_Path := "f.txt"; string_Patches := "[]" |};
  Unmarshal_PatchRequest := λ _,
    DecodeError (JSONError "cannot unmarshal array into Go value");
  Unmarshal_PatchRequests := λ _, Decoded []
|}.

(** The replies to a message that is not JSON at all. *)
Definition garbage : JSON := {|
  Unmarshal_PatchInput := λ _, DecodeError (JSONError "invalid character");
  Unmarshal_PatchInputOne := λ _,
    DecodeError (JSONError "invalid character");
  Unmarshal_PatchInputOneSingular := λ _,
    DecodeError (JSONError "invalid character");
  Unmarshal_PatchInputOneString := λ _,
    DecodeError (JSONError "invalid character");
  Unmarshal_PatchRequest := λ _, DecodeError (JSONError "invalid character");
  Unmarshal_PatchRequests := λ _,
    DecodeError (JSONError "invalid character")
|}.

(** The replies to a message in the standard form, with the batch
    [patches] on the file [path]. *)
Definition standard (path : string) (patches : list PatchRequest) : JSON := {|
  Unmarshal_PatchInput := λ _,
    Decoded {| Path := path; Patches := patches |};
  Unmarshal_PatchInputOne := λ _,
    DecodeError (JSONError "cannot unmarshal array into Go struct field");
  Unmarshal_PatchInputOneSingular := λ _,
    Decoded {| singular_Path := path; singular_Patch := None |};
  Unmarshal_PatchInputOneString := λ _,
    DecodeError (JSONError "cannot unmarshal array into Go struct field");
  Unmarshal_PatchRequest := λ _, DecodeError (JSONError "unexpected call");
  Unmarshal_PatchRequests := λ _, DecodeError (JSONError "unexpected call")
|}.

End DemoJSON.

(** ** An instance of the externals for Go files

    As [Demo.X], with a stand-in for the imports-only parse of
    go/parser, for the examples. *)

Module DemoGo.

(** The lines of a file before the first line that starts a function. *)
Fixpoint header_lines (lines : list string) : list string :=
  match lines with
  | [] => []
  | l :: r =>
      if GoStrings.HasPrefix l "func" then [] else l :: header_lines r
  end.

(** A stand-in for [parser.ParseFile] in the mode
    [ImportsOnly|ParseComments]: nothing is read from the first line that
    starts a function on; the parse fails unless a line of the header
    starts the package clause; the comment groups are the lines of the
    header that start with two slashes, without the slashes. *)
Definition ParseFile (buf : string) : option (list string) :=
  let header := header_lines (GoStrings.Split buf LF) in
  if existsb (fun l => GoStrings.HasPrefix l "package ") header
  then Some (omap (fun l => GoStrings.CutPrefix l "//") header)
  else None.

Definition X : Externals := {|
  filepath_IsAbs := filepath_IsAbs Demo.X;
  filepath_Join := filepath_Join Demo.X;
  filepath_Dir := filepath_Dir Demo.X;
  unicode_ToLower := unicode_ToLower Demo.X;
  parser_ParseFile := ParseFile;
  diff_Text := diff_Text Demo.X;
  UniqueDedent := UniqueDedent Demo.X;
  UniqueInValidGo := UniqueInValidGo Demo.X;
  UniqueGoTokens := UniqueGoTokens Demo.X;
  UniqueTrim := UniqueTrim Demo.X
|}.

(** A file with the canonical comment above its package clause. *)
Definition generated : string :=
  "// Code generated by x. DO NOT EDIT." +:+ nl +:+ "package p" +:+ nl.

(** A header without comment, and a body that does not parse (its brace
    is never closed) and whose comment holds one of the phrases. *)
Definition header : string := "package p" +:+ nl.

Definition body : string :=
  "func f() {" +:+ nl +:+ tab +:+ "// generated" +:+ nl.

End DemoGo.

(** * Facts about strings *)

Section StringFacts.

Import GoStrings.

Lemma app_cons (c : ascii) (s b : string) :
  String c s +:+ b = String c (s +:+ b).
Proof. reflexivity. Qed.

Lemma app_nil_l (b : string) : "" +:+ b = b.
Proof. reflexivity. Qed.

Lemma app_empty_r (s : string) : s +:+ "" = s.
Proof.
  induction s as [|c s IH]; [done |]. by rewrite app_cons, IH.
Qed.

Lemma len_app (a b : string) : len (a +:+ b) = len a + len b.
Proof.
  unfold len. induction a as [|x a IH]; [done |].
  rewrite app_cons. simpl. by rewrite IH.
Qed.

Lemma take_drop_str (n : nat) (s : string) : take n s +:+ drop n s = s.
Proof.
  revert s. induction n as [|n IH]; intros [|c s]; simpl; try done.
  by rewrite app_cons, IH.
Qed.

Lemma drop_drop_str (a b : nat) (s : string) :
  drop b (drop a s) = drop (a + b) s.
Proof.
  revert s. induction a as [|a IH]; intros s; simpl; [done |].
  destruct s as [|c s]; simpl; [by destruct b | apply IH].
Qed.

Lemma take_app_len (p r : string) : take (len p) (p +:+ r) = p.
Proof.
  induction p as [|c p IH]; [done |]. rewrite app_cons. simpl.
  f_equal. apply IH.
Qed.

Lemma drop_all (s : string) (n : nat) : len s ≤ n → drop n s = "".
Proof.
  revert n. induction s as [|c s IH]; intros [|n] H; simpl in *; try done.
  - unfold len in H. simpl in H. lia.
  - apply IH. unfold len in *. simpl in H. lia.
Qed.

Lemma len_drop (s : string) (n : nat) : len (drop n s) = len s - n.
Proof.
  revert s. induction n as [|n IH]; intros [|c s]; simpl; try done.
  all: try apply IH. all: unfold len; simpl; lia.
Qed.

Lemma HasPrefix_split (s p : string) :
  HasPrefix s p = true → s = p +:+ drop (len p) s.
Proof.
  revert s. induction p as [|c p IH]; intros s H; [done |].
  destruct s as [|x s]; [done |]. simpl in H.
  apply andb_true_iff in H as [Hc Hp]. apply Ascii.eqb_eq in Hc. subst x.
  rewrite app_cons. simpl. f_equal. by apply IH.
Qed.

Lemma Contains_nl (s : string) : Contains s nl = has_LF s.
Proof.
  induction s as [|c s IH]; [done |].
  simpl. rewrite IH. by destruct s; rewrite andb_true_r.
Qed.

Lemma has_LF_app (a b : string) : has_LF (a +:+ b) = has_LF a || has_LF b.
Proof.
  induction a as [|c a IH]; [done |].
  rewrite app_cons. simpl. by rewrite IH, orb_assoc.
Qed.

Lemma has_LF_drop (n : nat) (s : string) :
  has_LF s = false → has_LF (drop n s) = false.
Proof.
  revert s. induction n as [|n IH]; intros [|c s] H; simpl in *; try done.
  apply orb_false_iff in H as [_ H]. by apply IH.
Qed.

Lemma Split_not_nil (s : string) (sep : ascii) : Split s sep ≠ [].
Proof.
  induction s as [|c s IH]; simpl; [done |].
  destruct (Ascii.eqb c sep); [done |].
  by destruct (Split s sep).
Qed.

Lemma Split_no_LF (s : string) :
  Forall (λ l, has_LF l = false) (Split s LF).
Proof.
  induction s as [|c s IH]; simpl.
  - by constructor.
  - destruct (Ascii.eqb c LF) eqn:E.
    + by constructor.
    + destruct (Split s LF) as [|l ls].
      * repeat constructor. simpl. by rewrite E.
      * inversion IH; subst. constructor; [simpl; by rewrite E | done].
Qed.

Lemma Join_cons2 (l l' : string) (ls : list string) (sep : string) :
  Join (l :: l' :: ls) sep = l +:+ sep +:+ Join (l' :: ls) sep.
Proof. reflexivity. Qed.

Lemma Join_Split (s : string) : Join (Split s LF) nl = s.
Proof.
  induction s as [|c s IH]; simpl; [done |].
  pose proof (Split_not_nil s LF) as Hne.
  destruct (Ascii.eqb c LF) eqn:E.
  - apply Ascii.eqb_eq in E. subst c.
    destruct (Split s LF) as [|l ls]; [done |].
    rewrite Join_cons2, IH. done.
  - destruct (Split s LF) as [|l ls] eqn:Es; [done |].
    destruct ls as [|l' ls].
    + simpl in *. by rewrite IH.
    + rewrite Join_cons2 in *. by rewrite app_cons, IH.
Qed.

Lemma Split_line (l : string) :
  has_LF l = false → Split l LF = [l].
Proof.
  induction l as [|c l IH]; simpl; intros H; [done |].
  apply orb_false_iff in H as [Hc Hl]. rewrite Hc, IH; done.
Qed.

Lemma Split_app_nl (l rest : string) :
  has_LF l = false → Split (l +:+ nl +:+ rest) LF = l :: Split rest LF.
Proof.
  induction l as [|c l IH]; intros H; [done |].
  simpl in H. apply orb_false_iff in H as [Hc Hl].
  rewrite app_cons. simpl. rewrite Hc, IH; done.
Qed.

Lemma Split_Join (lines : list string) :
  lines ≠ [] → Forall (λ l, has_LF l = false) lines →
  Split (Join lines nl) LF = lines.
Proof.
  induction lines as [|l ls IH]; intros Hne Hall; [done |].
  inversion Hall as [|? ? Hl Hls]; subst.
  destruct ls as [|l' ls].
  - simpl. by apply Split_line.
  - rewrite Join_cons2, Split_app_nl by done. f_equal. by apply IH.
Qed.

Lemma ends_with_LF_cons (c : ascii) (s : string) :
  s ≠ "" → ends_with_LF (String c s) = ends_with_LF s.
Proof. by destruct s. Qed.

Lemma ends_with_LF_app (a b : string) :
  ends_with_LF (a +:+ b) =
  if decide (b = "") then ends_with_LF a else ends_with_LF b.
Proof.
  induction a as [|c a IH].
  - rewrite app_nil_l. case_decide; [by subst | done].
  - rewrite app_cons. destruct (decide (b = "")) as [->|Hb].
    + by rewrite app_empty_r.
    + rewrite ends_with_LF_cons;
        [| destruct a; [by rewrite app_nil_l | by rewrite app_cons]].
      rewrite IH. destruct (decide (b = "")); done.
Qed.

Lemma ends_with_LF_has_LF (s : string) :
  has_LF s = false → ends_with_LF s = false.
Proof.
  induction s as [|c s IH]; [done |]. intros H.
  simpl in H. apply orb_false_iff in H as [Hc Hs].
  destruct s; [done |]. by apply IH.
Qed.

Lemma app_eq_empty (a b : string) : a +:+ b = "" → a = "" ∧ b = "".
Proof. destruct a; [by rewrite app_nil_l | by rewrite app_cons]. Qed.

Lemma Join_eq_empty (ls : list string) :
  Join ls nl = "" → ls = [] ∨ ls = [""].
Proof.
  destruct ls as [|l [|l' ls]]; simpl; intros H.
  - by left.
  - right. by subst.
  - apply app_eq_empty in H as [_ H]. by apply app_eq_empty in H as [H _].
Qed.

Lemma ends_with_LF_Join (init : list string) (x : string) :
  ends_with_LF (Join (init ++ [x]) nl) =
  if decide (x = "") then negb (bool_decide (init = []))
  else ends_with_LF x.
Proof.
  induction init as [|l init IH].
  - simpl. case_decide; [by subst | done].
  - assert (Join ((l :: init) ++ [x]) nl = l +:+ nl +:+ Join (init ++ [x]) nl)
      as ->.
    { simpl. destruct (init ++ [x]) eqn:E; [by destruct init | done]. }
    rewrite ends_with_LF_app.
    destruct (decide (nl +:+ Join (init ++ [x]) nl = "")) as [E|_].
    { by apply app_eq_empty in E as [E _]. }
    rewrite ends_with_LF_app.
    destruct (decide (Join (init ++ [x]) nl = "")) as [E|E].
    + apply Join_eq_empty in E as [E|E]; [by destruct init |].
      destruct init as [|? [|? ?]]; simplify_eq/=.
      done.
    + rewrite IH. destruct (decide (x = "")) as [->|Hx]; [| done].
      case_bool_decide as Hi; [| done]. by subst.
Qed.

End StringFacts.


(** * reindent *)

Section ReindentFacts.

Import GoStrings.

Lemma strip_lines_find (lines : list string) (strip : string) :
  strip_lines lines strip =
  match List.find (lacks_prefix strip) lines with
  | Some line => Err (ErrStripPrecondition line strip)
  | None =>
      Ok (map (λ line, if decide (line = "") then line
                       else drop (len strip) line) lines)
  end.
Proof.
  induction lines as [|line rest IH]; [done |].
  simpl. unfold lacks_prefix at 1, CutPrefix.
  destruct (decide (line = "")) as [->|Hne].
  - rewrite bool_decide_eq_true_2 by done. simpl.
    rewrite IH. by destruct (List.find _ rest).
  - rewrite bool_decide_eq_false_2 by done. simpl.
    destruct (HasPrefix line strip); simpl; [| done].
    rewrite IH. by destruct (List.find _ rest).
Qed.

Lemma add_lines_stripped (lines : list string) (strip add : string) :
  add_lines
    (map (λ line, if decide (line = "") then line
                  else drop (len strip) line) lines) add =
  map (reindent_line strip add) lines.
Proof.
  unfold add_lines. rewrite map_map. apply map_ext. intros line.
  unfold reindent_line.
  destruct (decide (line = "")) as [->|Hne]; simpl; [done |].
  by destruct (decide (drop (len strip) line = "")) as [->|E].
Qed.

Lemma reindent_find (text strip add : string) :
  reindent text (Some {| Strip := strip; Add := add |}) =
  match List.find (lacks_prefix strip) (Split text LF) with
  | Some line => Err (ErrStripPrecondition line strip)
  | None => Ok (Join (map (reindent_line strip add) (Split text LF)) nl)
  end.
Proof.
  unfold reindent. simpl. rewrite strip_lines_find.
  destruct (List.find _ _); [done |]. by rewrite add_lines_stripped.
Qed.

Lemma reindent_line_no_LF (strip add line : string) :
  has_LF add = false → has_LF line = false →
  has_LF (reindent_line strip add line) = false.
Proof.
  intros Ha Hl. unfold reindent_line. repeat case_decide; try done.
  rewrite has_LF_app, Ha. simpl. by apply has_LF_drop.
Qed.

Lemma find_none_all {A} (f : A → bool) (l : list A) :
  List.find f l = None → Forall (λ x, f x = false) l.
Proof.
  induction l as [|x l IH]; simpl; [by constructor |].
  destruct (f x) eqn:E; [done |]. intros H. constructor; auto.
Qed.

(** A line that passes the strip check is reindented to the empty line
    exactly when it is empty or is the prefix itself. *)
Lemma reindent_line_empty (strip add line : string) :
  lacks_prefix strip line = false →
  reindent_line strip add line = "" ↔ line = "" ∨ line = strip.
Proof.
  unfold lacks_prefix, reindent_line. intros H.
  destruct (decide (line = "")) as [->|Hne]; [naive_solver |].
  rewrite bool_decide_eq_false_2 in H by done. simpl in H.
  apply negb_false_iff, HasPrefix_split in H.
  destruct (decide (drop (len strip) line = "")) as [E|E].
  - split; [| done]. intros _. right. rewrite H, E. by rewrite app_empty_r.
  - split.
    + intros Hc. apply app_eq_empty in Hc as [_ Hc]. done.
    + intros [? | ->]; [done |]. exfalso. apply E, drop_all. done.
Qed.

Lemma reindent_line_ends (strip add line : string) :
  has_LF line = false →
  reindent_line strip add line ≠ "" →
  ends_with_LF (reindent_line strip add line) = false.
Proof.
  unfold reindent_line. intros Hl Hne. repeat case_decide; try done.
  rewrite ends_with_LF_app. case_decide; [done |].
  by apply ends_with_LF_has_LF, has_LF_drop.
Qed.

Lemma ends_with_LF_text (init : list string) (x : string) (text : string) :
  Split text LF = init ++ [x] →
  ends_with_LF text = true ↔ x = "" ∧ init ≠ [].
Proof.
  intros Hs. pose proof (Split_no_LF text) as Hall.
  rewrite <- (Join_Split text), Hs, ends_with_LF_Join.
  rewrite Hs in Hall. apply Forall_app in Hall as [_ Hx].
  inversion Hx as [|? ? Hx' _]; subst.
  destruct (decide (x = "")) as [->|Hne].
  - case_bool_decide as Hi; simpl.
    + split; [done |]. by intros [_ ?].
    + by split.
  - rewrite ends_with_LF_has_LF by done. split; [done |]. by intros [? _].
Qed.

End ReindentFacts.

(** C4, as amended.  [reindent] splits the text at line feeds; it fails
    with the error naming the first non-empty line that does not start with
    [strip], and that prefix; otherwise every non-empty line loses [strip]
    and, if something of the line is left, gains [add], empty lines being
    left alone.  The number of lines is kept when [add] holds no line feed.
    A terminal newline is kept, and one appears exactly when the text has
    two lines or more and its last line is [strip] itself. *)
Theorem reindent_contract (text strip add : string) :
  let adj := Some {| Strip := strip; Add := add |} in
  let lines := GoStrings.Split text LF in
  reindent text adj =
    match List.find (lacks_prefix strip) lines with
    | Some line => Err (ErrStripPrecondition line strip)
    | None => Ok (GoStrings.Join (map (reindent_line strip add) lines) nl)
    end
  ∧ ∀ out, reindent text adj = Ok out →
      (GoStrings.Contains add nl = false →
       length (GoStrings.Split out LF) = length lines)
      ∧ (ends_with_LF out = true ↔
         ends_with_LF text = true ∨
         (2 ≤ length lines ∧ last lines = Some strip)).
Proof.
  intros adj lines. split; [apply reindent_find |].
  intros out. unfold adj. rewrite reindent_find. fold lines.
  destruct (List.find (lacks_prefix strip) lines) eqn:Hfind; [done |].
  intros [= <-]. apply find_none_all in Hfind.
  pose proof (Split_no_LF text) as Hno. fold lines in Hno.
  pose proof (Split_not_nil text LF) as Hne. fold lines in Hne.
  split.
  - rewrite Contains_nl. intros Hadd.
    rewrite Split_Join, length_map; [done | by destruct lines |].
    apply Forall_map. eapply Forall_impl; [exact Hno |].
    intros l Hl. by apply reindent_line_no_LF.
  - destruct (exists_last Hne) as (init & x & Hlines).
    rewrite (ends_with_LF_text init x text) by done.
    rewrite Hlines in *. rewrite map_app. simpl. rewrite ends_with_LF_Join.
    rewrite last_snoc, length_app. simpl.
    apply Forall_app in Hfind as [_ Hx]. apply Forall_app in Hno as [_ Hnx].
    inversion Hx as [|? ? Hx' _]; subst. inversion Hnx as [|? ? Hnx' _]; subst.
    pose proof (reindent_line_empty strip add x Hx') as Hempty.
    destruct (decide (reindent_line strip add x = "")) as [E|E].
    + apply Hempty in E.
      assert (length init = 0 ↔ init = []) as Hlen by (by destruct init).
      case_bool_decide as Hi.
      * apply map_eq_nil in Hi. subst init. simpl. split; [done |].
        intros [[_ ?]|[? _]]; [done | lia].
      * assert (init ≠ []) by (intros ->; done). simpl.
        split; [| done]. intros _.
        destruct E as [->| ->]; [by left | right].
        split; [| done]. destruct init; simpl; [done | lia].
    + rewrite reindent_line_ends by done. split; [done |].
      intros [[-> _]|[_ [= ->]]]; exfalso; apply E, Hempty; auto.
Qed.

(** The two examples of the specification, read off the contract. *)
Lemma reindent_contract_witness :
  reindent ("  a" +:+ nl +:+ nl +:+ "  b" +:+ nl)
    (Some {| Strip := "  "; Add := "" |})
  = Ok ("a" +:+ nl +:+ nl +:+ "b" +:+ nl)
  ∧ reindent ("a" +:+ nl) (Some {| Strip := "  "; Add := "" |})
    = Err (ErrStripPrecondition "a" "  ").
Proof.
  split.
  - exact (proj1 (reindent_contract ("  a" +:+ nl +:+ nl +:+ "  b" +:+ nl)
                    "  " "")).
  - exact (proj1 (reindent_contract ("a" +:+ nl) "  " "")).
Defined.

(** C4 as stated fails: a last line that is the prefix itself is stripped
    to the empty line, and the result gains a terminal newline the text did
    not have; and a prefix to add that holds a line feed adds a line. *)
Lemma reindent_terminal_newline_counterexample :
  reindent ("ab" +:+ nl +:+ "a") (Some {| Strip := "a"; Add := "" |})
  = Ok ("b" +:+ nl)
  ∧ ends_with_LF ("ab" +:+ nl +:+ "a") = false
  ∧ ends_with_LF ("b" +:+ nl) = true
  ∧ reindent "a" (Some {| Strip := ""; Add := "x" +:+ nl |})
    = Ok ("x" +:+ nl +:+ "a")
  ∧ length (GoStrings.Split "a" LF) = 1
  ∧ length (GoStrings.Split ("x" +:+ nl +:+ "a") LF) = 2.
Proof. by vm_compute. Qed.

(** * The edit buffer *)

Section BufferFacts.

Import GoStrings editbuf.

Lemma insert_by_start_perm (e : edit) (l : list edit) :
  insert_by_start e l ≡ₚ e :: l.
Proof.
  induction l as [|x l IH]; simpl; [done |].
  destruct (before e x); [done |].
  rewrite IH. apply perm_swap.
Qed.

Lemma sort_by_start_perm (l : list edit) : sort_by_start l ≡ₚ l.
Proof.
  induction l as [|e l IH]; simpl; [done |].
  by rewrite insert_by_start_perm, IH.
Qed.

Lemma incompatible_sym (orig : string) (a b : edit) :
  incompatible orig a b = incompatible orig b a.
Proof.
  unfold incompatible, spans_intersect.
  destruct (whole orig a), (whole orig b); simpl; try done.
  apply andb_comm.
Qed.

Lemma conflict_perm (orig : string) (l l' : list edit) (x y : edit) :
  l ≡ₚ l' → conflict orig l x y → conflict orig l' x y.
Proof.
  intros [_ (f & Hinj & Hf)]%Permutation_inj (i & j & Hij & Hi & Hj & Hxy).
  exists (f i), (f j). rewrite <- !Hf. split_and!; try done.
  intros E. by apply Hij, Hinj.
Qed.

(** The pair the check names is a conflict of the list. *)
Lemma overlap_Some (orig : string) (l : list edit) (x y : edit) :
  overlap orig l = Some (x, y) → conflict orig l x y.
Proof.
  induction l as [|e r IH]; simpl; [done |].
  destruct (find (incompatible orig e) r) as [e'|] eqn:Hf.
  - intros [= <- <-]. apply find_some in Hf as [Hin Hinc].
    apply list_elem_of_In, list_elem_of_lookup in Hin as [j Hj].
    exists 0, (S j). done.
  - intros (i & j & Hij & Hi & Hj & Hxy)%IH.
    exists (S i), (S j). split_and!; try done. lia.
Qed.

(** A list with a conflict does not pass the check. *)
Lemma overlap_None (orig : string) (l : list edit) (x y : edit) :
  overlap orig l = None → ¬ conflict orig l x y.
Proof.
  induction l as [|e r IH]; simpl.
  { by intros _ (i & j & _ & Hi & _). }
  destruct (find (incompatible orig e) r) as [e'|] eqn:Hf; [done |].
  intros Hr (i & j & Hij & Hi & Hj & Hxy).
  assert (∀ z, z ∈ r → incompatible orig e z = false) as Hnone.
  { intros z Hz%list_elem_of_In. by apply (find_none _ _ Hf). }
  destruct i as [|i], j as [|j]; simpl in Hi, Hj; [done | | |].
  - injection Hi as <-. apply list_elem_of_lookup_2 in Hj.
    by rewrite (Hnone _ Hj) in Hxy.
  - injection Hj as <-. apply list_elem_of_lookup_2 in Hi.
    rewrite incompatible_sym in Hxy. by rewrite (Hnone _ Hi) in Hxy.
  - apply (IH Hr). exists i, j. split_and!; try done. lia.
Qed.

(** The only error of [Bytes] is an overlap, and it names two registered
    edits that are incompatible. *)
Lemma Bytes_Err_conflict (b : Buffer) (e : error) :
  Bytes b = Err e →
  ∃ x y, e = ErrOverlap x y ∧ conflict (old b) (q b) x y.
Proof.
  unfold Bytes. cbn zeta.
  destruct (overlap (old b) (sort_by_start (q b))) as [[x y]|] eqn:Ho;
    [| done].
  intros [= <-]. exists x, y. split; [done |].
  apply overlap_Some in Ho.
  by apply (conflict_perm _ _ _ _ _ (sort_by_start_perm (q b))).
Qed.

(** Two registered edits that are incompatible make [Bytes] fail. *)
Lemma Bytes_conflict (b : Buffer) (a c : edit) :
  conflict (old b) (q b) a c →
  ∃ x y, Bytes b = Err (ErrOverlap x y) ∧ conflict (old b) (q b) x y.
Proof.
  intros Hc. destruct (Bytes b) as [t|e] eqn:Hb.
  - exfalso. unfold Bytes in Hb. cbn zeta in Hb.
    destruct (overlap (old b) (sort_by_start (q b))) as [[x y]|] eqn:Ho;
      [done |].
    apply (overlap_None _ _ a c Ho).
    apply (conflict_perm _ (q b)); [| done].
    symmetry. apply sort_by_start_perm.
  - destruct (Bytes_Err_conflict _ _ Hb) as (x & y & -> & Hxy). eauto.
Qed.

End BufferFacts.


(** * One iteration of the loop *)

Section StepFacts.

Import GoStrings editbuf patchkit.

Variable X : Externals.

Lemma set_cb_same (st : LoopState) : set_cb st (cb st) = st.
Proof. by destruct st. Qed.

(** Joining one more error adds its entries after those recorded. *)
Lemma entries_join (patchErr : option error) (e : error) :
  entries_of (errors_Join [patchErr; Some e]) =
  entries_of patchErr ++ entries e.
Proof.
  destruct patchErr as [pe|]; unfold errors_Join; simpl;
    by rewrite app_nil_r.
Qed.

Lemma patchLoop_app (orig : string) (pre post : list PatchRequest) :
  ∀ i st,
  patchLoop X orig i (pre ++ post) st =
  match patchLoop X orig i pre st with
  | Continue st' => patchLoop X orig (i + length pre) post st'
  | stop => stop
  end.
Proof.
  induction pre as [|patch pre IH]; intros i st; simpl.
  - by rewrite Nat.add_0_r.
  - destruct (patchStep X orig i patch st); [| done | done].
    rewrite IH. by replace (S i + length pre) with (i + S (length pre)) by lia.
Qed.

(** The case ["replace"] follows the ladder. *)
Lemma replace_case_ladder (orig : string) (i : nat) (patch : PatchRequest)
    (newText : string) (st : LoopState) :
  OldText patch ≠ "" →
  replace_case X orig i patch newText st =
  match ladder X orig (OldText patch) newText with
  | Found ExactUnique spec | Found FirstLineTrim spec =>
      Continue (set_buf st (ApplyToEditBuf spec (buf st)))
  | Found _ spec => applied_with_clipboard orig patch spec st
  | Ambiguous => Continue (join_patchErr st (ErrNotUnique (OldText patch)))
  | NotFound => Continue (join_patchErr st (ErrNotFound (OldText patch)))
  end.
Proof.
  intros Hold. unfold replace_case, ladder, Unique.
  rewrite decide_False by done.
  destruct (occurrences orig (OldText patch)) as [|off [|off' l]]; [| done | done].
  unfold recovery_tiers. simpl.
  destruct (UniqueDedent X orig (OldText patch) newText); [done |].
  destruct (UniqueInValidGo X orig (OldText patch) newText); [done |].
  destruct (UniqueGoTokens X orig (OldText patch) newText); [done |].
  by destruct (UniqueTrim X orig (OldText patch) newText).
Qed.

(** One iteration, told by the structural error of the patch, its
    resolved text and the ladder. *)
Lemma patchStep_spec (orig : string) (i : nat) (patch : PatchRequest)
    (st : LoopState) :
  patchStep X orig i patch st =
  match structural_error i patch (cb st) with
  | Some e =>
      Return (ErrorToolOut e)
        (if bool_decide (ToClipboard patch ≠ "")
            && (bool_decide (Operation patch ≠ "replace")
                || bool_decide (OldText patch = ""))
         then cb st else captured patch (cb st))
  | None =>
      let st1 := set_cb st (captured patch (cb st)) in
      match resolve_newText patch (captured patch (cb st)) with
      | Err _ => Continue st
      | Ok newText =>
          if decide (Operation patch = "replace") then
            match ladder X orig (OldText patch) newText with
            | Found ExactUnique spec | Found FirstLineTrim spec =>
                Continue (set_buf st1 (ApplyToEditBuf spec (buf st)))
            | Found _ spec => applied_with_clipboard orig patch spec st1
            | Ambiguous =>
                Continue (join_patchErr st1 (ErrNotUnique (OldText patch)))
            | NotFound =>
                Continue (join_patchErr st1 (ErrNotFound (OldText patch)))
            end
          else if decide (Operation patch = "prepend_bof") then
            Continue (set_buf st1 (Insert (buf st) 0 newText))
          else if decide (Operation patch = "append_eof") then
            Continue (set_buf st1 (Insert (buf st) (len orig) newText))
          else
            Continue (set_buf st1 (Replace (buf st) 0 (len orig) newText))
      end
  end.
Proof.
  unfold patchStep, structural_error, captured, resolve_and_apply.
  destruct (decide (ToClipboard patch = "")) as [Hto|Hto].
  - rewrite (bool_decide_eq_false_2 (ToClipboard patch ≠ "")) by naive_solver.
    simpl. rewrite set_cb_same.
    destruct (resolve_newText patch (cb st)) as [newText|e]; [| done].
    unfold operation_case, creates.
    destruct (decide (Operation patch = "replace")) as [Hop|Hop].
    + rewrite !decide_False by (rewrite Hop; done).
      rewrite bool_decide_eq_true_2 by done.
      destruct (decide (OldText patch = "")) as [Hold|Hold].
      * rewrite bool_decide_eq_true_2 by done.
        unfold replace_case. by rewrite decide_True.
      * rewrite bool_decide_eq_false_2 by done.
        by rewrite replace_case_ladder.
    + rewrite (bool_decide_eq_false_2 (Operation patch = "replace")) by done.
      repeat case_decide; repeat case_bool_decide; simpl; done.
  - rewrite (bool_decide_eq_true_2 (ToClipboard patch ≠ "")) by done.
    simpl.
    destruct (decide (Operation patch = "replace")) as [Hop|Hop].
    + rewrite (bool_decide_eq_false_2 (Operation patch ≠ "replace"))
        by naive_solver.
      simpl.
      destruct (decide (OldText patch = "")) as [Hold|Hold].
      { by rewrite bool_decide_eq_true_2. }
      rewrite !bool_decide_eq_false_2 by done.
      simpl.
      destruct (resolve_newText patch _) as [newText|e]; [| done].
      rewrite bool_decide_eq_true_2 by done.
      unfold operation_case.
      rewrite !decide_False by (rewrite Hop; done).
      rewrite decide_True by done.
      by rewrite replace_case_ladder.
    + by rewrite (bool_decide_eq_true_2 (Operation patch ≠ "replace")).
Qed.


(** A tier that found its match and updates the clipboard: what the state
    becomes. *)
Lemma applied_with_clipboard_Continue (orig : string) (patch : PatchRequest)
    (spec : Spec) (st st' : LoopState) :
  applied_with_clipboard orig patch spec st = Continue st' →
  buf st' = ApplyToEditBuf spec (buf st) ∧ patchErr st' = patchErr st ∧
  ((ToClipboard patch = "" ∧ cb st' = cb st ∧
    clipboardsModified st' = clipboardsModified st) ∨
   (ToClipboard patch ≠ "" ∧
    ∃ m, slice orig (Off spec) (Off spec + Len spec) = Some m ∧
         cb st' = <[ToClipboard patch := m]> (cb st) ∧
         clipboardsModified st' =
           clipboardsModified st ++
           [ {| note_name := ToClipboard patch; note_new_contents := m |} ])).
Proof.
  unfold applied_with_clipboard, updateToClipboard.
  destruct (decide (ToClipboard patch = "")) as [Hto|Hto].
  - intros [= <-]. simpl. split_and!; try done. by left.
  - destruct (slice orig _ _) as [m|] eqn:Hs; [| done].
    intros [= <-]. simpl. split_and!; try done. right. eauto.
Qed.

Lemma applied_with_clipboard_cb (orig : string) (patch : PatchRequest)
    (spec : Spec) (st : LoopState) (name : string) :
  name ≠ ToClipboard patch →
  flow_cb (applied_with_clipboard orig patch spec st) !! name
  = cb st !! name.
Proof.
  intros Hne. unfold applied_with_clipboard, updateToClipboard.
  destruct (decide (ToClipboard patch = "")); [done |].
  destruct (slice orig _ _); simpl; [| done].
  by rewrite lookup_insert_ne.
Qed.

Lemma captured_other (patch : PatchRequest) (c : gmap string string)
    (name : string) :
  name ≠ ToClipboard patch → captured patch c !! name = c !! name.
Proof.
  intros Hne. unfold captured. case_decide; [done |].
  by rewrite lookup_insert_ne.
Qed.

(** Whatever an iteration does, it leaves the clipboards it does not name
    as they were. *)
Lemma patchStep_cb_other (orig : string) (i : nat) (patch : PatchRequest)
    (st : LoopState) (name : string) :
  name ≠ ToClipboard patch →
  flow_cb (patchStep X orig i patch st) !! name = cb st !! name.
Proof.
  intros Hne. rewrite patchStep_spec.
  pose proof (captured_other patch (cb st) name Hne) as Hcap.
  destruct (structural_error i patch (cb st)).
  { simpl. by destruct (_ && _). }
  cbn zeta.
  destruct (resolve_newText patch _) as [newText|]; [| done].
  destruct (decide (Operation patch = "replace")).
  - destruct (ladder X orig (OldText patch) newText) as [[] s| |];
      try done; by rewrite applied_with_clipboard_cb.
  - by repeat case_decide.
Qed.

Lemma patchLoop_cb_other (orig : string) (patches : list PatchRequest)
    (name : string) :
  Forall (λ patch, ToClipboard patch ≠ name) patches →
  ∀ i st, flow_cb (patchLoop X orig i patches st) !! name = cb st !! name.
Proof.
  induction patches as [|patch rest IH]; intros Hall i st; [done |].
  inversion Hall as [|? ? Hp Hrest]; subst. simpl.
  pose proof (patchStep_cb_other orig i patch st name (not_eq_sym Hp)) as Hs.
  destruct (patchStep X orig i patch st) as [st1| |]; try done.
  rewrite IH by done. done.
Qed.

(** What an iteration that goes on has done: the entry it added to the
    matching errors, the edits it registered, the notes it added. *)
Lemma patchStep_Continue (orig : string) (i : nat) (patch : PatchRequest)
    (st st' : LoopState) :
  patchStep X orig i patch st = Continue st' →
  entries_of (patchErr st') =
    entries_of (patchErr st) ++
    match matching_error X orig patch (cb st) with
    | Some e => [e]
    | None => []
    end
  ∧ (∃ es, q (buf st') = q (buf st) ++ es ∧ Forall well_formed es)
  ∧ old (buf st') = old (buf st)
  ∧ (∃ ns, clipboardsModified st' = clipboardsModified st ++ ns).
Proof.
  rewrite patchStep_spec. unfold matching_error.
  destruct (structural_error i patch (cb st)); [done |]. cbn zeta.
  destruct (resolve_newText patch _) as [newText|].
  2: { intros [= <-]. split_and!; try done.
       - case_bool_decide; by rewrite app_nil_r.
       - exists []. by rewrite app_nil_r.
       - exists []. by rewrite app_nil_r. }
  destruct (decide (Operation patch = "replace")) as [Hop|Hop].
  - rewrite bool_decide_eq_true_2 by done.
    destruct (ladder X orig (OldText patch) newText) as [[] s| |].
    2,3,4: intros (Hb & He & Hc)%applied_with_clipboard_Continue;
      rewrite Hb, He; simpl; rewrite app_nil_r; split_and!; try done;
      [ eexists; split; [done |]; repeat constructor; unfold well_formed;
        simpl; lia
      | destruct Hc as [(_ & _ & ->)|(_ & m & _ & _ & ->)];
        [exists []; by rewrite app_nil_r | eauto] ].
    1,2: intros [= <-]; simpl; rewrite !app_nil_r; split_and!; try done;
      [ eexists; split; [done |]; repeat constructor; unfold well_formed;
        simpl; lia
      | exists []; by rewrite app_nil_r ].
    1,2: intros [= <-]; simpl; rewrite entries_join; split_and!; try done;
      [ exists []; split; [by rewrite app_nil_r | constructor]
      | exists []; by rewrite app_nil_r ].
  - rewrite bool_decide_eq_false_2 by done. rewrite app_nil_r.
    repeat case_decide; intros [= <-]; simpl; split_and!; try done.
    all: try (eexists; split; [done |]; repeat constructor;
              unfold well_formed; simpl; lia).
    all: exists []; by rewrite app_nil_r.
Qed.

Lemma patchLoop_Continue (orig : string) (patches : list PatchRequest) :
  ∀ i st st',
  patchLoop X orig i patches st = Continue st' →
  entries_of (patchErr st') =
    entries_of (patchErr st) ++ map snd (failures X orig i patches st)
  ∧ (∃ es, q (buf st') = q (buf st) ++ es ∧ Forall well_formed es)
  ∧ old (buf st') = old (buf st)
  ∧ (∃ ns, clipboardsModified st' = clipboardsModified st ++ ns).
Proof.
  induction patches as [|patch rest IH]; intros i st st' Hloop; simpl in *.
  - injection Hloop as <-. rewrite app_nil_r. split_and!; try done.
    + exists []. by rewrite app_nil_r.
    + exists []. by rewrite app_nil_r.
  - destruct (patchStep X orig i patch st) as [st1| |] eqn:Hstep; try done.
    destruct (patchStep_Continue _ _ _ _ _ Hstep)
      as (He1 & (es1 & Hq1 & Hw1) & Ho1 & (ns1 & Hn1)).
    destruct (IH _ _ _ Hloop) as (He2 & (es2 & Hq2 & Hw2) & Ho2 & (ns2 & Hn2)).
    split_and!.
    + rewrite He2, He1, map_app, app_assoc. f_equal. f_equal.
      by destruct (matching_error X orig patch (cb st)).
    + exists (es1 ++ es2). rewrite Hq2, Hq1, app_assoc. split; [done |].
      by apply Forall_app.
    + congruence.
    + exists (ns1 ++ ns2). by rewrite Hn2, Hn1, app_assoc.
Qed.

End StepFacts.


(** * The batch *)

Section BatchFacts.

Import GoStrings editbuf patchkit.

Variable X : Externals.

Lemma occurrences_from_nil (base : nat) (needle : string) :
  occurrences_from base "" needle =
  if HasPrefix "" needle then [base] else [].
Proof. simpl. by rewrite app_nil_r. Qed.

Lemma occurrences_from_cons (base : nat) (c : ascii) (r needle : string) :
  occurrences_from base (String c r) needle =
  (if HasPrefix (String c r) needle then [base] else []) ++
  occurrences_from (S base) r needle.
Proof. reflexivity. Qed.

Lemma occurrences_from_prefix (haystack needle : string) :
  ∀ base off, off ∈ occurrences_from base haystack needle →
  ∃ k, off = base + k ∧ HasPrefix (drop k haystack) needle = true.
Proof.
  induction haystack as [|c r IH]; intros base off Hin.
  - rewrite occurrences_from_nil in Hin.
    destruct (HasPrefix "" needle) eqn:E; [| by inversion Hin].
    apply list_elem_of_singleton in Hin as ->. exists 0. split; [lia | done].
  - rewrite occurrences_from_cons in Hin.
    apply elem_of_app in Hin as [Hin|Hin].
    + destruct (HasPrefix (String c r) needle) eqn:E; [| by inversion Hin].
      apply list_elem_of_singleton in Hin as ->. exists 0. split; [lia | done].
    + destruct (IH _ _ Hin) as (k & -> & Hk). exists (S k). split; [lia | done].
Qed.

(** Where the old text occurs, the document holds the old text. *)
Lemma occurrences_slice (haystack needle : string) (off : nat) :
  needle ≠ "" → off ∈ occurrences haystack needle →
  slice haystack off (off + len needle) = Some needle
  ∧ take (len needle) (drop off haystack) = needle.
Proof.
  intros Hne Hin. apply occurrences_from_prefix in Hin as (k & -> & Hk).
  simpl. apply HasPrefix_split in Hk.
  assert (take (len needle) (drop k haystack) = needle) as Htake.
  { rewrite Hk. apply take_app_len. }
  split; [| done]. unfold slice.
  assert (k + len needle ≤ len haystack) as Hle.
  { pose proof (len_drop haystack k) as Hl. rewrite Hk, len_app in Hl.
    assert (0 < len needle) by (destruct needle; [done | unfold len; simpl; lia]).
    lia. }
  rewrite (proj2 (Nat.leb_le _ _)) by lia.
  rewrite (proj2 (Nat.leb_le _ _)) by lia. simpl.
  replace (k + len needle - k) with (len needle) by lia. by rewrite Htake.
Qed.

Lemma patchRun_snapshot (p : PatchTool) (os : OSReplies) (input : PatchInput)
    (orig : string) :
  Patches input ≠ [] → snapshot os (Patches input) = Some orig →
  patchRun X p os input =
  patchApply X p os (resolved_path X p input) (Patches input) orig.
Proof.
  intros Hne Hsnap. unfold patchRun, snapshot in *.
  destruct (Patches input) as [|patch rest]; [done |].
  destruct (onReadFile os); [by injection Hsnap as -> | | done].
  destruct (forallb creates (patch :: rest)); [by injection Hsnap as <- | done].
Qed.

Lemma first_match_not_ambiguous
    (tiers : list (Tier * (string → string → string → option Spec)))
    (document oldText newText : string) :
  first_match tiers document oldText newText ≠ Ambiguous.
Proof.
  induction tiers as [|[tier f] rest IH]; simpl; [done |].
  by destruct (f document oldText newText).
Qed.

(** [reindent] fails with the strip precondition only. *)
Lemma reindent_Err (text : string) (adj : Reindent) (e : error) :
  reindent text (Some adj) = Err e →
  ∃ line, e = ErrStripPrecondition line (Strip adj).
Proof.
  destruct adj as [strip add]. rewrite reindent_find. simpl.
  destruct (List.find _ _) as [line|]; [| done]. intros [= <-]. eauto.
Qed.

(** When the new text of a patch does not resolve. *)
Lemma resolve_newText_Err (patch : PatchRequest) (c : gmap string string) :
  (∃ e, resolve_newText patch c = Err e) ↔
  (FromClipboard patch ≠ "" ∧ c !! FromClipboard patch = None)
  ∨ (∃ adj text line,
       PReindent patch = Some adj ∧
       (if decide (FromClipboard patch = "") then text = NewText patch
        else c !! FromClipboard patch = Some text) ∧
       reindent text (Some adj)
       = Err (ErrStripPrecondition line (Strip adj))).
Proof.
  unfold resolve_newText.
  destruct (decide (FromClipboard patch = "")) as [Hfrom|Hfrom].
  - destruct (PReindent patch) as [adj|].
    + destruct (reindent (NewText patch) (Some adj)) as [out|e] eqn:Hr.
      * split; [by intros [? ?] |].
        intros [[? _]|(adj' & text & line & [= <-] & -> & Hr')]; [done |].
        congruence.
      * split; [| eauto]. intros _. right.
        apply reindent_Err in Hr as Hline. destruct Hline as [line ->].
        by exists adj, (NewText patch), line.
    + split; [by intros [? ?] |].
      by intros [[? _]|(adj' & text & line & ? & _)].
  - destruct (c !! FromClipboard patch) as [clip|].
    + destruct (PReindent patch) as [adj|].
      * destruct (reindent clip (Some adj)) as [out|e] eqn:Hr.
        -- split; [by intros [? ?] |].
           intros [[_ ?]|(adj' & text & line & [= <-] & [= <-] & Hr')];
             [done |]. congruence.
        -- split; [| eauto]. intros _. right.
           apply reindent_Err in Hr as Hline. destruct Hline as [line ->].
           by exists adj, clip, line.
      * split; [by intros [? ?] |].
        by intros [[_ ?]|(adj' & text & line & ? & _)].
    + split; [| eauto]. intros _. by left.
Qed.

Lemma creates_false (patch : PatchRequest) :
  creates patch = false ↔
  Operation patch ≠ "prepend_bof" ∧ Operation patch ≠ "append_eof" ∧
  Operation patch ≠ "overwrite".
Proof.
  unfold creates. rewrite !orb_false_iff, !bool_decide_eq_false. tauto.
Qed.

(** The structural errors, one by one. *)
Lemma structural_error_cases (i : nat) (patch : PatchRequest)
    (c : gmap string string) :
  is_Some (structural_error i patch c) ↔
  (ToClipboard patch ≠ "" ∧ Operation patch ≠ "replace")
  ∨ (ToClipboard patch ≠ "" ∧ OldText patch = "")
  ∨ (FromClipboard patch ≠ "" ∧
     captured patch c !! FromClipboard patch = None)
  ∨ (∃ adj text line,
       PReindent patch = Some adj ∧
       (if decide (FromClipboard patch = "") then text = NewText patch
        else captured patch c !! FromClipboard patch = Some text) ∧
       reindent text (Some adj)
       = Err (ErrStripPrecondition line (Strip adj)))
  ∨ (Operation patch = "replace" ∧ OldText patch = "")
  ∨ (Operation patch ≠ "replace" ∧ Operation patch ≠ "prepend_bof" ∧
     Operation patch ≠ "append_eof" ∧ Operation patch ≠ "overwrite").
Proof.
  pose proof (resolve_newText_Err patch (captured patch c)) as Hres.
  pose proof (creates_false patch) as Hcr.
  rewrite <- Hcr. clear Hcr.
  rewrite (or_assoc (FromClipboard patch ≠ "" ∧ _)) at 1.
  rewrite <- Hres. clear Hres.
  unfold structural_error.
  destruct (decide (ToClipboard patch = "")) as [Hto|Hto];
    destruct (decide (Operation patch = "replace")) as [Hop|Hop];
    destruct (decide (OldText patch = "")) as [Hold|Hold].
  all: rewrite ?(bool_decide_eq_true_2 (ToClipboard patch ≠ "")) by done.
  all: rewrite ?(bool_decide_eq_false_2 (ToClipboard patch ≠ ""))
         by (by intros ?).
  all: rewrite ?(bool_decide_eq_true_2 (Operation patch ≠ "replace")) by done.
  all: rewrite ?(bool_decide_eq_false_2 (Operation patch ≠ "replace"))
         by (by intros ?).
  all: rewrite ?(bool_decide_eq_true_2 (Operation patch = "replace")) by done.
  all: rewrite ?(bool_decide_eq_false_2 (Operation patch = "replace")) by done.
  all: rewrite ?(bool_decide_eq_true_2 (OldText patch = "")) by done.
  all: rewrite ?(bool_decide_eq_false_2 (OldText patch = "")) by done.
  all: simpl.
  all: destruct (resolve_newText patch (captured patch c)) as [t|e];
    try destruct (creates patch).
  all: split; [intros Hs | intros Hd].
  all: try (by apply is_Some_None in Hs).
  all: try (by eauto).
  all: try (right; right; left; by eauto).
  all: try (do 3 right; left; by eauto).
  all: try (do 4 right; by eauto).
  all: destruct Hd as [[? ?]|[[? ?]|[[? ?]|[[? ?]|[? ?]]]]]; done.
Qed.

(** A structural error is one error, not a join of errors. *)
Lemma structural_error_entries (i : nat) (patch : PatchRequest)
    (c : gmap string string) (e : error) :
  structural_error i patch c = Some e → entries e = [e].
Proof.
  unfold structural_error, resolve_newText.
  repeat (case_bool_decide || case_match || case_decide); simpl;
    intros; simplify_eq; done.
Qed.

End BatchFacts.

(** C10.  A batch with no operation is rejected with "no patches provided"
    before any call to the operating system: the file is not read, no
    directory is made, nothing is written, and the clipboards are as they
    were. *)
Theorem empty_batch_rejected (X : Externals) (p : PatchTool) (os : OSReplies)
    (input : PatchInput) :
  Patches input = [] →
  patchRun X p os input =
  Returned (ErrorToolOut ErrNoPatches) (clipboards p) [].
Proof. intros H. unfold patchRun. by rewrite H. Qed.

Lemma empty_batch_rejected_witness :
  patchRun Demo.X (Demo.tool ∅) (Demo.os_ok "abc")
    {| Path := "f.txt"; Patches := [] |}
  = Returned (ErrorToolOut ErrNoPatches) ∅ [].
Proof.
  exact (empty_batch_rejected Demo.X (Demo.tool ∅) (Demo.os_ok "abc")
           {| Path := "f.txt"; Patches := [] |} eq_refl).
Defined.

(** C1.  When every operation of a batch resolves and some replace
    operations fail to match (old text not found, or not unique), the
    batch is rejected with the joined matching errors; their entries are
    the errors of the failing operations, one each, in request order; the
    file is read and nothing else: no directory is made and nothing is
    written. *)
Theorem matching_errors_aggregated (X : Externals) (p : PatchTool)
    (os : OSReplies) (input : PatchInput) (orig : string) (st : LoopState) :
  onReadFile os = ReadOK orig →
  patchLoop X orig 0 (Patches input) (initial p orig) = Continue st →
  failures X orig 0 (Patches input) (initial p orig) ≠ [] →
  ∃ e,
    patchRun X p os input =
    Returned (ErrorToolOut (ErrPatchFailed e (clipboardsModified st)))
      (cb st) [EvReadFile (resolved_path X p input)]
    ∧ entries e = map snd (failures X orig 0 (Patches input) (initial p orig)).
Proof.
  intros Hread Hloop Hfail.
  assert (Patches input ≠ []) as Hne by (intros E; by rewrite E in Hfail).
  rewrite (patchRun_snapshot X p os input orig Hne)
    by (unfold snapshot; by rewrite Hread).
  unfold patchApply, patchFinish. rewrite Hloop.
  destruct (patchLoop_Continue X _ _ _ _ _ Hloop) as (He & _).
  simpl in He.
  destruct (patchErr st) as [e|].
  - exists e. done.
  - exfalso. simpl in He. apply Hfail.
    by destruct (failures X orig 0 (Patches input) (initial p orig)).
Qed.

(** Three replaces of which the second does not match: one entry, for the
    operation of index 1. *)
Lemma matching_errors_aggregated_witness :
  failures Demo.X "one two three" 0
    [Demo.op "replace" "one" "1"; Demo.op "replace" "four" "4";
     Demo.op "replace" "three" "3"] (initial (Demo.tool ∅) "one two three")
  = [(1, ErrNotFound "four")]
  ∧ ∃ e,
      patchRun Demo.X (Demo.tool ∅) (Demo.os_ok "one two three")
        {| Path := "f.txt";
           Patches := [Demo.op "replace" "one" "1";
                       Demo.op "replace" "four" "4";
                       Demo.op "replace" "three" "3"] |}
      = Returned (ErrorToolOut (ErrPatchFailed e [])) ∅
          [EvReadFile "/w/f.txt"]
      ∧ entries e = [ErrNotFound "four"].
Proof.
  split; [by vm_compute |].
  refine (matching_errors_aggregated Demo.X (Demo.tool ∅)
            (Demo.os_ok "one two three")
            {| Path := "f.txt";
               Patches := [Demo.op "replace" "one" "1";
                           Demo.op "replace" "four" "4";
                           Demo.op "replace" "three" "3"] |}
            "one two three"
            {| cb := ∅;
               buf := {| editbuf.old := "one two three";
                         editbuf.q := [ {| e_start := 0; e_end := 3; e_new := "1" |};
                                {| e_start := 8; e_end := 13; e_new := "3" |} ] |};
               patchErr := Some (ErrJoin [ErrNotFound "four"]);
               clipboardsModified := [] |}
            eq_refl _ _).
  - by vm_compute.
  - by vm_compute.
Defined.

(** C2.  The ladder of a replace (old text not empty) goes by the number
    of places the old text occurs at.  Exactly one: the span holds the old
    text, and the edit replacing that span by the new text is registered
    after the edits registered before; no error is recorded, no clipboard
    or note written.  Two or more: the operation is recorded as not unique
    after the errors recorded before, and the buffer is left as it was,
    whatever the recovery tiers would find.  None: the recovery tiers are
    asked in the order dedent, whitespace bounded by Go validity, token
    stream, first-line trim, each only when those before it found nothing;
    the edit of the first that finds a match is registered (and the matched
    text written back to the clipboard captured to, except after a
    first-line trim), and when none does the operation is recorded as not
    found. *)
Theorem ladder_order (X : Externals) (orig : string) (i : nat)
    (patch : PatchRequest) (newText : string) (st : LoopState) :
  OldText patch ≠ "" →
  let old := OldText patch in
  let occ := patchkit.occurrences orig old in
  let found := first_match (recovery_tiers X) orig old newText in
  let step := replace_case X orig i patch newText st in
  (∀ off, occ = [off] →
     GoStrings.slice orig off (off + GoStrings.len old) = Some old
     ∧ ∃ st', step = Continue st'
         ∧ registered {| e_start := off; e_end := off + GoStrings.len old;
                         e_new := newText |} st st'
         ∧ quiet st st')
  ∧ (2 ≤ length occ →
     ∃ st', step = Continue st' ∧ recorded (ErrNotUnique old) st st')
  ∧ (occ = [] →
     match found with
     | Found tier spec =>
         let e := {| e_start := patchkit.Off spec;
                     e_end := patchkit.Off spec + patchkit.Len spec;
                     e_new := patchkit.New spec |} in
         if recaptures tier patch then
           match GoStrings.slice orig (patchkit.Off spec)
                   (patchkit.Off spec + patchkit.Len spec) with
           | Some matched =>
               ∃ st', step = Continue st' ∧ registered e st st'
                      ∧ recaptured (ToClipboard patch) matched st st'
           | None => step = Panic (cb st)
           end
         else ∃ st', step = Continue st' ∧ registered e st st' ∧ quiet st st'
     | NotFound =>
         ∃ st', step = Continue st' ∧ recorded (ErrNotFound old) st st'
     | Ambiguous => False
     end)
  ∧ (∀ tier spec, found = Found tier spec ↔
       (tier = DedentUnique ∧ UniqueDedent X orig old newText = Some spec) ∨
       (tier = ValidGoWhitespace ∧ UniqueDedent X orig old newText = None ∧
        UniqueInValidGo X orig old newText = Some spec) ∨
       (tier = TokenStream ∧ UniqueDedent X orig old newText = None ∧
        UniqueInValidGo X orig old newText = None ∧
        UniqueGoTokens X orig old newText = Some spec) ∨
       (tier = FirstLineTrim ∧ UniqueDedent X orig old newText = None ∧
        UniqueInValidGo X orig old newText = None ∧
        UniqueGoTokens X orig old newText = None ∧
        UniqueTrim X orig old newText = Some spec))
  ∧ (found = NotFound ↔
       UniqueDedent X orig old newText = None ∧
       UniqueInValidGo X orig old newText = None ∧
       UniqueGoTokens X orig old newText = None ∧
       UniqueTrim X orig old newText = None).
Proof.
  intros Hold. cbv zeta.
  pose proof (replace_case_ladder X orig i patch newText st Hold) as Hcase.
  unfold ladder in Hcase.
  split_and!.
  - intros off Hocc. rewrite Hocc in Hcase. split.
    { apply occurrences_slice; [done |]. rewrite Hocc. left. }
    eexists. split; [exact Hcase |]. by destruct st.
  - intros Hlen.
    destruct (patchkit.occurrences orig (OldText patch)) as [|o [|o' l]];
      simpl in Hlen; [lia | lia |].
    eexists. split; [exact Hcase |].
    unfold recorded, join_patchErr, errors_Join. simpl.
    by destruct (patchErr st).
  - intros Hocc. rewrite Hocc in Hcase. rewrite Hcase.
    pose proof (first_match_not_ambiguous (recovery_tiers X) orig
                  (OldText patch) newText) as Hna.
    destruct (first_match _ _ _ _) as [tier spec| |]; [| done |].
    + unfold recaptures, applied_with_clipboard, updateToClipboard.
      destruct tier; simpl.
      1,5: eexists; split; [reflexivity |]; by destruct st.
      all: destruct (decide (ToClipboard patch = "")) as [Hto|Hto];
        [ rewrite (bool_decide_eq_true_2 _ Hto); simpl;
          eexists; split; [reflexivity |]; by destruct st
        | rewrite (bool_decide_eq_false_2 _ Hto); simpl;
          destruct (GoStrings.slice orig _ _); [| done];
          eexists; split; [reflexivity |]; by destruct st ].
    + eexists. split; [reflexivity |].
      unfold recorded, join_patchErr, errors_Join. simpl.
      by destruct (patchErr st).
  - intros tier spec. unfold recovery_tiers. simpl.
    destruct (UniqueDedent X orig _ newText);
      destruct (UniqueInValidGo X orig _ newText);
      destruct (UniqueGoTokens X orig _ newText);
      destruct (UniqueTrim X orig _ newText); naive_solver.
  - unfold recovery_tiers. simpl.
    destruct (UniqueDedent X orig _ newText);
      destruct (UniqueInValidGo X orig _ newText);
      destruct (UniqueGoTokens X orig _ newText);
      destruct (UniqueTrim X orig _ newText); naive_solver.
Qed.

(** In "one two one" the text "two" occurs once: the edit of the span from
    4 to 7, which holds "two", is the one edit registered and no error is
    recorded. *)
Lemma ladder_order_witness :
  GoStrings.slice "one two one" 4 (4 + GoStrings.len "two") = Some "two"
  ∧ ∃ st',
      replace_case Demo.X "one two one" 0 (Demo.op "replace" "two" "2") "2"
        (initial (Demo.tool ∅) "one two one") = Continue st'
      ∧ registered {| e_start := 4; e_end := 4 + GoStrings.len "two";
                      e_new := "2" |}
          (initial (Demo.tool ∅) "one two one") st'
      ∧ quiet (initial (Demo.tool ∅) "one two one") st'.
Proof.
  refine (proj1 (ladder_order Demo.X "one two one" 0
                   (Demo.op "replace" "two" "2") "2"
                   (initial (Demo.tool ∅) "one two one") _) 4 eq_refl).
  discriminate.
Defined.

(** C3.  A batch on a file that does not exist, with an operation other
    than prepend_bof, append_eof and overwrite, is rejected with the one
    error that the file does not exist, the clipboards untouched.
    Otherwise the first operation with a structural error ends the batch
    there: the output is that one error, whatever matching errors were
    recorded before and whatever operations follow; the clipboards are
    those the operations before it left, with at most its own capture; the
    file is read and nothing else.  The structural errors of an operation
    are: toClipboard on an operation that is not a replace, toClipboard
    with an empty old text, fromClipboard naming no clipboard, a line of
    the text to reindent without the prefix to strip, a replace with an
    empty old text, an operation of no known kind. *)
Theorem structural_error_aborts (X : Externals) (p : PatchTool)
    (os : OSReplies) (input : PatchInput) :
  let path := resolved_path X p input in
  (onReadFile os = ReadNotExist → Patches input ≠ [] →
   forallb creates (Patches input) = false →
   patchRun X p os input =
   Returned (ErrorToolOut (ErrFileNotExist path)) (clipboards p)
     [EvReadFile path])
  ∧ (∀ orig pre patch post st e,
       snapshot os (Patches input) = Some orig →
       Patches input = pre ++ patch :: post →
       patchLoop X orig 0 pre (initial p orig) = Continue st →
       structural_error (length pre) patch (cb st) = Some e →
       entries e = [e]
       ∧ ∃ c, patchRun X p os input =
              Returned (ErrorToolOut e) c [EvReadFile path]
              ∧ (c = cb st ∨ c = captured patch (cb st)))
  ∧ (∀ i patch c,
       is_Some (structural_error i patch c) ↔
       (ToClipboard patch ≠ "" ∧ Operation patch ≠ "replace")
       ∨ (ToClipboard patch ≠ "" ∧ OldText patch = "")
       ∨ (FromClipboard patch ≠ "" ∧
          captured patch c !! FromClipboard patch = None)
       ∨ (∃ adj text line,
            PReindent patch = Some adj ∧
            (if decide (FromClipboard patch = "") then text = NewText patch
             else captured patch c !! FromClipboard patch = Some text) ∧
            reindent text (Some adj)
            = Err (ErrStripPrecondition line (Strip adj)))
       ∨ (Operation patch = "replace" ∧ OldText patch = "")
       ∨ (Operation patch ≠ "replace" ∧ Operation patch ≠ "prepend_bof" ∧
          Operation patch ≠ "append_eof" ∧ Operation patch ≠ "overwrite")).
Proof.
  intros path. split_and!.
  - intros Hread Hne Hcreates. unfold patchRun.
    destruct (Patches input); [done |]. by rewrite Hread, Hcreates.
  - intros orig pre patch post st e Hsnap Hbatch Hpre Hstruct.
    split; [by eapply structural_error_entries |].
    assert (Patches input ≠ []) as Hne by (rewrite Hbatch; by destruct pre).
    rewrite (patchRun_snapshot X p os input orig Hne Hsnap).
    unfold patchApply. rewrite Hbatch, patchLoop_app, Hpre. simpl.
    rewrite patchStep_spec, Hstruct. simpl.
    eexists. split; [done |]. destruct (_ && _); auto.
  - intros i patch c. apply structural_error_cases.
Qed.

(** A replace on a file that does not exist; and, on a file that exists,
    a second operation naming a clipboard that does not exist: the batch
    ends with that error, although the first operation did not match. *)
Lemma structural_error_aborts_witness :
  patchRun Demo.X (Demo.tool ∅) Demo.os_missing
    {| Path := "f.txt";
       Patches := [Demo.op "prepend_bof" "" "0";
                   Demo.op "replace" "one" "1"] |}
  = Returned (ErrorToolOut (ErrFileNotExist "/w/f.txt")) ∅
      [EvReadFile "/w/f.txt"]
  ∧ ∃ c, patchRun Demo.X (Demo.tool ∅) (Demo.os_ok "one two three")
           {| Path := "f.txt";
              Patches := [Demo.op "replace" "four" "4";
                          Demo.op_from "append_eof" "" "c9";
                          Demo.op "replace" "three" "3"] |}
         = Returned (ErrorToolOut (ErrFromClipboardMissing "c9")) c
             [EvReadFile "/w/f.txt"]
         ∧ (c = ∅ ∨ c = captured (Demo.op_from "append_eof" "" "c9") ∅).
Proof.
  split.
  - refine (proj1 (structural_error_aborts Demo.X (Demo.tool ∅)
                     Demo.os_missing
                     {| Path := "f.txt";
                        Patches := [Demo.op "prepend_bof" "" "0";
                                    Demo.op "replace" "one" "1"] |})
              eq_refl _ eq_refl).
    discriminate.
  - refine (proj2 (proj1 (proj2 (structural_error_aborts Demo.X (Demo.tool ∅)
                     (Demo.os_ok "one two three")
                     {| Path := "f.txt";
                        Patches := [Demo.op "replace" "four" "4";
                                    Demo.op_from "append_eof" "" "c9";
                                    Demo.op "replace" "three" "3"] |}))
              "one two three" [Demo.op "replace" "four" "4"]
              (Demo.op_from "append_eof" "" "c9")
              [Demo.op "replace" "three" "3"]
              {| cb := ∅;
                 buf := editbuf.NewBuffer "one two three";
                 patchErr := Some (ErrJoin [ErrNotFound "four"]);
                 clipboardsModified := [] |}
              (ErrFromClipboardMissing "c9") eq_refl eq_refl _ _)).
    + by vm_compute.
    + by vm_compute.
Defined.

Section FinishFacts.

Import GoStrings editbuf patchkit.

Variable X : Externals.

(** What [patchRun] returns after the loop: the clipboards are those the
    loop left, and an error other than a failed write comes with no
    write. *)
Lemma patchFinish_Returned (os : OSReplies) (path orig : string)
    (autogenerated : bool) (flow : Flow) (out : ToolOut)
    (c : gmap string string) (tr : list Event) :
  patchFinish X os path orig autogenerated flow = Returned out c tr →
  c = flow_cb flow ∧ (∀ c', flow ≠ Panic c')
  ∧ (rejected out → onWriteFile os = None → no_write tr).
Proof.
  unfold patchFinish, no_write.
  destruct flow as [st|o c'|c']; [| by intros [= <- <- <-] | done].
  destruct (patchErr st); [by intros [= <- <- <-] |].
  destruct (Bytes (buf st)); [| by intros [= <- <- <-]].
  destruct (onMkdirAll os); [by intros [= <- <- <-] |].
  destruct (onWriteFile os); intros [= <- <- <-]; simpl; done.
Qed.

Lemma structural_error_notes (i : nat) (patch : PatchRequest)
    (c : gmap string string) (e : error) :
  structural_error i patch c = Some e → notes_of (ErrorToolOut e) = None.
Proof.
  unfold structural_error, resolve_newText.
  repeat (case_bool_decide || case_match || case_decide); simpl;
    intros; simplify_eq; done.
Qed.

(** A loop that returns returns a structural error, which carries no
    clipboard note. *)
Lemma patchLoop_Return (orig : string) (patches : list PatchRequest) :
  ∀ i st out c,
  patchLoop X orig i patches st = Return out c → notes_of out = None.
Proof.
  induction patches as [|patch rest IH]; intros i st out c; simpl; [done |].
  destruct (patchStep X orig i patch st) as [st1|o c1|c1] eqn:Hstep.
  - apply IH.
  - intros [= <- <-]. rewrite patchStep_spec in Hstep.
    destruct (structural_error i patch (cb st)) as [e|] eqn:Hs.
    + injection Hstep as <- _. by eapply structural_error_notes.
    + cbn zeta in Hstep.
      destruct (resolve_newText patch _); [| done].
      destruct (decide (Operation patch = "replace")).
      * destruct (ladder X orig (OldText patch) a) as [[] s| |]; try done;
          unfold applied_with_clipboard in Hstep;
          by destruct (updateToClipboard _ _ _ _).
      * by repeat case_decide.
  - done.
Qed.

Lemma Bytes_Err (b : Buffer) (e : error) :
  Bytes b = Err e → ∃ x y, e = ErrOverlap x y.
Proof.
  intros (x & y & -> & _)%Bytes_Err_conflict. eauto.
Qed.

(** The notes of an output are the notes the loop ended with. *)
Lemma patchFinish_notes (os : OSReplies) (path orig : string)
    (autogenerated : bool) (flow : Flow) (out : ToolOut)
    (c : gmap string string) (tr : list Event) (notes : list Note) :
  (∀ o c', flow = Return o c' → notes_of o = None) →
  patchFinish X os path orig autogenerated flow = Returned out c tr →
  notes_of out = Some notes →
  ∃ st, flow = Continue st ∧ notes = clipboardsModified st.
Proof.
  intros Hret. unfold patchFinish.
  destruct flow as [st|o c'|c']; [| | done].
  2: { intros [= <- <- <-]. by rewrite (Hret o c'). }
  destruct (patchErr st).
  { intros [= <- <- <-] [= <-]. eauto. }
  destruct (Bytes (buf st)) as [patched|e] eqn:Hb.
  2: { intros [= <- <- <-]. apply Bytes_Err in Hb as (x & y & ->). done. }
  destruct (onMkdirAll os); [by intros [= <- <- <-] |].
  destruct (onWriteFile os); intros [= <- <- <-]; [done |].
  intros [= <-]. eauto.
Qed.

(** The iteration of a replace that captures into [name]: unless it
    panics, the clipboard holds the old text, or the text a tier 2 to 4
    matched. *)
Lemma patchStep_capture (orig : string) (i : nat) (patch : PatchRequest)
    (st : LoopState) :
  ToClipboard patch ≠ "" → Operation patch = "replace" →
  OldText patch ≠ "" →
  let f := patchStep X orig i patch st in
  (∃ c, f = Panic c)
  ∨ flow_cb f !! ToClipboard patch = Some (OldText patch)
  ∨ ∃ tier spec newText m,
      tier ∈ [DedentUnique; ValidGoWhitespace; TokenStream] ∧
      ladder X orig (OldText patch) newText = Found tier spec ∧
      slice orig (Off spec) (Off spec + Len spec) = Some m ∧
      flow_cb f !! ToClipboard patch = Some m.
Proof.
  intros Hto Hop Hold. cbv zeta. rewrite patchStep_spec.
  assert (captured patch (cb st) !! ToClipboard patch = Some (OldText patch))
    as Hcap.
  { unfold captured. rewrite decide_False by done. apply lookup_insert_eq. }
  destruct (structural_error i patch (cb st)) eqn:Hs.
  { right. left. simpl.
    rewrite (bool_decide_eq_false_2 (Operation patch ≠ "replace"))
      by naive_solver.
    rewrite (bool_decide_eq_false_2 (OldText patch = "")) by done.
    by rewrite andb_false_r. }
  cbn zeta. destruct (resolve_newText patch _) as [newText|] eqn:Hres.
  2: { exfalso. unfold structural_error in Hs.
       rewrite (bool_decide_eq_false_2 (Operation patch ≠ "replace")) in Hs
         by naive_solver.
       rewrite (bool_decide_eq_false_2 (OldText patch = "")) in Hs by done.
       rewrite !andb_false_r, Hres in Hs. done. }
  rewrite decide_True by done.
  destruct (ladder X orig (OldText patch) newText) as [[] s| |] eqn:Hl;
    try (right; left; exact Hcap).
  all: destruct (applied_with_clipboard orig patch s _) as [st2|o c2|c2] eqn:Ha;
    [ | unfold applied_with_clipboard in Ha;
        by destruct (updateToClipboard _ _ _ _)
      | left; eauto ].
  all: apply applied_with_clipboard_Continue in Ha
      as (_ & _ & [(? & _)|(_ & m & Hm & Hc & _)]); [done |].
  all: right; right;
    match type of Hl with _ = Found ?t _ => exists t, s, newText, m end.
  all: simpl; rewrite Hc, lookup_insert_eq; split_and!; try done.
  all: set_solver.
Qed.

(** The operations after a capture into [name] that do not capture into
    it leave that clipboard as the capturing iteration left it. *)
Lemma patchLoop_after_capture (orig : string) (i : nat)
    (patch : PatchRequest) (post : list PatchRequest) (st : LoopState)
    (name : string) :
  Forall (λ later, ToClipboard later ≠ name) post →
  flow_cb (patchLoop X orig i (patch :: post) st) !! name
  = flow_cb (patchStep X orig i patch st) !! name.
Proof.
  intros Hpost. simpl.
  destruct (patchStep X orig i patch st) as [st1| |]; [| done | done].
  by rewrite patchLoop_cb_other.
Qed.

(** A replace with its old text and a resolved new text has no structural
    error. *)
Lemma structural_error_replace (i : nat) (patch : PatchRequest)
    (c : gmap string string) (newText : string) :
  Operation patch = "replace" → OldText patch ≠ "" →
  resolve_newText patch (captured patch c) = Ok newText →
  structural_error i patch c = None.
Proof.
  intros Hop Hold Hres. unfold structural_error.
  rewrite (bool_decide_eq_false_2 (Operation patch ≠ "replace"))
    by naive_solver.
  rewrite (bool_decide_eq_false_2 (OldText patch = "")) by done.
  rewrite !andb_false_r, Hres.
  by rewrite (bool_decide_eq_true_2 (Operation patch = "replace")).
Qed.

(** The iteration of a replace for which the ladder found a match. *)
Lemma patchStep_found (orig : string) (i : nat) (patch : PatchRequest)
    (st : LoopState) (newText : string) (tier : Tier) (spec : Spec) :
  Operation patch = "replace" → OldText patch ≠ "" →
  resolve_newText patch (captured patch (cb st)) = Ok newText →
  ladder X orig (OldText patch) newText = Found tier spec →
  patchStep X orig i patch st =
  match tier with
  | ExactUnique | FirstLineTrim =>
      Continue (set_buf (set_cb st (captured patch (cb st)))
                  (ApplyToEditBuf spec (buf st)))
  | _ =>
      applied_with_clipboard orig patch spec
        (set_cb st (captured patch (cb st)))
  end.
Proof.
  intros Hop Hold Hres Hl. rewrite patchStep_spec.
  rewrite (structural_error_replace i patch (cb st) newText) by done.
  cbn zeta. rewrite Hres, decide_True, Hl by done. by destruct tier.
Qed.

Lemma apply_writes_app (c : gmap string string)
    (ws ws' : list (string * string)) :
  apply_writes c (ws ++ ws') = apply_writes (apply_writes c ws) ws'.
Proof. apply foldl_app. Qed.

(** The clipboards an iteration leaves are those it found, with its writes
    on top. *)
Lemma patchStep_writes (orig : string) (i : nat) (patch : PatchRequest)
    (st : LoopState) :
  flow_cb (patchStep X orig i patch st)
  = apply_writes (cb st) (step_writes X orig patch (cb st)).
Proof.
  rewrite patchStep_spec. unfold step_writes.
  destruct (decide (ToClipboard patch = "")) as [Hto|Hto].
  { rewrite (bool_decide_eq_false_2 (ToClipboard patch ≠ ""))
      by (by intros ?).
    simpl. assert (captured patch (cb st) = cb st) as Hcap
      by (unfold captured; by rewrite decide_True).
    rewrite Hcap.
    destruct (structural_error i patch (cb st)); [done |]. cbn zeta.
    destruct (resolve_newText patch (cb st)) as [newText|]; [| done].
    destruct (decide (Operation patch = "replace")).
    - destruct (ladder X orig (OldText patch) newText) as [[] s| |];
        try done; unfold applied_with_clipboard, updateToClipboard;
        by rewrite decide_True.
    - by repeat case_decide. }
  rewrite (bool_decide_eq_true_2 (ToClipboard patch ≠ "")) by done.
  destruct (decide (Operation patch = "replace")) as [Hop|Hop].
  2: { rewrite (bool_decide_eq_false_2 (Operation patch = "replace")) by done.
       unfold structural_error.
       rewrite (bool_decide_eq_true_2 (ToClipboard patch ≠ "")) by done.
       by rewrite (bool_decide_eq_true_2 (Operation patch ≠ "replace")). }
  rewrite (bool_decide_eq_true_2 (Operation patch = "replace")) by done.
  rewrite (bool_decide_eq_false_2 (Operation patch ≠ "replace"))
    by (by intros ?).
  destruct (decide (OldText patch = "")) as [Hold|Hold].
  { rewrite (bool_decide_eq_false_2 (OldText patch ≠ "")) by (by intros ?).
    unfold structural_error.
    rewrite (bool_decide_eq_true_2 (ToClipboard patch ≠ "")) by done.
    rewrite (bool_decide_eq_false_2 (Operation patch ≠ "replace"))
      by (by intros ?).
    by rewrite (bool_decide_eq_true_2 (OldText patch = "")). }
  rewrite (bool_decide_eq_true_2 (OldText patch ≠ "")) by done.
  rewrite (bool_decide_eq_false_2 (OldText patch = "")) by done.
  assert (captured patch (cb st)
          = <[ToClipboard patch := OldText patch]> (cb st)) as Hcap
    by (unfold captured; by rewrite decide_False).
  simpl.
  destruct (structural_error i patch (cb st)) as [e|] eqn:Hs.
  { simpl. unfold structural_error in Hs.
    rewrite (bool_decide_eq_false_2 (Operation patch ≠ "replace")) in Hs
      by (by intros ?).
    rewrite (bool_decide_eq_false_2 (OldText patch = "")) in Hs by done.
    rewrite !andb_false_r in Hs.
    destruct (resolve_newText patch (captured patch (cb st))); [| done].
    rewrite (bool_decide_eq_true_2 (Operation patch = "replace")) in Hs
      by done.
    done. }
  cbn zeta.
  destruct (resolve_newText patch (captured patch (cb st))) as [newText|]
    eqn:Hres.
  2: { exfalso. unfold structural_error in Hs.
       rewrite (bool_decide_eq_false_2 (Operation patch ≠ "replace")) in Hs
         by (by intros ?).
       rewrite (bool_decide_eq_false_2 (OldText patch = "")) in Hs by done.
       rewrite !andb_false_r, Hres in Hs. done. }
  destruct (ladder X orig (OldText patch) newText) as [[] s| |];
    try (simpl; by rewrite Hcap).
  all: unfold applied_with_clipboard, updateToClipboard;
    rewrite decide_False by done; simpl;
    destruct (slice orig _ _); simpl; by rewrite Hcap.
Qed.

Lemma patchLoop_writes (orig : string) (patches : list PatchRequest) :
  ∀ i st,
  flow_cb (patchLoop X orig i patches st)
  = apply_writes (cb st) (writes X orig i patches st).
Proof.
  induction patches as [|patch rest IH]; intros i st; [done |].
  simpl. rewrite apply_writes_app, <- (patchStep_writes orig i patch st).
  destruct (patchStep X orig i patch st) as [st1| |]; simpl; [| done | done].
  apply IH.
Qed.

Lemma patchLoop_cons_Panic (orig : string) (i : nat)
    (patch : PatchRequest) (post : list PatchRequest) (st : LoopState)
    (c : gmap string string) :
  patchStep X orig i patch st = Panic c →
  patchLoop X orig i (patch :: post) st = Panic c.
Proof. intros H. simpl. by rewrite H. Qed.

End FinishFacts.

Section RejectionFacts.

Variable X : Externals.

(** A capture survives the rest of the batch when no later operation
    captures into the same clipboard. *)
Lemma capture_survives (p : PatchTool) (os : OSReplies) (input : PatchInput)
    (orig : string) (pre : list PatchRequest) (patch : PatchRequest)
    (post : list PatchRequest) (st : LoopState) (out : ToolOut)
    (c : gmap string string) (tr : list Event) :
  snapshot os (Patches input) = Some orig →
  Patches input = pre ++ patch :: post →
  patchLoop X orig 0 pre (initial p orig) = Continue st →
  ToClipboard patch ≠ "" → Operation patch = "replace" →
  OldText patch ≠ "" →
  Forall (λ later, ToClipboard later ≠ ToClipboard patch) post →
  patchRun X p os input = Returned out c tr →
  c !! ToClipboard patch = Some (OldText patch)
  ∨ ∃ tier spec newText m,
      tier ∈ [DedentUnique; ValidGoWhitespace; TokenStream] ∧
      ladder X orig (OldText patch) newText = Found tier spec ∧
      GoStrings.slice orig (patchkit.Off spec)
        (patchkit.Off spec + patchkit.Len spec) = Some m ∧
      c !! ToClipboard patch = Some m.
Proof.
  intros Hsnap Hbatch Hpre Hto Hop Hold Hpost Hrun.
  assert (Patches input ≠ []) as Hne by (rewrite Hbatch; by destruct pre).
  rewrite (patchRun_snapshot X p os input orig Hne Hsnap) in Hrun.
  unfold patchApply in Hrun.
  apply patchFinish_Returned in Hrun as (-> & Hnp & _).
  rewrite Hbatch, patchLoop_app, Hpre in Hnp |- *. simpl plus in *.
  rewrite patchLoop_after_capture by done.
  destruct (patchStep_capture X orig (length pre) patch st Hto Hop Hold)
    as [[c' Hp]|[H|H]]; [| by left | by right].
  exfalso. eapply Hnp. by apply patchLoop_cons_Panic.
Qed.

(** A batch with no snapshot of the document ends before the loop. *)
Lemma patchRun_no_snapshot (p : PatchTool) (os : OSReplies)
    (input : PatchInput) (out : ToolOut) (c : gmap string string)
    (tr : list Event) :
  snapshot os (Patches input) = None →
  patchRun X p os input = Returned out c tr →
  c = clipboards p ∧ no_write tr.
Proof.
  unfold snapshot, patchRun, no_write.
  destruct (Patches input) as [|patch rest].
  { intros _ [= <- <- <-]. done. }
  destruct (onReadFile os); [done | |].
  - destruct (forallb creates (patch :: rest)); [done |].
    intros _ [= <- <- <-]. done.
  - intros _ [= <- <- <-]. done.
Qed.

End RejectionFacts.

(** C9.  A batch that ends in rejection leaves in the tool the clipboards
    it started with and, on top of them, every clipboard write made up to
    the point of failure, in order: for each replace with a capture name
    the old text before the match, and the matched text after a match by a
    tier 2 to 4.  Unless the rejection is a failed write, the file was not
    written.  So a captured clipboard that no later operation of the batch
    captures into again holds the old text, or the matched text, when the
    next batch starts. *)
Theorem rejection_keeps_clipboards (X : Externals) (p : PatchTool)
    (os : OSReplies) (input : PatchInput) (out : ToolOut)
    (c : gmap string string) (tr : list Event) :
  patchRun X p os input = Returned out c tr → rejected out →
  c = match snapshot os (Patches input) with
      | Some orig =>
          apply_writes (clipboards p)
            (writes X orig 0 (Patches input) (initial p orig))
      | None => clipboards p
      end
  ∧ (onWriteFile os = None → no_write tr)
  ∧ ∀ orig pre patch post st,
      snapshot os (Patches input) = Some orig →
      Patches input = pre ++ patch :: post →
      patchLoop X orig 0 pre (initial p orig) = Continue st →
      ToClipboard patch ≠ "" → Operation patch = "replace" →
      OldText patch ≠ "" →
      Forall (λ later, ToClipboard later ≠ ToClipboard patch) post →
      c !! ToClipboard patch = Some (OldText patch)
      ∨ ∃ tier spec newText m,
          tier ∈ [DedentUnique; ValidGoWhitespace; TokenStream] ∧
          ladder X orig (OldText patch) newText = Found tier spec ∧
          GoStrings.slice orig (patchkit.Off spec)
            (patchkit.Off spec + patchkit.Len spec) = Some m ∧
          c !! ToClipboard patch = Some m.
Proof.
  intros Hrun Hrej. split_and!.
  - destruct (snapshot os (Patches input)) as [orig|] eqn:Hsnap.
    + destruct (Patches input) as [|patch rest] eqn:Hp.
      { unfold patchRun in Hrun. rewrite Hp in Hrun.
        by injection Hrun as <- <- <-. }
      rewrite (patchRun_snapshot X p os input orig) in Hrun
        by (by rewrite Hp).
      unfold patchApply in Hrun.
      apply patchFinish_Returned in Hrun as (-> & _).
      rewrite Hp. by rewrite patchLoop_writes.
    + by eapply patchRun_no_snapshot.
  - destruct (snapshot os (Patches input)) as [orig|] eqn:Hsnap.
    + destruct (Patches input) as [|patch rest] eqn:Hp.
      { unfold patchRun in Hrun. rewrite Hp in Hrun.
        by injection Hrun as <- <- <-. }
      rewrite (patchRun_snapshot X p os input orig) in Hrun
        by (by rewrite Hp).
      unfold patchApply in Hrun.
      apply patchFinish_Returned in Hrun as (_ & _ & Hw). auto.
    + intros _. by eapply patchRun_no_snapshot.
  - intros orig pre patch post st Hsnap Hbatch Hpre Hto Hop Hold Hpost.
    by eapply capture_survives.
Qed.

(** The first replace captures "one" into c1, the second does not match:
    the batch is rejected, and c1 holds "one". *)
Lemma rejection_keeps_clipboards_witness :
  writes Demo.X "one two three" 0
    [Demo.op_to "replace" "one" "1" "c1"; Demo.op "replace" "four" "4"]
    (initial (Demo.tool ∅) "one two three")
  = [("c1", "one")]
  ∧ ({["c1" := "one"]} : gmap string string)
    = apply_writes ∅
        (writes Demo.X "one two three" 0
           [Demo.op_to "replace" "one" "1" "c1"; Demo.op "replace" "four" "4"]
           (initial (Demo.tool ∅) "one two three"))
  ∧ (onWriteFile (Demo.os_ok "one two three") = None →
     no_write [EvReadFile "/w/f.txt"]).
Proof.
  split; [by vm_compute |].
  pose proof (rejection_keeps_clipboards Demo.X (Demo.tool ∅)
                (Demo.os_ok "one two three")
                {| Path := "f.txt";
                   Patches := [Demo.op_to "replace" "one" "1" "c1";
                               Demo.op "replace" "four" "4"] |}
                (ErrorToolOut
                   (ErrPatchFailed (ErrJoin [ErrNotFound "four"]) []))
                {["c1" := "one"]} [EvReadFile "/w/f.txt"]) as H.
  refine (let H' := H _ I in conj (proj1 H') (proj1 (proj2 H'))).
  by vm_compute.
Defined.

(** C5, as amended.  A replace that captures into a clipboard and is
    matched by a tier 2 to 4 leaves in that clipboard the bytes of the
    document at the matched span, and adds a note naming the clipboard and
    those bytes; the note is in the output of the batch whenever that output
    carries notes, that is when the batch is committed or rejected for
    matching errors.  Matched by tier 1 or by tier 5, the clipboard keeps
    the old text as captured before the match, and no note is added. *)
Theorem clipboard_recapture (X : Externals) (p : PatchTool) (os : OSReplies)
    (input : PatchInput) (orig : string) (pre : list PatchRequest)
    (patch : PatchRequest) (post : list PatchRequest) (st : LoopState)
    (newText : string) (tier : Tier) (spec : patchkit.Spec) :
  snapshot os (Patches input) = Some orig →
  Patches input = pre ++ patch :: post →
  patchLoop X orig 0 pre (initial p orig) = Continue st →
  ToClipboard patch ≠ "" → Operation patch = "replace" →
  OldText patch ≠ "" →
  resolve_newText patch (captured patch (cb st)) = Ok newText →
  ladder X orig (OldText patch) newText = Found tier spec →
  let name := ToClipboard patch in
  match tier with
  | ExactUnique | FirstLineTrim =>
      ∃ st', patchStep X orig (length pre) patch st = Continue st'
             ∧ cb st' = <[name := OldText patch]> (cb st)
             ∧ clipboardsModified st' = clipboardsModified st
  | _ =>
      ∀ m, GoStrings.slice orig (patchkit.Off spec)
             (patchkit.Off spec + patchkit.Len spec) = Some m →
      ∃ st', patchStep X orig (length pre) patch st = Continue st'
             ∧ cb st' = <[name := m]> (cb st)
             ∧ clipboardsModified st' =
                 clipboardsModified st ++
                 [ {| note_name := name; note_new_contents := m |} ]
             ∧ ∀ out c tr notes,
                 patchRun X p os input = Returned out c tr →
                 notes_of out = Some notes →
                 {| note_name := name; note_new_contents := m |} ∈ notes
  end.
Proof.
  intros Hsnap Hbatch Hpre Hto Hop Hold Hres Hl name.
  pose proof (patchStep_found X orig (length pre) patch st newText tier spec
                Hop Hold Hres Hl) as Hstep.
  assert (captured patch (cb st) = <[name := OldText patch]> (cb st)) as Hcap.
  { unfold captured. by rewrite decide_False. }
  assert (∀ m st',
    GoStrings.slice orig (patchkit.Off spec)
      (patchkit.Off spec + patchkit.Len spec) = Some m →
    patchStep X orig (length pre) patch st = Continue st' →
    clipboardsModified st' =
      clipboardsModified st ++
      [ {| note_name := name; note_new_contents := m |} ] →
    ∀ out c tr notes,
      patchRun X p os input = Returned out c tr →
      notes_of out = Some notes →
      {| note_name := name; note_new_contents := m |} ∈ notes) as Hbatchnotes.
  { intros m st' Hm Hst' Hnotes out c tr notes Hrun Hout.
    assert (Patches input ≠ []) as Hne by (rewrite Hbatch; by destruct pre).
    rewrite (patchRun_snapshot X p os input orig Hne Hsnap) in Hrun.
    unfold patchApply in Hrun.
    eapply patchFinish_notes in Hrun as (stf & Hflow & ->); [| | done].
    2: { intros o c' Ho. by eapply patchLoop_Return. }
    rewrite Hbatch, patchLoop_app, Hpre in Hflow. simpl in Hflow.
    rewrite Hst' in Hflow.
    apply patchLoop_Continue in Hflow as (_ & _ & _ & ns & ->).
    rewrite Hnotes. set_solver. }
  destruct tier.
  1,5: eexists; split; [exact Hstep |]; simpl; by rewrite Hcap.
  all: intros m Hm;
    unfold applied_with_clipboard, updateToClipboard in Hstep;
    rewrite decide_False in Hstep by done; simpl in Hstep;
    rewrite Hm in Hstep; simpl in Hstep;
    eexists; split; [exact Hstep |]; simpl;
    split_and!; [by rewrite Hcap, insert_insert_eq | done |];
    by eapply Hbatchnotes.
Qed.

(** The search text lacks the tab of the two lines it names: tier 2
    matches the two lines, c1 holds them with their tabs, and the note
    says so in the output of the committed batch. *)
Lemma clipboard_recapture_witness :
  ∃ st',
    patchStep Demo.X Demo.indented 0
      (Demo.op_to "replace" Demo.flat "x" "c1")
      (initial (Demo.tool ∅) Demo.indented) = Continue st'
    ∧ cb st' = <["c1" := Demo.indented]> ∅
    ∧ clipboardsModified st' =
        [] ++ [ {| note_name := "c1"; note_new_contents := Demo.indented |} ]
    ∧ ∀ out c tr notes,
        patchRun Demo.X (Demo.tool ∅) (Demo.os_ok Demo.indented)
          {| Path := "f.txt";
             Patches := [Demo.op_to "replace" Demo.flat "x" "c1"] |}
        = Returned out c tr →
        notes_of out = Some notes →
        {| note_name := "c1"; note_new_contents := Demo.indented |} ∈ notes.
Proof.
  refine (clipboard_recapture Demo.X (Demo.tool ∅)
            (Demo.os_ok Demo.indented)
            {| Path := "f.txt";
               Patches := [Demo.op_to "replace" Demo.flat "x" "c1"] |}
            Demo.indented [] (Demo.op_to "replace" Demo.flat "x" "c1") []
            (initial (Demo.tool ∅) Demo.indented) "x" DedentUnique
            {| patchkit.Off := 0; patchkit.Len := 14;
               patchkit.New := tab +:+ "x" |}
            eq_refl eq_refl eq_refl _ eq_refl _ eq_refl _
            Demo.indented eq_refl).
  - discriminate.
  - discriminate.
  - by vm_compute.
Defined.

(** C5 as stated fails: tier 2 matches and c1 is overwritten with the
    matched text, but the operation after it is not recognized, and the
    output of the batch is that error alone, with no note. *)
Lemma clipboard_note_dropped_counterexample :
  ladder Demo.X Demo.indented Demo.flat "x"
  = Found DedentUnique
      {| patchkit.Off := 0; patchkit.Len := 14;
         patchkit.New := tab +:+ "x" |}
  ∧ patchRun Demo.X (Demo.tool ∅) (Demo.os_ok Demo.indented)
      {| Path := "f.txt";
         Patches := [Demo.op_to "replace" Demo.flat "x" "c1";
                     Demo.op "frob" "" ""] |}
    = Returned (ErrorToolOut (ErrUnrecognized "frob"))
        {["c1" := Demo.indented]} [EvReadFile "/w/f.txt"]
  ∧ notes_of (ErrorToolOut (ErrUnrecognized "frob")) = None.
Proof. by vm_compute. Qed.

Section LadderFacts.

Import GoStrings editbuf patchkit.

Variable X : Externals.

Lemma first_match_recovery_tier (document oldText newText : string)
    (spec : Spec) :
  first_match (recovery_tiers X) document oldText newText
  ≠ Found ExactUnique spec.
Proof.
  unfold recovery_tiers. simpl.
  destruct (UniqueDedent X document oldText newText); [done |].
  destruct (UniqueInValidGo X document oldText newText); [done |].
  destruct (UniqueGoTokens X document oldText newText); [done |].
  by destruct (UniqueTrim X document oldText newText).
Qed.

(** Tier 1 finds the one place the old text occurs at. *)
Lemma ladder_exact (document oldText newText : string) (spec : Spec) :
  ladder X document oldText newText = Found ExactUnique spec ↔
  ∃ off, occurrences document oldText = [off]
         ∧ spec = {| Off := off; Len := len oldText; New := newText |}.
Proof.
  unfold ladder.
  destruct (occurrences document oldText) as [|off [|off' l]].
  - split; [| by intros (? & ? & _)].
    intros H. by apply first_match_recovery_tier in H.
  - split; [intros [= <-]; eauto | by intros (? & [= <-] & ->)].
  - split; [done | by intros (? & ? & _)].
Qed.

End LadderFacts.


(** * Further properties of reindent *)

Section ReindentRoundTrips.

Import GoStrings.

Lemma lacks_prefix_empty (line : string) : lacks_prefix "" line = false.
Proof.
  unfold lacks_prefix.
  assert (HasPrefix line "" = true) as -> by (by destruct line).
  apply andb_false_r.
Qed.

Lemma find_lacks_prefix_empty (lines : list string) :
  List.find (lacks_prefix "") lines = None.
Proof.
  induction lines as [|l ls IH]; [done |].
  simpl. by rewrite lacks_prefix_empty.
Qed.

Lemma drop_app_len (p r : string) : drop (len p) (p +:+ r) = r.
Proof. induction p as [|c p IH]; [done |]. rewrite app_cons. apply IH. Qed.

Lemma HasPrefix_app (p r : string) : HasPrefix (p +:+ r) p = true.
Proof.
  induction p as [|c p IH]; [rewrite app_nil_l; by destruct r |].
  rewrite app_cons. simpl. by rewrite Ascii.eqb_refl, IH.
Qed.

(** The lines of a text that has been reindented line by line. *)
Lemma Split_reindented (strip add : string) (lines : list string) :
  lines ≠ [] → has_LF add = false →
  Forall (λ l, has_LF l = false) lines →
  Split (Join (map (reindent_line strip add) lines) nl) LF
  = map (reindent_line strip add) lines.
Proof.
  intros Hne Hadd Hall. apply Split_Join.
  - by destruct lines.
  - apply Forall_map. eapply Forall_impl; [exact Hall |].
    intros l Hl. by apply reindent_line_no_LF.
Qed.

Lemma reindent_line_add_after_strip (strip add line : string) :
  reindent_line "" add (reindent_line strip "" line)
  = reindent_line strip add line.
Proof.
  unfold reindent_line. simpl.
  destruct (decide (line = "")) as [->|Hl]; [done |].
  destruct (decide (drop (len strip) line = "")) as [E|E].
  - by rewrite decide_True.
  - rewrite app_nil_l. by rewrite !decide_False.
Qed.

Lemma reindent_line_strip_after_add (prefix line : string) :
  reindent_line prefix "" (reindent_line "" prefix line) = line.
Proof.
  unfold reindent_line. simpl.
  destruct (decide (line = "")) as [->|Hl]; [done |].
  assert (prefix +:+ line ≠ "") as Hne.
  { intros E. by apply app_eq_empty in E as [_ E]. }
  rewrite (decide_False (P := prefix +:+ line = "")) by done.
  rewrite drop_app_len. by rewrite decide_False.
Qed.

Lemma lacks_prefix_added (prefix line : string) :
  lacks_prefix prefix (reindent_line "" prefix line) = false.
Proof.
  unfold lacks_prefix, reindent_line. simpl.
  destruct (decide (line = "")) as [->|Hl]; [done |].
  by rewrite HasPrefix_app, andb_false_r.
Qed.

Lemma find_lacks_prefix_added (prefix : string) (lines : list string) :
  List.find (lacks_prefix prefix) (map (reindent_line "" prefix) lines)
  = None.
Proof.
  induction lines as [|l ls IH]; [done |].
  simpl. by rewrite lacks_prefix_added.
Qed.

Lemma reindent_line_same_prefix (prefix line : string) :
  lacks_prefix prefix line = false → (line = prefix → prefix = "") →
  reindent_line prefix prefix line = line.
Proof.
  unfold lacks_prefix, reindent_line. intros Hlp Hne.
  destruct (decide (line = "")) as [->|Hl]; [done |].
  rewrite bool_decide_eq_false_2 in Hlp by done. simpl in Hlp.
  apply negb_false_iff, HasPrefix_split in Hlp.
  destruct (decide (drop (len prefix) line = "")) as [E|E].
  - rewrite E, app_empty_r in Hlp. specialize (Hne Hlp). congruence.
  - by rewrite <- Hlp.
Qed.

Lemma reindent_compose (text strip add : string) :
  reindent text (Some {| Strip := strip; Add := add |}) =
  match reindent text (Some {| Strip := strip; Add := "" |}) with
  | Ok stripped => reindent stripped (Some {| Strip := ""; Add := add |})
  | Err e => Err e
  end.
Proof.
  rewrite !reindent_find.
  destruct (List.find (lacks_prefix strip) (Split text LF));
    [done |].
  rewrite reindent_find, Split_reindented;
    [| apply Split_not_nil | done | apply Split_no_LF].
  rewrite find_lacks_prefix_empty, map_map. do 2 f_equal.
  apply map_ext. intros line. symmetry. apply reindent_line_add_after_strip.
Qed.

End ReindentRoundTrips.

(** X1.  [reindent] first strips, then adds: an adjustment with both a
    prefix to strip and a prefix to add does what the strip alone followed
    by the add alone do, and fails where the strip alone fails. *)
Theorem reindent_strip_then_add (text strip add : string) :
  reindent text (Some {| Strip := strip; Add := add |}) =
  match reindent text (Some {| Strip := strip; Add := "" |}) with
  | Ok stripped => reindent stripped (Some {| Strip := ""; Add := add |})
  | Err e => Err e
  end.
Proof. apply reindent_compose. Qed.

(** X2.  Indenting and then dedenting by the same prefix gives the text
    back: for a prefix with no line feed, adding it never fails, stripping
    it from the result never fails, and the result of both is the text. *)
Theorem reindent_indent_dedent (text prefix : string) :
  GoStrings.Contains prefix nl = false →
  ∃ indented,
    reindent text (Some {| Strip := ""; Add := prefix |}) = Ok indented
    ∧ reindent indented (Some {| Strip := prefix; Add := "" |}) = Ok text.
Proof.
  rewrite Contains_nl. intros Hp.
  eexists. split.
  - rewrite reindent_find, find_lacks_prefix_empty. reflexivity.
  - rewrite reindent_find, Split_reindented;
      [| apply Split_not_nil | done | apply Split_no_LF].
    rewrite find_lacks_prefix_added, map_map.
    rewrite (map_ext _ id) by (intros l; apply reindent_line_strip_after_add).
    by rewrite map_id, Join_Split.
Qed.

Lemma reindent_indent_dedent_witness :
  ∃ indented,
    reindent ("a" +:+ nl +:+ nl +:+ "b")
      (Some {| Strip := ""; Add := tab |}) = Ok indented
    ∧ reindent indented (Some {| Strip := tab; Add := "" |})
      = Ok ("a" +:+ nl +:+ nl +:+ "b").
Proof.
  apply (reindent_indent_dedent ("a" +:+ nl +:+ nl +:+ "b") tab).
  by vm_compute.
Defined.

(** X3.  Dedenting and then indenting by the same prefix gives the text
    back, provided no line of the text is the prefix itself (such a line
    is stripped to an empty line, which the indentation leaves empty). *)
Theorem reindent_dedent_indent (text prefix stripped : string) :
  reindent text (Some {| Strip := prefix; Add := "" |}) = Ok stripped →
  (prefix ∈ GoStrings.Split text LF → prefix = "") →
  reindent stripped (Some {| Strip := ""; Add := prefix |}) = Ok text.
Proof.
  intros Hs Hne.
  pose proof (reindent_compose text prefix prefix) as Hc.
  rewrite Hs in Hc. rewrite <- Hc, reindent_find.
  rewrite reindent_find in Hs.
  destruct (List.find (lacks_prefix prefix) (GoStrings.Split text LF))
    eqn:Hf; [done |].
  apply find_none_all in Hf.
  f_equal. rewrite <- (Join_Split text) at 2. f_equal.
  rewrite <- (map_id (GoStrings.Split text LF)) at 2.
  apply map_ext_in. intros line Hin.
  apply reindent_line_same_prefix.
  - rewrite Forall_forall in Hf. apply Hf. by apply list_elem_of_In.
  - intros ->. apply Hne. by apply list_elem_of_In.
Qed.

Lemma reindent_dedent_indent_witness :
  reindent (tab +:+ "a" +:+ nl +:+ nl +:+ tab +:+ "b")
    (Some {| Strip := tab; Add := "" |})
  = Ok ("a" +:+ nl +:+ nl +:+ "b")
  ∧ reindent ("a" +:+ nl +:+ nl +:+ "b")
      (Some {| Strip := ""; Add := tab |})
    = Ok (tab +:+ "a" +:+ nl +:+ nl +:+ tab +:+ "b").
Proof.
  split; [by vm_compute |].
  apply (reindent_dedent_indent
           (tab +:+ "a" +:+ nl +:+ nl +:+ tab +:+ "b") tab).
  - by vm_compute.
  - vm_compute. intros H. by repeat (inversion H as [|? ? ? H']; subst; clear H; rename H' into H).
Defined.


(** * Further properties of patchRun *)

Section RunFacts.

Import GoStrings editbuf patchkit.

Variable X : Externals.

(** An iteration that returns returns the structural error of its
    patch. *)
Lemma patchStep_Return (orig : string) (i : nat) (patch : PatchRequest)
    (st : LoopState) (out : ToolOut) (c : gmap string string) :
  patchStep X orig i patch st = Return out c →
  ∃ e, structural_error i patch (cb st) = Some e ∧ out = ErrorToolOut e.
Proof.
  rewrite patchStep_spec.
  destruct (structural_error i patch (cb st)) as [e|].
  { intros [= <- _]. eauto. }
  cbn zeta. destruct (resolve_newText patch _) as [newText|]; [| done].
  destruct (decide (Operation patch = "replace")).
  - destruct (ladder X orig (OldText patch) newText) as [[] s| |]; try done;
      unfold applied_with_clipboard; by destruct (updateToClipboard _ _ _ _).
  - by repeat case_decide.
Qed.

(** A loop that returns: the patch it stopped at, and its error. *)
Lemma patchLoop_Return_at (orig : string) (patches : list PatchRequest) :
  ∀ i st out c,
  patchLoop X orig i patches st = Return out c →
  ∃ pre patch post st1 e,
    patches = pre ++ patch :: post
    ∧ patchLoop X orig i pre st = Continue st1
    ∧ structural_error (i + length pre) patch (cb st1) = Some e
    ∧ out = ErrorToolOut e.
Proof.
  induction patches as [|patch rest IH]; intros i st out c H; simpl in H;
    [done |].
  destruct (patchStep X orig i patch st) as [st1|o c1|c1] eqn:Hstep.
  - destruct (IH _ _ _ _ H) as (pre & q & post & st2 & e & -> & Hl & Hs & ->).
    exists (patch :: pre), q, post, st2, e. split_and!; try done.
    + simpl. by rewrite Hstep.
    + simpl. by replace (i + S (length pre)) with (S i + length pre) by lia.
  - injection H as -> ->.
    destruct (patchStep_Return _ _ _ _ _ _ Hstep) as (e & Hs & ->).
    exists [], patch, rest, st, e. simpl. by rewrite Nat.add_0_r.
  - done.
Qed.

(** The three ways of [patchRun]: no patch, no document, or the loop and
    what follows it. *)
Lemma patchRun_cases (p : PatchTool) (os : OSReplies) (input : PatchInput) :
  let path := resolved_path X p input in
  (Patches input = []
   ∧ patchRun X p os input =
     Returned (ErrorToolOut ErrNoPatches) (clipboards p) [])
  ∨ (Patches input ≠ [] ∧ snapshot os (Patches input) = None
     ∧ ∃ e, patchRun X p os input =
            Returned (ErrorToolOut e) (clipboards p) [EvReadFile path]
            ∧ (e = ErrFileNotExist path ∨ ∃ err, e = ErrReadFile path err))
  ∨ (∃ orig,
       Patches input ≠ [] ∧ snapshot os (Patches input) = Some orig
       ∧ patchRun X p os input =
         patchFinish X os path orig
           (HasSuffix path ".go" && IsAutogeneratedGoFile X orig)
           (patchLoop X orig 0 (Patches input) (initial p orig))).
Proof.
  unfold patchRun, snapshot, patchApply. cbn zeta.
  destruct (Patches input) as [|patch rest] eqn:Hp; [by left |].
  right. destruct (onReadFile os) as [data| |err].
  - right. by exists data.
  - destruct (forallb creates (patch :: rest)).
    + right. by exists "".
    + left. split_and!; try done. eexists. split; [done |]. by left.
  - left. split_and!; try done. eexists. split; [done |]. right. eauto.
Qed.

Lemma patchFinish_clipboards (os : OSReplies) (path orig : string)
    (autogenerated : bool) (flow : Flow) :
  clipboards_of (patchFinish X os path orig autogenerated flow)
  = flow_cb flow.
Proof.
  unfold patchFinish. destruct flow as [st| |]; try done.
  destruct (patchErr st); [done |].
  destruct (Bytes (buf st)); [| done].
  destruct (onMkdirAll os); [done |]. by destruct (onWriteFile os).
Qed.

(** The clipboards a run leaves, whatever its end: those it started with
    and the writes of the batch on top. *)
Lemma patchRun_clipboards (p : PatchTool) (os : OSReplies)
    (input : PatchInput) :
  clipboards_of (patchRun X p os input) =
  match snapshot os (Patches input) with
  | Some orig =>
      apply_writes (clipboards p)
        (writes X orig 0 (Patches input) (initial p orig))
  | None => clipboards p
  end.
Proof.
  destruct (patchRun_cases p os input)
    as [[Hp ->]|[(_ & -> & e & -> & _)|(orig & _ & -> & ->)]].
  - rewrite Hp. simpl. by destruct (snapshot os []).
  - done.
  - by rewrite patchFinish_clipboards, patchLoop_writes.
Qed.

Lemma apply_writes_is_Some (ws : list (string * string)) :
  ∀ (c : gmap string string) (name : string),
  is_Some (c !! name) → is_Some (apply_writes c ws !! name).
Proof.
  induction ws as [|[n v] ws IH]; intros c name H; [done |].
  apply IH. destruct (decide (n = name)) as [->|Hne].
  - simpl. rewrite lookup_insert_eq. eauto.
  - simpl. by rewrite lookup_insert_ne.
Qed.

Lemma apply_writes_other (ws : list (string * string)) :
  ∀ (c : gmap string string) (name : string),
  name ∉ ws.*1 → apply_writes c ws !! name = c !! name.
Proof.
  induction ws as [|[n v] ws IH]; intros c name H; [done |].
  simpl in H. apply not_elem_of_cons in H as [Hne Hnot].
  unfold apply_writes in *. simpl. rewrite IH by done.
  by rewrite lookup_insert_ne.
Qed.

(** A write of an operation is a write into the clipboard it names, and
    the operation is a replace with an old text. *)
Lemma step_writes_names (orig : string) (patch : PatchRequest)
    (c : gmap string string) (w : string * string) :
  w ∈ step_writes X orig patch c →
  w.1 = ToClipboard patch ∧ ToClipboard patch ≠ ""
  ∧ Operation patch = "replace" ∧ OldText patch ≠ "".
Proof.
  unfold step_writes.
  destruct (bool_decide (ToClipboard patch ≠ "")) eqn:E1; [| by intros ?%elem_of_nil].
  destruct (bool_decide (Operation patch = "replace")) eqn:E2; [| by intros ?%elem_of_nil].
  destruct (bool_decide (OldText patch ≠ "")) eqn:E3; [| by intros ?%elem_of_nil].
  apply bool_decide_eq_true in E1, E2, E3. simpl.
  intros [->|Hin]%elem_of_cons; [done |].
  destruct (resolve_newText patch _) as [newText|]; [| by apply elem_of_nil in Hin].
  destruct (ladder X orig (OldText patch) newText) as [[] s| |];
    try (by apply elem_of_nil in Hin).
  all: destruct (slice orig _ _); [| by apply elem_of_nil in Hin].
  all: by apply list_elem_of_singleton in Hin as ->.
Qed.

Lemma writes_names (orig : string) (patches : list PatchRequest) :
  ∀ i st w,
  w ∈ writes X orig i patches st →
  ∃ patch, patch ∈ patches ∧ w.1 = ToClipboard patch
           ∧ ToClipboard patch ≠ "" ∧ Operation patch = "replace"
           ∧ OldText patch ≠ "".
Proof.
  induction patches as [|patch rest IH]; intros i st w H; simpl in H.
  { by apply elem_of_nil in H. }
  apply elem_of_app in H as [H|H].
  - apply step_writes_names in H. exists patch. split; [left | done].
  - destruct (patchStep X orig i patch st) as [st1| |];
      try (by apply elem_of_nil in H).
    destruct (IH _ _ _ H) as (q & Hq & Hw). exists q. split; [by right | done].
Qed.

Lemma matching_only_join (patchErr : option error) (e : error) :
  matching_only patchErr → matching_entry e = true →
  matching_only (errors_Join [patchErr; Some e]).
Proof.
  intros Hm He.
  pose proof (entries_join patchErr e) as Hj.
  assert (entries e = [e]) as Hee by (by destruct e).
  destruct (errors_Join [patchErr; Some e]) as [j|] eqn:Ej.
  2: { unfold errors_Join in Ej. by destruct patchErr. }
  simpl in *. rewrite Hj, Hee. split.
  - by destruct (entries_of patchErr).
  - rewrite forallb_app. simpl. rewrite He.
    destruct patchErr as [pe|]; simpl in *; [| done].
    destruct Hm as [_ ->]. done.
Qed.

Lemma patchStep_matching_only (orig : string) (i : nat)
    (patch : PatchRequest) (st st' : LoopState) :
  patchStep X orig i patch st = Continue st' →
  matching_only (patchErr st) → matching_only (patchErr st').
Proof.
  rewrite patchStep_spec.
  destruct (structural_error i patch (cb st)); [done |]. cbn zeta.
  destruct (resolve_newText patch _) as [newText|]; [| by intros [= <-]].
  destruct (decide (Operation patch = "replace")).
  - destruct (ladder X orig (OldText patch) newText) as [[] s| |].
    2,3,4: by intros (_ & -> & _)%applied_with_clipboard_Continue.
    1,2: by intros [= <-].
    1,2: intros [= <-] Hm; simpl; by apply matching_only_join.
  - repeat case_decide; by intros [= <-].
Qed.

Lemma patchLoop_matching_only (orig : string) (patches : list PatchRequest) :
  ∀ i st st',
  patchLoop X orig i patches st = Continue st' →
  matching_only (patchErr st) → matching_only (patchErr st').
Proof.
  induction patches as [|patch rest IH]; intros i st st' H Hm; simpl in H.
  - by injection H as <-.
  - destruct (patchStep X orig i patch st) as [st1| |] eqn:Hstep;
      try done.
    eapply IH; [done |]. by eapply patchStep_matching_only.
Qed.

Lemma structural_error_output (i : nat) (patch : PatchRequest)
    (c : gmap string string) (e : error) :
  structural_error i patch c = Some e → output_error e.
Proof.
  unfold structural_error.
  destruct (_ && _); [by intros [= <-] |].
  destruct (_ && _); [by intros [= <-] |].
  destruct (resolve_newText patch (captured patch c)) as [t|e'] eqn:Hr.
  - destruct (bool_decide (Operation patch = "replace")).
    + destruct (bool_decide (OldText patch = "")); [by intros [= <-] | done].
    + destruct (creates patch); [done | by intros [= <-]].
  - intros [= <-]. unfold resolve_newText in Hr.
    destruct (decide (FromClipboard patch = "")).
    + destruct (PReindent patch) as [adj|]; [| done].
      destruct (reindent (NewText patch) (Some adj)) eqn:Hre; [done |].
      injection Hr as <-. apply reindent_Err in Hre as [line ->]. done.
    + destruct (captured patch c !! FromClipboard patch) as [t|];
        [| by injection Hr as <-].
      destruct (PReindent patch) as [adj|]; [| done].
      destruct (reindent t (Some adj)) eqn:Hre; [done |].
      injection Hr as <-. apply reindent_Err in Hre as [line ->]. done.
Qed.

(** The notes an iteration adds. *)
Lemma patchStep_notes (orig : string) (i : nat) (patch : PatchRequest)
    (st st' : LoopState) :
  patchStep X orig i patch st = Continue st' →
  ∃ ns, clipboardsModified st' = clipboardsModified st ++ ns
        ∧ Forall (λ n, note_name n = ToClipboard patch
                       ∧ ToClipboard patch ≠ ""
                       ∧ Operation patch = "replace"
                       ∧ ∃ off end_,
                           slice orig off end_ = Some (note_new_contents n))
            ns.
Proof.
  rewrite patchStep_spec.
  destruct (structural_error i patch (cb st)); [done |]. cbn zeta.
  assert (∀ s : LoopState, ∃ ns,
            clipboardsModified s = clipboardsModified s ++ ns
            ∧ Forall (λ n, note_name n = ToClipboard patch
                           ∧ ToClipboard patch ≠ ""
                           ∧ Operation patch = "replace"
                           ∧ ∃ off end_,
                               slice orig off end_
                               = Some (note_new_contents n)) ns) as Hnil.
  { intros s. exists []. by rewrite app_nil_r. }
  destruct (resolve_newText patch _) as [newText|];
    [| intros [= <-]; apply Hnil].
  destruct (decide (Operation patch = "replace")) as [Hop|Hop].
  - destruct (ladder X orig (OldText patch) newText) as [[] s| |].
    2,3,4: intros (_ & _ & Hc)%applied_with_clipboard_Continue;
      destruct Hc as [(_ & _ & ->)|(Hto & m & Hm & _ & ->)];
      [ apply (Hnil (set_cb st (captured patch (cb st))))
      | simpl; eexists; split; [done |];
        constructor; [| constructor]; simpl; eauto 10 ].
    all: intros [= <-]; apply (Hnil (set_cb st (captured patch (cb st)))).
  - repeat case_decide; intros [= <-];
      apply (Hnil (set_cb st (captured patch (cb st)))).
Qed.

Lemma patchLoop_notes (orig : string) (patches : list PatchRequest) :
  ∀ i st st',
  patchLoop X orig i patches st = Continue st' →
  ∃ ns, clipboardsModified st' = clipboardsModified st ++ ns
        ∧ Forall (λ n, ∃ patch off end_,
                    patch ∈ patches ∧ note_name n = ToClipboard patch
                    ∧ ToClipboard patch ≠ ""
                    ∧ Operation patch = "replace"
                    ∧ slice orig off end_ = Some (note_new_contents n)) ns.
Proof.
  induction patches as [|patch rest IH]; intros i st st' H; simpl in H.
  - injection H as <-. exists []. by rewrite app_nil_r.
  - destruct (patchStep X orig i patch st) as [st1| |] eqn:Hstep; try done.
    destruct (patchStep_notes _ _ _ _ _ Hstep) as (ns1 & E1 & F1).
    destruct (IH _ _ _ H) as (ns2 & E2 & F2).
    exists (ns1 ++ ns2). split; [by rewrite E2, E1, app_assoc |].
    apply Forall_app. split.
    + eapply Forall_impl; [exact F1 |]. simpl.
      intros n (Hn & Hto & Hop & off & end_ & Hs).
      exists patch, off, end_. split_and!; try done. left.
    + eapply Forall_impl; [exact F2 |]. simpl.
      intros n (q & off & end_ & Hq & Hrest).
      exists q, off, end_. split; [by right | done].
Qed.

(** A loop that stops for a clipboard to paste from that does not exist:
    the clipboard did not exist when the loop started, and no operation up
    to the one that pastes captures into it. *)
Lemma patchLoop_missing_clipboard (orig : string)
    (patches : list PatchRequest) (name : string) :
  ∀ i st c,
  patchLoop X orig i patches st =
  Return (ErrorToolOut (ErrFromClipboardMissing name)) c →
  cb st !! name = None ∧ name ≠ ""
  ∧ ∃ pre patch post,
      patches = pre ++ patch :: post ∧ FromClipboard patch = name
      ∧ Forall (λ q, ToClipboard q ≠ name) (pre ++ [patch]).
Proof.
  induction patches as [|patch rest IH]; intros i st c H; simpl in H;
    [done |].
  destruct (patchStep X orig i patch st) as [st1|o c1|c1] eqn:Hstep.
  - destruct (IH _ _ _ H) as (Hnone & Hne & pre & q & post & -> & Hfrom & Hall).
    pose proof (patchStep_writes X orig i patch st) as Hw.
    rewrite Hstep in Hw. simpl in Hw.
    assert (cb st !! name = None) as Hst.
    { destruct (cb st !! name) eqn:E; [| done].
      assert (is_Some (cb st1 !! name)) as [? ?];
        [| congruence].
      rewrite Hw. apply apply_writes_is_Some. by rewrite E. }
    assert (ToClipboard patch ≠ name) as Hto.
    { intros Hto.
      assert (ToClipboard patch ≠ "") as Hto' by congruence.
      assert (Operation patch = "replace" ∧ OldText patch ≠ "") as [Hop Hold].
      { unfold patchStep in Hstep. rewrite decide_False in Hstep by done.
        destruct (decide (Operation patch = "replace")); [| done].
        by destruct (decide (OldText patch = "")). }
      pose proof (patchStep_capture X orig i patch st Hto' Hop Hold) as Hc.
      cbn zeta in Hc. rewrite Hstep, Hto in Hc. simpl in Hc.
      destruct Hc as [[? ?]|[Hc|(? & ? & ? & ? & _ & _ & _ & Hc)]];
        congruence. }
    split_and!; try done.
    exists (patch :: pre), q, post. split_and!; try done.
    simpl. by constructor.
  - injection H as -> ->.
    destruct (patchStep_Return _ _ _ _ _ _ Hstep) as (e & Hs & [= <-]).
    unfold structural_error in Hs.
    destruct (_ && _); [done |]. destruct (_ && _); [done |].
    destruct (resolve_newText patch (captured patch (cb st))) as [t|e']
      eqn:Hr.
    { destruct (bool_decide (Operation patch = "replace")).
      - by destruct (bool_decide (OldText patch = "")).
      - by destruct (creates patch). }
    injection Hs as ->. unfold resolve_newText in Hr.
    destruct (decide (FromClipboard patch = "")) as [Hf|Hf].
    { destruct (PReindent patch) as [adj|]; [| done].
      by destruct (reindent (NewText patch) (Some adj)). }
    destruct (captured patch (cb st) !! FromClipboard patch) as [t|] eqn:Hl.
    { destruct (PReindent patch) as [adj|]; [| done].
      by destruct (reindent t (Some adj)). }
    injection Hr as <-.
    assert (cb st !! FromClipboard patch = None
            ∧ ToClipboard patch ≠ FromClipboard patch) as [Hnone Hto].
    { unfold captured in Hl. case_decide as Hto; [split; congruence |].
      destruct (decide (ToClipboard patch = FromClipboard patch)) as [E|E].
      - rewrite E, lookup_insert_eq in Hl. done.
      - by rewrite lookup_insert_ne in Hl. }
    split_and!; try done.
    exists [], patch, rest. split_and!; try done.
    simpl. by constructor.
  - done.
Qed.

Lemma patchRun_keeps_clipboard (p : PatchTool) (os : OSReplies)
    (input : PatchInput) (name : string) :
  is_Some (clipboards p !! name) →
  is_Some (clipboards_of (patchRun X p os input) !! name).
Proof.
  rewrite patchRun_clipboards.
  destruct (snapshot os (Patches input)); [| done].
  apply apply_writes_is_Some.
Qed.

Lemma patchRun_missing_clipboard (p : PatchTool) (os : OSReplies)
    (input : PatchInput) (name : string) (c : gmap string string)
    (tr : list Event) :
  patchRun X p os input =
  Returned (ErrorToolOut (ErrFromClipboardMissing name)) c tr →
  name ≠ "" ∧ clipboards p !! name = None
  ∧ ∃ pre patch post,
      Patches input = pre ++ patch :: post ∧ FromClipboard patch = name
      ∧ Forall (λ q, ToClipboard q ≠ name) (pre ++ [patch]).
Proof.
  intros H.
  destruct (patchRun_cases p os input)
    as [[Hp E]|[(Hp & _ & e' & E & He')|(orig & Hp & Hs & E)]];
    rewrite E in H; try done.
  { injection H as -> _ _. by destruct He' as [?|[? ?]]. }
  unfold patchFinish in H.
  destruct (patchLoop X orig 0 (Patches input) (initial p orig))
    as [st|o c1|] eqn:Hl; [| | done].
  - destruct (patchErr st); [done |].
    destruct (Bytes (buf st)) eqn:Hb.
    + destruct (onMkdirAll os); [done |]. by destruct (onWriteFile os).
    + injection H as -> _ _. by apply Bytes_Err in Hb as (x & y & ?).
  - injection H as -> _ _.
    apply patchLoop_missing_clipboard in Hl as (Hnone & Hne & Hex).
    done.
Qed.

End RunFacts.

(** X4.  The calls of a run are a prefix of: read the file, make its
    directory, write the file, each at the resolved path.  With no patch
    nothing is called; the directory is made only for a document whose
    batch passed, and the file is written only after the directory was
    made, with the bytes the registered edits give; nothing is written
    when an operation failed to resolve or to match, or when edits
    overlap. *)
Theorem os_call_discipline (X : Externals) (p : PatchTool) (os : OSReplies)
    (input : PatchInput) :
  let path := resolved_path X p input in
  let dir := filepath_Dir X path in
  let tr := trace_of (patchRun X p os input) in
  (tr = [] ∧ Patches input = [])
  ∨ (tr = [EvReadFile path] ∧ Patches input ≠ [])
  ∨ (∃ orig st patched,
       snapshot os (Patches input) = Some orig
       ∧ patchLoop X orig 0 (Patches input) (initial p orig) = Continue st
       ∧ patchErr st = None ∧ editbuf.Bytes (buf st) = Ok patched
       ∧ ((tr = [EvReadFile path; EvMkdirAll dir] ∧ is_Some (onMkdirAll os))
          ∨ (tr = [EvReadFile path; EvMkdirAll dir; EvWriteFile path patched]
             ∧ onMkdirAll os = None))).
Proof.
  cbn zeta.
  destruct (patchRun_cases X p os input)
    as [[Hp ->]|[(Hp & _ & e & -> & _)|(orig & Hp & Hs & ->)]].
  - by left.
  - right. by left.
  - right. unfold patchFinish.
    destruct (patchLoop X orig 0 (Patches input) (initial p orig))
      as [st| |] eqn:Hl; [| by left | by left].
    destruct (patchErr st) eqn:He; [by left |].
    destruct (editbuf.Bytes (buf st)) as [patched|] eqn:Hb; [| by left].
    right. exists orig, st, patched. split_and!; try done.
    destruct (onMkdirAll os) eqn:Hm; [left; eauto |].
    right. by destruct (onWriteFile os).
Qed.

(** X5.  A committed batch: the document was there (or the file was
    missing and every operation creates), every operation resolved and
    matched (no matching failure was recorded), the registered edits did
    not overlap, and the directory and the file were written without
    error.  What the response displays is what happened: the old content
    is the document read, the new content is the bytes written, the path
    is the resolved path, and the clipboards are those the loop left. *)
Theorem committed_batch (X : Externals) (p : PatchTool) (os : OSReplies)
    (input : PatchInput) (resp : Response) (d : PatchDisplayData)
    (c : gmap string string) (tr : list Event) :
  patchRun X p os input = Returned (ToolOutOK resp d) c tr →
  let path := resolved_path X p input in
  ∃ orig st,
    snapshot os (Patches input) = Some orig
    ∧ patchLoop X orig 0 (Patches input) (initial p orig) = Continue st
    ∧ failures X orig 0 (Patches input) (initial p orig) = []
    ∧ editbuf.Bytes (buf st) = Ok (d_newContent d)
    ∧ onMkdirAll os = None ∧ onWriteFile os = None
    ∧ tr = [EvReadFile path; EvMkdirAll (filepath_Dir X path);
            EvWriteFile path (d_newContent d)]
    ∧ d_path d = path ∧ d_oldContent d = orig
    ∧ d_diff d = diff_Text X path orig (d_newContent d)
    ∧ c = cb st ∧ r_clipboardsModified resp = clipboardsModified st.
Proof.
  intros H. cbn zeta.
  destruct (patchRun_cases X p os input)
    as [[Hp E]|[(Hp & _ & e & E & _)|(orig & Hp & Hs & E)]];
    rewrite E in H; try done.
  unfold patchFinish in H.
  destruct (patchLoop X orig 0 (Patches input) (initial p orig))
    as [st|o c1|] eqn:Hl; [| | done].
  2: { injection H as -> _ _. by apply patchLoop_Return in Hl. }
  destruct (patchErr st) eqn:He; [done |].
  destruct (editbuf.Bytes (buf st)) as [patched|] eqn:Hb; [| done].
  destruct (onMkdirAll os) eqn:Hm; [done |].
  destruct (onWriteFile os) eqn:Hw; [done |].
  injection H as <- <- <- <-. exists orig, st. simpl.
  split_and!; try done.
  destruct (patchLoop_Continue X _ _ _ _ _ Hl) as (Hent & _).
  rewrite He in Hent. simpl in Hent.
  destruct (failures X orig 0 (Patches input) (initial p orig)); done.
Qed.

Lemma committed_batch_witness :
  ∃ orig st,
    snapshot (Demo.os_ok "abc") [Demo.op "overwrite" "" "y"] = Some orig
    ∧ patchLoop Demo.X orig 0 [Demo.op "overwrite" "" "y"]
        (initial (Demo.tool ∅) orig) = Continue st
    ∧ failures Demo.X orig 0 [Demo.op "overwrite" "" "y"]
        (initial (Demo.tool ∅) orig) = []
    ∧ editbuf.Bytes (buf st) = Ok "y"
    ∧ onMkdirAll (Demo.os_ok "abc") = None
    ∧ onWriteFile (Demo.os_ok "abc") = None
    ∧ [EvReadFile "/w/f.txt"; EvMkdirAll "/w"; EvWriteFile "/w/f.txt" "y"]
      = [EvReadFile "/w/f.txt"; EvMkdirAll "/w"; EvWriteFile "/w/f.txt" "y"]
    ∧ "/w/f.txt" = "/w/f.txt" ∧ "abc" = orig
    ∧ "" = ""
    ∧ (∅ : gmap string string) = cb st
    ∧ [] = clipboardsModified st.
Proof.
  apply (committed_batch Demo.X (Demo.tool ∅) (Demo.os_ok "abc")
           {| Path := "f.txt"; Patches := [Demo.op "overwrite" "" "y"] |}
           {| r_clipboardsModified := []; r_warning := None |}
           {| d_path := "/w/f.txt"; d_oldContent := "abc";
              d_newContent := "y"; d_diff := "" |}
           ∅
           [EvReadFile "/w/f.txt"; EvMkdirAll "/w";
            EvWriteFile "/w/f.txt" "y"]).
  by vm_compute.
Defined.

(** X6.  A run never removes a clipboard, and it changes only clipboards
    that a replace of the batch, with an old text, names as toClipboard:
    whatever the end of the run (committed, rejected, or a panic), every
    clipboard that was there is still there, and a clipboard whose content
    is not what it was is named by such an operation. *)
Theorem clipboards_frame (X : Externals) (p : PatchTool) (os : OSReplies)
    (input : PatchInput) :
  let c := clipboards_of (patchRun X p os input) in
  (∀ name, is_Some (clipboards p !! name) → is_Some (c !! name))
  ∧ (∀ name, c !! name ≠ clipboards p !! name →
       name ≠ ""
       ∧ ∃ patch, patch ∈ Patches input ∧ ToClipboard patch = name
                  ∧ Operation patch = "replace" ∧ OldText patch ≠ "").
Proof.
  cbn zeta. rewrite patchRun_clipboards.
  destruct (snapshot os (Patches input)) as [orig|]; [| done].
  split.
  - intros name. apply apply_writes_is_Some.
  - intros name Hne.
    set (ws := writes X orig 0 (Patches input) (initial p orig)) in *.
    destruct (decide (name ∈ ws.*1)) as [Hin|Hnot].
    + apply list_elem_of_fmap in Hin as (w & -> & Hw).
      apply writes_names in Hw as (patch & Hp & Hw & Hto & Hop & Hold).
      split; [congruence |]. exists patch. by rewrite Hw.
    + exfalso. apply Hne. by apply apply_writes_other.
Qed.

(** X7.  The error of a rejected run is of one of these kinds: no patch;
    the file does not exist or cannot be read; a structural error of one
    operation (toClipboard misused, fromClipboard unknown, a reindent
    error wrapping the strip failure for that very prefix, an empty old
    text, an unknown operation); a matching failure, which joins at least
    one error, each of them not found or not unique; overlapping edits;
    a directory or a file that cannot be written. *)
Theorem rejection_kinds (X : Externals) (p : PatchTool) (os : OSReplies)
    (input : PatchInput) (e : error) (c : gmap string string)
    (tr : list Event) :
  patchRun X p os input = Returned (ErrorToolOut e) c tr → output_error e.
Proof.
  intros H.
  destruct (patchRun_cases X p os input)
    as [[Hp E]|[(Hp & _ & e' & E & He')|(orig & Hp & Hs & E)]];
    rewrite E in H.
  - by injection H as <- _ _.
  - injection H as <- _ _. by destruct He' as [->|[err ->]].
  - unfold patchFinish in H.
    destruct (patchLoop X orig 0 (Patches input) (initial p orig))
      as [st|o c1|] eqn:Hl; [| | done].
    2: { injection H as -> _ _.
         apply patchLoop_Return_at in Hl
           as (pre & patch & post & st1 & e' & _ & _ & Hse & [= ->]).
         by eapply structural_error_output. }
    pose proof (patchLoop_matching_only X _ _ _ _ _ Hl I) as Hm.
    destruct (patchErr st) as [pe|] eqn:He.
    { injection H as <- _ _. exact Hm. }
    destruct (editbuf.Bytes (buf st)) as [patched|] eqn:Hb.
    2: { injection H as <- _ _.
         by apply Bytes_Err in Hb as (x & y & ->). }
    destruct (onMkdirAll os); [by injection H as <- _ _ |].
    destruct (onWriteFile os); [by injection H as <- _ _ | done].
Qed.

Lemma rejection_kinds_witness :
  output_error
    (ErrPatchFailed
       (ErrJoin [ErrJoin [ErrNotFound "x"]; ErrNotUnique "a"]) []).
Proof.
  apply (rejection_kinds Demo.X (Demo.tool ∅) (Demo.os_ok "aa")
           {| Path := "f.txt";
              Patches := [Demo.op "replace" "x" "y";
                          Demo.op "replace" "a" "b"] |}
           _ ∅ [EvReadFile "/w/f.txt"]).
  by vm_compute.
Defined.

(** X8.  The notes of an output quote the document: each note names a
    clipboard that a replace of the batch captures into, and its new
    contents are bytes of the document as read, a slice of it. *)
Theorem notes_quote_the_document (X : Externals) (p : PatchTool)
    (os : OSReplies) (input : PatchInput) (out : ToolOut)
    (c : gmap string string) (tr : list Event) (notes : list Note) :
  patchRun X p os input = Returned out c tr → notes_of out = Some notes →
  ∃ orig,
    snapshot os (Patches input) = Some orig
    ∧ Forall (λ n, ∃ patch off end_,
                patch ∈ Patches input ∧ note_name n = ToClipboard patch
                ∧ ToClipboard patch ≠ "" ∧ Operation patch = "replace"
                ∧ GoStrings.slice orig off end_
                  = Some (note_new_contents n)) notes.
Proof.
  intros H Hn.
  destruct (patchRun_cases X p os input)
    as [[Hp E]|[(Hp & _ & e' & E & He')|(orig & Hp & Hs & E)]];
    rewrite E in H.
  - by injection H as <- _ _.
  - injection H as <- _ _. by destruct He' as [->|[err ->]].
  - exists orig. split; [done |].
    eapply patchFinish_notes in H as (st & Hst & ->); [| | done].
    2: { intros o c' Hr. rewrite Hr in *. by eapply patchLoop_Return. }
    rewrite Hst in *.
    destruct (patchLoop_notes X _ _ _ _ _ Hst) as (ns & Hns & Hall).
    by rewrite Hns.
Qed.

Lemma notes_quote_the_document_witness :
  ∃ orig,
    snapshot (Demo.os_ok Demo.indented)
      [Demo.op_to "replace" Demo.flat "x" "c1"] = Some orig
    ∧ Forall (λ n, ∃ patch off end_,
                patch ∈ [Demo.op_to "replace" Demo.flat "x" "c1"]
                ∧ note_name n = ToClipboard patch
                ∧ ToClipboard patch ≠ "" ∧ Operation patch = "replace"
                ∧ GoStrings.slice orig off end_
                  = Some (note_new_contents n))
        [ {| note_name := "c1"; note_new_contents := Demo.indented |} ].
Proof.
  apply (notes_quote_the_document Demo.X (Demo.tool ∅)
           (Demo.os_ok Demo.indented)
           {| Path := "f.txt";
              Patches := [Demo.op_to "replace" Demo.flat "x" "c1"] |}
           (ToolOutOK
              {| r_clipboardsModified :=
                   [ {| note_name := "c1";
                        note_new_contents := Demo.indented |} ];
                 r_warning := None |}
              {| d_path := "/w/f.txt"; d_oldContent := Demo.indented;
                 d_newContent := tab +:+ "x"; d_diff := "" |})
           {["c1" := Demo.indented]}
           [EvReadFile "/w/f.txt"; EvMkdirAll "/w";
            EvWriteFile "/w/f.txt" (tab +:+ "x")]).
  - by vm_compute.
  - reflexivity.
Defined.

(** X9.  A run is rejected for a clipboard to paste from that does not
    exist only when the tool held no clipboard of that name at the start
    and no operation of the batch, up to and including the one that
    pastes, captures into it: a capture comes before the paste of the same
    operation, and a clipboard once written stays. *)
Theorem paste_fails_only_uncaptured (X : Externals) (p : PatchTool)
    (os : OSReplies) (input : PatchInput) (name : string)
    (c : gmap string string) (tr : list Event) :
  patchRun X p os input =
  Returned (ErrorToolOut (ErrFromClipboardMissing name)) c tr →
  name ≠ "" ∧ clipboards p !! name = None
  ∧ ∃ pre patch post,
      Patches input = pre ++ patch :: post ∧ FromClipboard patch = name
      ∧ Forall (λ q, ToClipboard q ≠ name) (pre ++ [patch]).
Proof. apply patchRun_missing_clipboard. Qed.

Lemma paste_fails_only_uncaptured_witness :
  "c9" ≠ "" ∧ (∅ : gmap string string) !! "c9" = None
  ∧ ∃ pre patch post,
      [Demo.op_to "replace" "a" "b" "c1"; Demo.op_from "replace" "c" "c9"]
      = pre ++ patch :: post
      ∧ FromClipboard patch = "c9"
      ∧ Forall (λ q, ToClipboard q ≠ "c9") (pre ++ [patch]).
Proof.
  apply (paste_fails_only_uncaptured Demo.X (Demo.tool ∅)
           (Demo.os_ok "abc")
           {| Path := "f.txt";
              Patches := [Demo.op_to "replace" "a" "b" "c1";
                          Demo.op_from "replace" "c" "c9"] |}
           "c9" {["c1" := "a"]} [EvReadFile "/w/f.txt"]).
  by vm_compute.
Defined.


(** * What the operations do to the file *)

Section OperationFacts.

Import GoStrings editbuf patchkit.

Variable X : Externals.

Lemma app_assoc_str (a b c : string) : (a +:+ b) +:+ c = a +:+ b +:+ c.
Proof.
  induction a as [|x a IH]; [done |]. by rewrite !app_cons, IH.
Qed.

Lemma take_len (s : string) : take (len s) s = s.
Proof. induction s as [|c s IH]; [done |]. simpl. by rewrite IH. Qed.

Lemma drop_len_app2 (a b r : string) :
  drop (len a + len b) (a +:+ b +:+ r) = r.
Proof. by rewrite <- drop_drop_str, !drop_app_len. Qed.

Lemma drop_len_app4 (a b c d r : string) :
  drop (len a + len b + len c + len d) (a +:+ b +:+ c +:+ d +:+ r) = r.
Proof. by rewrite <- !drop_drop_str, !drop_app_len. Qed.

(** Every place the needle is at is among the occurrences. *)
Lemma occurrences_from_complete (haystack needle : string) :
  ∀ base k,
  k ≤ len haystack → HasPrefix (drop k haystack) needle = true →
  base + k ∈ occurrences_from base haystack needle.
Proof.
  induction haystack as [|c r IH]; intros base k Hk Hp.
  - assert (k = 0) as -> by (unfold len in Hk; simpl in Hk; lia).
    rewrite occurrences_from_nil.
    change (HasPrefix "" needle = true) in Hp. rewrite Hp, Nat.add_0_r.
    left.
  - rewrite occurrences_from_cons. apply elem_of_app.
    destruct k as [|k].
    + left. change (HasPrefix (String c r) needle = true) in Hp.
      rewrite Hp, Nat.add_0_r. left.
    + right. replace (base + S k) with (S base + k) by lia.
      apply IH; [unfold len in *; simpl in Hk; lia | done].
Qed.

(** The one occurrence of a text is where a decomposition of the document
    puts it. *)
Lemma occurrences_at (a old b : string) (off : nat) :
  occurrences (a +:+ old +:+ b) old = [off] → off = len a.
Proof.
  intros H.
  assert (len a ∈ occurrences (a +:+ old +:+ b) old) as Hin.
  { apply (occurrences_from_complete _ _ 0 (len a)).
    - rewrite len_app. lia.
    - rewrite drop_app_len. apply HasPrefix_app. }
  rewrite H in Hin. by apply list_elem_of_singleton in Hin.
Qed.

(** Materializing one edit. *)
Lemma Bytes_one (orig : string) (e : edit) :
  Bytes {| old := orig; q := [e] |}
  = Ok (take (e_start e) orig +:+ e_new e +:+ drop (e_end e) orig).
Proof. unfold Bytes. simpl. by rewrite Nat.sub_0_r. Qed.

(** Materializing two edits, the first ending before the second starts
    and the second holding bytes of the document, in whichever order they
    were registered. *)
Lemma Bytes_two (orig : string) (e1 e2 : edit) (l : list edit) :
  e_start e1 < e_start e2 → e_end e1 ≤ e_start e2 →
  e_start e2 < e_end e2 → e_end e2 ≤ len orig →
  l = [e1; e2] ∨ l = [e2; e1] →
  Bytes {| old := orig; q := l |}
  = Ok (take (e_start e1) orig +:+ e_new e1 +:+
        take (e_start e2 - e_end e1) (drop (e_end e1) orig) +:+
        e_new e2 +:+ drop (e_end e2) orig).
Proof.
  intros Hlt Hle Hne Hin Hl. unfold Bytes. cbn [old q].
  assert (sort_by_start l = [e1; e2]) as ->.
  { destruct Hl as [->| ->]; simpl; unfold before.
    - by rewrite (proj2 (Nat.ltb_lt _ _) Hlt).
    - rewrite (proj2 (Nat.ltb_ge _ _)) by lia.
      rewrite (proj2 (Nat.eqb_neq _ _)) by lia. done. }
  assert (incompatible orig e1 e2 = false) as Hc.
  { unfold incompatible, whole, spans_intersect.
    rewrite (proj2 (Nat.eqb_neq (e_end e1) _)) by lia.
    rewrite (proj2 (Nat.eqb_neq (e_start e2) _)) by lia.
    rewrite (proj2 (Nat.ltb_ge (e_start e2) _)) by lia.
    by rewrite !andb_false_r. }
  simpl. rewrite Hc. simpl. by rewrite Nat.sub_0_r.
Qed.

(** A run on one document whose loop went through: the bytes the edits
    give are written, when the directory and the file can be. *)
Lemma patchRun_commits (p : PatchTool) (os : OSReplies) (input : PatchInput)
    (orig patched : string) (st : LoopState) :
  Patches input ≠ [] → snapshot os (Patches input) = Some orig →
  onMkdirAll os = None → onWriteFile os = None →
  patchLoop X orig 0 (Patches input) (initial p orig) = Continue st →
  patchErr st = None → Bytes (buf st) = Ok patched →
  let path := resolved_path X p input in
  ∃ resp d,
    patchRun X p os input =
    Returned (ToolOutOK resp d) (cb st)
      [EvReadFile path; EvMkdirAll (filepath_Dir X path);
       EvWriteFile path patched]
    ∧ d_oldContent d = orig ∧ d_newContent d = patched
    ∧ r_clipboardsModified resp = clipboardsModified st.
Proof.
  intros Hne Hs Hm Hw Hl He Hb. cbn zeta.
  rewrite (patchRun_snapshot X p os input orig Hne Hs).
  unfold patchApply, patchFinish. cbn zeta.
  rewrite Hl, He, Hb, Hm, Hw.
  eexists _, _. split; [reflexivity |]. done.
Qed.

(** An operation that is not a replace and captures nothing: the edit it
    registers. *)
Lemma patchStep_creation (orig : string) (i : nat) (patch : PatchRequest)
    (st : LoopState) (t : string) :
  ToClipboard patch = "" → creates patch = true →
  resolve_newText patch (cb st) = Ok t →
  patchStep X orig i patch st =
  Continue (set_buf st
    (Replace (buf st)
       (if decide (Operation patch = "append_eof") then len orig else 0)
       (if decide (Operation patch = "prepend_bof") then 0 else len orig)
       t)).
Proof.
  intros Hto Hc Hr. unfold patchStep, resolve_and_apply.
  rewrite decide_True by done. rewrite Hr. unfold operation_case, Insert.
  unfold creates in Hc.
  destruct (decide (Operation patch = "prepend_bof")) as [E|E1].
  { by rewrite E. }
  destruct (decide (Operation patch = "append_eof")) as [E|E2]; [done |].
  destruct (decide (Operation patch = "overwrite")) as [E|E3]; [done |].
  by rewrite !bool_decide_eq_false_2 in Hc by done.
Qed.

(** Two creating operations that differ in their kind and old text only
    do the same on an empty document. *)
Lemma patchStep_same_creation (i : nat) (a b : PatchRequest)
    (st : LoopState) :
  same_creation a b → patchStep X "" i a st = patchStep X "" i b st.
Proof.
  intros (Ha & Hb & Hn & Hto & Hf & Hr).
  assert (resolve_newText a (cb st) = resolve_newText b (cb st)) as Hres.
  { unfold resolve_newText. by rewrite Hn, Hf, Hr. }
  assert (∀ q, creates q = true → Operation q ≠ "replace") as Hnr.
  { intros q Hq E. unfold creates in Hq. rewrite E in Hq. done. }
  destruct (decide (ToClipboard a = "")) as [E|E].
  - destruct (resolve_newText a (cb st)) as [t|e] eqn:Ht.
    + rewrite (patchStep_creation "" i a st t), (patchStep_creation "" i b st t);
        try done; [| congruence].
      by repeat case_decide.
    + unfold patchStep, resolve_and_apply.
      rewrite !decide_True by congruence. by rewrite <- Hres, Ht.
  - unfold patchStep.
    rewrite (decide_False (P := ToClipboard a = "")) by done.
    rewrite (decide_False (P := ToClipboard b = "")) by congruence.
    rewrite !(decide_False (P := _ = "replace")) by auto.
    by rewrite Hto.
Qed.

Lemma patchLoop_same_creation (l1 l2 : list PatchRequest) :
  Forall2 same_creation l1 l2 →
  ∀ i st, patchLoop X "" i l1 st = patchLoop X "" i l2 st.
Proof.
  induction 1 as [|a b l1 l2 Hab Hl IH]; intros i st; [done |].
  simpl. rewrite (patchStep_same_creation i a b st Hab).
  destruct (patchStep X "" i b st); [apply IH | done | done].
Qed.

(** Two patches that agree on the fields read do the same. *)
Lemma patchStep_same_effect (orig : string) (i : nat) (a b : PatchRequest)
    (st : LoopState) :
  same_effect a b → patchStep X orig i a st = patchStep X orig i b st.
Proof.
  destruct a as [oa olda na ta fa ra], b as [ob oldb nb tb fb rb].
  intros (Ho & Ht & Hf & Hr & Hn & Hold). simpl in *. subst ob tb fb rb.
  unfold patchStep, resolve_and_apply, resolve_newText, operation_case.
  simpl.
  destruct (decide (oa = "replace")) as [->|Hop].
  - rewrite <- (Hold eq_refl).
    destruct (decide (fa = "")) as [->|Hfa]; [by rewrite <- Hn |].
    reflexivity.
  - destruct (decide (fa = "")) as [->|Hfa]; [by rewrite <- Hn |].
    reflexivity.
Qed.

Lemma patchLoop_same_effect (orig : string) (l1 l2 : list PatchRequest) :
  Forall2 same_effect l1 l2 →
  ∀ i st, patchLoop X orig i l1 st = patchLoop X orig i l2 st.
Proof.
  induction 1 as [|a b l1 l2 Hab Hl IH]; intros i st; [done |].
  simpl. rewrite (patchStep_same_effect orig i a b st Hab).
  destruct (patchStep X orig i b st); [apply IH | done | done].
Qed.

End OperationFacts.

(** X10.  The copy recipe: a replace that names the same clipboard as
    toClipboard and fromClipboard does what the replace of the old text by
    itself does (with the same capture and the same reindent), whatever
    the clipboard held before: the capture comes first, so the text pasted
    is the old text. *)
Theorem copy_recipe (X : Externals) (orig : string) (i : nat)
    (patch : PatchRequest) (st : LoopState) :
  Operation patch = "replace" → OldText patch ≠ "" →
  ToClipboard patch ≠ "" → FromClipboard patch = ToClipboard patch →
  patchStep X orig i patch st =
  patchStep X orig i
    {| Operation := "replace"; OldText := OldText patch;
       NewText := OldText patch; ToClipboard := ToClipboard patch;
       FromClipboard := ""; PReindent := PReindent patch |} st.
Proof.
  destruct patch as [o old new to from re]. simpl.
  intros -> Hold Hto ->.
  unfold patchStep, resolve_and_apply, resolve_newText. simpl.
  destruct (decide (to = "")) as [|_]; [done |].
  destruct (decide (old = "")) as [|_]; [done |].
  rewrite lookup_insert_eq. reflexivity.
Qed.

Lemma copy_recipe_witness :
  patchStep Demo.X "abc" 0
    {| Operation := "replace"; OldText := "b"; NewText := "ignored";
       ToClipboard := "c1"; FromClipboard := "c1"; PReindent := None |}
    (initial (Demo.tool {["c1" := "stale"]}) "abc")
  = patchStep Demo.X "abc" 0
      {| Operation := "replace"; OldText := "b"; NewText := "b";
         ToClipboard := "c1"; FromClipboard := ""; PReindent := None |}
      (initial (Demo.tool {["c1" := "stale"]}) "abc").
Proof.
  apply (copy_recipe Demo.X "abc" 0
           {| Operation := "replace"; OldText := "b";
              NewText := "ignored"; ToClipboard := "c1";
              FromClipboard := "c1"; PReindent := None |}
           (initial (Demo.tool {["c1" := "stale"]}) "abc"));
    by vm_compute.
Defined.

(** X11.  What a batch of one operation writes, when the directory and
    the file can be written, [t] being the text it resolves to: prepend_bof
    writes [t] followed by the document, append_eof the document followed
    by [t], overwrite [t] alone; a replace whose old text occurs exactly
    once writes the document with that occurrence replaced by [t].  The
    file is read, its directory made, and the file written once; the
    response carries no note. *)
Theorem single_operation (X : Externals) (p : PatchTool) (os : OSReplies)
    (input : PatchInput) (patch : PatchRequest) (orig t patched : string) :
  Patches input = [patch] → snapshot os [patch] = Some orig →
  onMkdirAll os = None → onWriteFile os = None →
  resolve_newText patch (captured patch (clipboards p)) = Ok t →
  (Operation patch = "prepend_bof" ∧ ToClipboard patch = ""
   ∧ patched = t +:+ orig)
  ∨ (Operation patch = "append_eof" ∧ ToClipboard patch = ""
     ∧ patched = orig +:+ t)
  ∨ (Operation patch = "overwrite" ∧ ToClipboard patch = "" ∧ patched = t)
  ∨ (Operation patch = "replace" ∧ OldText patch ≠ ""
     ∧ ∃ a b off,
         orig = a +:+ OldText patch +:+ b
         ∧ patchkit.occurrences orig (OldText patch) = [off]
         ∧ patched = a +:+ t +:+ b) →
  let path := resolved_path X p input in
  ∃ resp d,
    patchRun X p os input =
    Returned (ToolOutOK resp d) (captured patch (clipboards p))
      [EvReadFile path; EvMkdirAll (filepath_Dir X path);
       EvWriteFile path patched]
    ∧ d_oldContent d = orig ∧ d_newContent d = patched
    ∧ r_clipboardsModified resp = [].
Proof.
  intros Hp Hs Hm Hw Hr Hop. cbn zeta.
  assert (∃ st, patchStep X orig 0 patch (initial p orig) = Continue st
                ∧ patchErr st = None
                ∧ editbuf.Bytes (buf st) = Ok patched
                ∧ cb st = captured patch (clipboards p)
                ∧ clipboardsModified st = []) as (st & Hst & He & Hb & Hc & Hn).
  { destruct Hop as [(Ho & Hto & ->)|[(Ho & Hto & ->)|[(Ho & Hto & ->)
                    |(Ho & Hold & a & b & off & Horig & Hocc & ->)]]].
    - eexists. split.
      + apply patchStep_creation; [done | | ].
        * unfold creates. by rewrite Ho.
        * unfold captured in Hr. by rewrite decide_True in Hr.
      + rewrite Ho. simpl. unfold captured. rewrite decide_True by done.
        split_and!; try done.
        all: unfold editbuf.Replace, editbuf.NewBuffer;
          cbn [app editbuf.q editbuf.old]; rewrite Bytes_one; simpl;
          by rewrite app_nil_l.
    - eexists. split.
      + apply patchStep_creation; [done | | ].
        * unfold creates. by rewrite Ho.
        * unfold captured in Hr. by rewrite decide_True in Hr.
      + rewrite Ho. simpl. unfold captured. rewrite decide_True by done.
        split_and!; try done.
        all: unfold editbuf.Replace, editbuf.NewBuffer;
          cbn [app editbuf.q editbuf.old]; rewrite Bytes_one; simpl;
          by rewrite take_len, drop_all, app_empty_r.
    - eexists. split.
      + apply patchStep_creation; [done | | ].
        * unfold creates. by rewrite Ho.
        * unfold captured in Hr. by rewrite decide_True in Hr.
      + rewrite Ho. simpl. unfold captured. rewrite decide_True by done.
        split_and!; try done.
        all: unfold editbuf.Replace, editbuf.NewBuffer;
          cbn [app editbuf.q editbuf.old]; rewrite Bytes_one; simpl;
          by rewrite drop_all, app_empty_r.
    - eexists. split.
      + eapply (patchStep_found X orig 0 patch (initial p orig) t ExactUnique);
          [done | done | exact Hr |].
        apply ladder_exact. eauto.
      + simpl. split_and!; try done.
        unfold patchkit.ApplyToEditBuf, editbuf.Replace, editbuf.NewBuffer.
        cbn [app editbuf.q editbuf.old patchkit.Off patchkit.Len
             patchkit.New].
        rewrite Bytes_one. simpl.
        assert (off = GoStrings.len a) as ->.
        { rewrite Horig in Hocc. by apply occurrences_at in Hocc. }
        rewrite Horig at 1 2.
        by rewrite take_app_len, drop_len_app2. }
  destruct (patchRun_commits X p os input orig patched st)
    as (resp & d & Hrun & Ho & Hnew & Hnotes); try done.
  - by rewrite Hp.
  - by rewrite Hp.
  - rewrite Hp. simpl. by rewrite Hst.
  - exists resp, d. rewrite Hrun, Hc. split_and!; try done. congruence.
Qed.

Lemma single_operation_witness :
  ∃ resp d,
    patchRun Demo.X (Demo.tool ∅) (Demo.os_ok "abc")
      {| Path := "f.txt"; Patches := [Demo.op "replace" "b" "xy"] |} =
    Returned (ToolOutOK resp d)
      (captured (Demo.op "replace" "b" "xy") ∅)
      [EvReadFile "/w/f.txt"; EvMkdirAll "/w";
       EvWriteFile "/w/f.txt" "axyc"]
    ∧ d_oldContent d = "abc" ∧ d_newContent d = "axyc"
    ∧ r_clipboardsModified resp = [].
Proof.
  apply (single_operation Demo.X (Demo.tool ∅) (Demo.os_ok "abc")
           {| Path := "f.txt"; Patches := [Demo.op "replace" "b" "xy"] |}
           (Demo.op "replace" "b" "xy") "abc" "xy" "axyc");
    try (by vm_compute).
  right. right. right. split_and!; try (by vm_compute).
  exists "a", "c", 1. by vm_compute.
Defined.

(** X12.  Two replaces of one batch are matched against the document as
    read, not against the result of the other: when each old text occurs
    exactly once in the document and the two occurrences do not overlap,
    both are replaced, in whichever order the batch lists them, whatever
    the replacement texts hold. *)
Theorem replaces_apply_simultaneously (X : Externals) (p : PatchTool)
    (os : OSReplies) (input : PatchInput) (x y : PatchRequest)
    (orig tx ty a b c patched : string) :
  Patches input = [x; y] → onReadFile os = ReadOK orig →
  onMkdirAll os = None → onWriteFile os = None →
  Operation x = "replace" → Operation y = "replace" →
  OldText x ≠ "" → OldText y ≠ "" →
  resolve_newText x (captured x (clipboards p)) = Ok tx →
  resolve_newText y (captured y (captured x (clipboards p))) = Ok ty →
  (∃ off, patchkit.occurrences orig (OldText x) = [off]) →
  (∃ off, patchkit.occurrences orig (OldText y) = [off]) →
  (orig = a +:+ OldText x +:+ b +:+ OldText y +:+ c
   ∧ patched = a +:+ tx +:+ b +:+ ty +:+ c)
  ∨ (orig = a +:+ OldText y +:+ b +:+ OldText x +:+ c
     ∧ patched = a +:+ ty +:+ b +:+ tx +:+ c) →
  let path := resolved_path X p input in
  ∃ resp d,
    patchRun X p os input =
    Returned (ToolOutOK resp d) (captured y (captured x (clipboards p)))
      [EvReadFile path; EvMkdirAll (filepath_Dir X path);
       EvWriteFile path patched]
    ∧ d_oldContent d = orig ∧ d_newContent d = patched.
Proof.
  intros Hp Hread Hm Hw Hox Hoy Holdx Holdy Hrx Hry [ox Hoccx] [oy Hoccy] Hdoc.
  cbn zeta.
  set (ex := {| e_start := ox; e_end := ox + GoStrings.len (OldText x);
                e_new := tx |}).
  set (ey := {| e_start := oy; e_end := oy + GoStrings.len (OldText y);
                e_new := ty |}).
  set (st1 := set_buf (set_cb (initial p orig) (captured x (clipboards p)))
                (editbuf.Replace (editbuf.NewBuffer orig) (e_start ex)
                   (e_end ex) tx)).
  assert (patchStep X orig 0 x (initial p orig) = Continue st1) as Hs1.
  { rewrite (patchStep_found X orig 0 x (initial p orig) tx ExactUnique
               {| patchkit.Off := ox;
                  patchkit.Len := GoStrings.len (OldText x);
                  patchkit.New := tx |}); try done.
    apply ladder_exact. eauto. }
  set (st2 := set_buf (set_cb st1 (captured y (cb st1)))
                (editbuf.Replace (buf st1) (e_start ey) (e_end ey) ty)).
  assert (patchStep X orig 1 y st1 = Continue st2) as Hs2.
  { rewrite (patchStep_found X orig 1 y st1 ty ExactUnique
               {| patchkit.Off := oy;
                  patchkit.Len := GoStrings.len (OldText y);
                  patchkit.New := ty |}); try done.
    apply ladder_exact. eauto. }
  assert (0 < GoStrings.len (OldText x)) as Hlx.
  { destruct (OldText x); [done | unfold GoStrings.len; simpl; lia]. }
  assert (0 < GoStrings.len (OldText y)) as Hly.
  { destruct (OldText y); [done | unfold GoStrings.len; simpl; lia]. }
  assert (editbuf.Bytes (buf st2) = Ok patched) as Hb.
  { assert (buf st2 = {| editbuf.old := orig; editbuf.q := [ex; ey] |})
      as -> by reflexivity.
    destruct Hdoc as [[Horig ->]|[Horig ->]].
    - assert (ox = GoStrings.len a) as Eox.
      { rewrite Horig in Hoccx. by apply occurrences_at in Hoccx. }
      assert (oy = GoStrings.len a + GoStrings.len (OldText x)
                   + GoStrings.len b) as Eoy.
      { rewrite Horig in Hoccy.
        rewrite <- (app_assoc_str (OldText x)) in Hoccy.
        rewrite <- (app_assoc_str a) in Hoccy.
        apply occurrences_at in Hoccy. by rewrite Hoccy, !len_app, Nat.add_assoc. }
      rewrite (Bytes_two orig ex ey [ex; ey]); simpl;
        [| lia | lia | lia
         | rewrite Eoy, Horig, !len_app; lia | by left].
      f_equal. rewrite Eox, Eoy, Horig.
      rewrite take_app_len, drop_len_app2.
      replace (GoStrings.len a + GoStrings.len (OldText x) + GoStrings.len b
               - (GoStrings.len a + GoStrings.len (OldText x)))
        with (GoStrings.len b) by lia.
      by rewrite take_app_len, drop_len_app4.
    - assert (oy = GoStrings.len a) as Eoy.
      { rewrite Horig in Hoccy. by apply occurrences_at in Hoccy. }
      assert (ox = GoStrings.len a + GoStrings.len (OldText y)
                   + GoStrings.len b) as Eox.
      { rewrite Horig in Hoccx.
        rewrite <- (app_assoc_str (OldText y)) in Hoccx.
        rewrite <- (app_assoc_str a) in Hoccx.
        apply occurrences_at in Hoccx. by rewrite Hoccx, !len_app, Nat.add_assoc. }
      rewrite (Bytes_two orig ey ex [ex; ey]); simpl;
        [| lia | lia | lia
         | rewrite Eox, Horig, !len_app; lia | by right].
      f_equal. rewrite Eox, Eoy, Horig.
      rewrite take_app_len, drop_len_app2.
      replace (GoStrings.len a + GoStrings.len (OldText y) + GoStrings.len b
               - (GoStrings.len a + GoStrings.len (OldText y)))
        with (GoStrings.len b) by lia.
      by rewrite take_app_len, drop_len_app4. }
  destruct (patchRun_commits X p os input orig patched st2)
    as (resp & d & Hrun & Ho & Hnew & _); try done.
  - by rewrite Hp.
  - unfold snapshot. by rewrite Hread.
  - rewrite Hp. simpl. by rewrite Hs1, Hs2.
  - exists resp, d. by rewrite Hrun.
Qed.

Lemma replaces_apply_simultaneously_witness :
  ∃ resp d,
    patchRun Demo.X (Demo.tool ∅) (Demo.os_ok "one two")
      {| Path := "f.txt";
         Patches := [Demo.op "replace" "two" "one";
                     Demo.op "replace" "one" "two"] |} =
    Returned (ToolOutOK resp d)
      (captured (Demo.op "replace" "one" "two")
         (captured (Demo.op "replace" "two" "one") ∅))
      [EvReadFile "/w/f.txt"; EvMkdirAll "/w";
       EvWriteFile "/w/f.txt" "two one"]
    ∧ d_oldContent d = "one two" ∧ d_newContent d = "two one".
Proof.
  apply (replaces_apply_simultaneously Demo.X (Demo.tool ∅)
           (Demo.os_ok "one two")
           {| Path := "f.txt";
              Patches := [Demo.op "replace" "two" "one";
                          Demo.op "replace" "one" "two"] |}
           (Demo.op "replace" "two" "one") (Demo.op "replace" "one" "two")
           "one two" "one" "two" "" " " "" "two one");
    try (by vm_compute).
  - exists 4. by vm_compute.
  - exists 0. by vm_compute.
  - right. by vm_compute.
Defined.

(** X13.  On an empty document, and on a file that does not exist,
    prepend_bof, append_eof and overwrite are one operation, and their old
    text is not looked at: two batches of such operations that agree on
    the new text, the clipboards named and the reindent of each operation
    end the same way, with the same output, calls and clipboards. *)
Theorem creations_agree_on_empty (X : Externals) (p : PatchTool)
    (os : OSReplies) (input1 input2 : PatchInput) :
  Path input1 = Path input2 →
  Forall2 same_creation (Patches input1) (Patches input2) →
  snapshot os (Patches input1) = Some "" →
  patchRun X p os input1 = patchRun X p os input2.
Proof.
  intros Hpath Hall Hs.
  assert (resolved_path X p input1 = resolved_path X p input2) as Hrp.
  { unfold resolved_path. by rewrite Hpath. }
  assert (snapshot os (Patches input2) = Some "") as Hs2.
  { unfold snapshot in *. destruct (onReadFile os); [done | | done].
    assert (forallb creates (Patches input2) = true) as ->; [| done].
    apply forallb_forall. intros q Hq%list_elem_of_In.
    apply (Forall2_Forall_r _ (λ q, creates q = true) (Patches input1)) in Hall.
    - rewrite Forall_forall in Hall. by apply Hall.
    - apply Forall_true. by intros a b (_ & Hb & _). }
  destruct (Patches input1) as [|a l1] eqn:E1;
    destruct (Patches input2) as [|b l2] eqn:E2;
    [| by inversion Hall | by inversion Hall |].
  { unfold patchRun. by rewrite E1, E2. }
  rewrite (patchRun_snapshot X p os input1 ""),
          (patchRun_snapshot X p os input2 "");
    try (by rewrite ?E1, ?E2).
  unfold patchApply. cbn zeta. rewrite Hrp, E1, E2.
  by rewrite (patchLoop_same_creation X _ _ Hall).
Qed.

Lemma creations_agree_on_empty_witness :
  patchRun Demo.X (Demo.tool ∅) Demo.os_missing
    {| Path := "new.txt";
       Patches := [Demo.op "overwrite" "" "a"; Demo.op "append_eof" "" "b"] |}
  = patchRun Demo.X (Demo.tool ∅) Demo.os_missing
      {| Path := "new.txt";
         Patches := [Demo.op "prepend_bof" "zz" "a";
                     Demo.op "overwrite" "" "b"] |}.
Proof.
  apply (creations_agree_on_empty Demo.X (Demo.tool ∅) Demo.os_missing
           {| Path := "new.txt";
              Patches := [Demo.op "overwrite" "" "a";
                          Demo.op "append_eof" "" "b"] |}
           {| Path := "new.txt";
              Patches := [Demo.op "prepend_bof" "zz" "a";
                          Demo.op "overwrite" "" "b"] |}).
  - reflexivity.
  - repeat constructor.
  - reflexivity.
Defined.

(** X14.  What a run does not look at: the new text of an operation that
    pastes from a clipboard, and the old text of an operation that is not
    a replace.  Two batches on the same path whose operations agree on
    everything else end the same way, with the same output, calls and
    clipboards. *)
Theorem ignored_fields (X : Externals) (p : PatchTool) (os : OSReplies)
    (input1 input2 : PatchInput) :
  Path input1 = Path input2 →
  Forall2 same_effect (Patches input1) (Patches input2) →
  patchRun X p os input1 = patchRun X p os input2.
Proof.
  intros Hpath Hall.
  assert (resolved_path X p input1 = resolved_path X p input2) as Hrp.
  { unfold resolved_path. by rewrite Hpath. }
  assert (forallb creates (Patches input1) = forallb creates (Patches input2))
    as Hcr.
  { induction Hall as [|a b l1 l2 (Ho & _) _ IH]; [done |].
    simpl. rewrite IH. unfold creates. by rewrite Ho. }
  unfold patchRun, patchApply. cbn zeta. rewrite Hrp, Hcr.
  destruct (Patches input1) as [|a l1] eqn:E1;
    destruct (Patches input2) as [|b l2] eqn:E2;
    [done | by inversion Hall | by inversion Hall |].
  destruct (onReadFile os) as [data| |err]; [| | done].
  - by rewrite (patchLoop_same_effect X data _ _ Hall).
  - destruct (forallb creates (b :: l2)); [| done].
    by rewrite (patchLoop_same_effect X "" _ _ Hall).
Qed.

Lemma ignored_fields_witness :
  patchRun Demo.X (Demo.tool {["c1" := "x"]}) (Demo.os_ok "abc")
    {| Path := "f.txt";
       Patches := [ {| Operation := "replace"; OldText := "b";
                       NewText := "ignored"; ToClipboard := "";
                       FromClipboard := "c1"; PReindent := None |};
                    Demo.op "append_eof" "ignored" "z" ] |}
  = patchRun Demo.X (Demo.tool {["c1" := "x"]}) (Demo.os_ok "abc")
      {| Path := "f.txt";
         Patches := [ {| Operation := "replace"; OldText := "b";
                         NewText := ""; ToClipboard := "";
                         FromClipboard := "c1"; PReindent := None |};
                      Demo.op "append_eof" "" "z" ] |}.
Proof.
  apply (ignored_fields Demo.X (Demo.tool {["c1" := "x"]}) (Demo.os_ok "abc")
           {| Path := "f.txt";
              Patches := [ {| Operation := "replace"; OldText := "b";
                              NewText := "ignored"; ToClipboard := "";
                              FromClipboard := "c1"; PReindent := None |};
                           Demo.op "append_eof" "ignored" "z" ] |}
           {| Path := "f.txt";
              Patches := [ {| Operation := "replace"; OldText := "b";
                              NewText := ""; ToClipboard := "";
                              FromClipboard := "c1"; PReindent := None |};
                           Demo.op "append_eof" "" "z" ] |}).
  - reflexivity.
  - repeat constructor; done.
Defined.


(** * patchParse and Run *)

(** Tactics for the case analyses on what the decoders answer. *)
Ltac unpack :=
  repeat match goal with
         | H : ∃ _, _ |- _ => destruct H
         | H : _ ∧ _ |- _ => destruct H
         end;
  simplify_eq.

Ltac accept := solve [repeat (eexists || split); (done || congruence)].

Ltac forms :=
  split;
  [ let Hres := fresh "Hres" in
    intros Hres; try discriminate Hres; try (injection Hres as <-);
    first [ left; accept
          | right; split; [intros ? ?; unpack; congruence | accept]
          | right; split; [intros ? ?; unpack; congruence | assumption] ]
  | let Hacc := fresh "Hacc" in
    let Hno := fresh "Hno" in
    let Hrest := fresh "Hrest" in
    intros [Hacc|[Hno Hrest]];
    [ unpack; congruence
    | first [ assumption
            | solve [unpack; congruence]
            | exfalso; eapply Hno; accept ] ] ].

Section ParseFacts.

Variable X : Externals.
Variable J : JSON.

(** The clipboards a call of [Run] leaves. *)
Lemma Run_clipboards (Callback : option PatchCallback) (p : PatchTool)
    (os : OSReplies) (m : string) :
  outcome_clipboards (Run X J Callback p os m) =
  match patchParse J m with
  | Parsed input => clipboards_of (patchRun X p os input)
  | ParseFailed _ => clipboards p
  end.
Proof.
  unfold Run. destruct (patchParse J m) as [input|err]; [| done].
  by destruct (patchRun X p os input).
Qed.

Lemma Run_keeps_clipboard (Callback : option PatchCallback) (p : PatchTool)
    (os : OSReplies) (m : string) (name : string) :
  is_Some (clipboards p !! name) →
  is_Some (outcome_clipboards (Run X J Callback p os m) !! name).
Proof.
  intros H. rewrite Run_clipboards.
  destruct (patchParse J m) as [input|err]; [| done].
  by apply patchRun_keeps_clipboard.
Qed.

(** The forms, stage by stage. *)
Lemma parse_string_forms (m : string) (originalErr : option json_error)
    (input : PatchInput) :
  parse_string J m originalErr = Parsed input ↔
  accepts_string_one J m input
  ∨ ((∀ i, ¬ accepts_string_one J m i) ∧ accepts_string_array J m input).
Proof.
  unfold accepts_string_one, accepts_string_array, parse_string,
    parse_failure.
  cbn zeta.
  destruct (Unmarshal_PatchInputOneString J m) as [v3|e3] eqn:E3;
    [destruct (decide (string_Patches v3 = "")) as [P3|P3] |].
  1,3: destruct originalErr; split;
    [done | intros [?|[_ ?]]; unpack; congruence
    | done | intros [?|[_ ?]]; unpack; congruence].
  destruct (Unmarshal_PatchRequest J (string_Patches v3)) as [q4|e4] eqn:E4;
    [destruct (decide (Operation q4 = "")) as [P4|P4] |].
  all: destruct (Unmarshal_PatchRequests J (string_Patches v3))
         as [l5|e5] eqn:E5.
  all: simpl; try (destruct (keep_first _ _)).
  all: forms.
Qed.

Lemma parse_singular_forms (m : string) (originalErr : option json_error)
    (input : PatchInput) :
  parse_singular J m originalErr = Parsed input ↔
  accepts_singular J m input
  ∨ ((∀ i, ¬ accepts_singular J m i)
     ∧ (accepts_string_one J m input
        ∨ ((∀ i, ¬ accepts_string_one J m i)
           ∧ accepts_string_array J m input))).
Proof.
  unfold parse_singular. cbn zeta.
  destruct (Unmarshal_PatchInputOneSingular J m) as [v2|e2] eqn:E2;
    [destruct (singular_Patch v2) as [q2|] eqn:P2 |].
  2,3: rewrite parse_string_forms.
  all: unfold accepts_singular; rewrite E2; forms.
Qed.

Lemma parse_one_forms (m : string) (originalErr : option json_error)
    (input : PatchInput) :
  parse_one J m originalErr = Parsed input ↔
  accepts_one J m input
  ∨ ((∀ i, ¬ accepts_one J m i)
     ∧ (accepts_singular J m input
        ∨ ((∀ i, ¬ accepts_singular J m i)
           ∧ (accepts_string_one J m input
              ∨ ((∀ i, ¬ accepts_string_one J m i)
                 ∧ accepts_string_array J m input))))).
Proof.
  unfold parse_one. cbn zeta.
  destruct (Unmarshal_PatchInputOne J m) as [v1|e1] eqn:E1;
    [destruct (one_Patches v1) as [q1|] eqn:P1 |].
  2,3: rewrite parse_singular_forms.
  all: unfold accepts_one; rewrite E1; forms.
Qed.

Lemma patchParse_stages (m : string) (input : PatchInput) :
  patchParse J m = Parsed input ↔
  accepts_standard J m input
  ∨ ((∀ i, ¬ accepts_standard J m i)
     ∧ (accepts_one J m input
        ∨ ((∀ i, ¬ accepts_one J m i)
           ∧ (accepts_singular J m input
              ∨ ((∀ i, ¬ accepts_singular J m i)
                 ∧ (accepts_string_one J m input
                    ∨ ((∀ i, ¬ accepts_string_one J m i)
                       ∧ accepts_string_array J m input))))))).
Proof.
  unfold patchParse. cbn zeta.
  destruct (Unmarshal_PatchInput J m) as [i0|e0] eqn:E0;
    [destruct (Patches i0) as [|q0 l0] eqn:P0 |].
  1,3: rewrite parse_one_forms.
  all: unfold accepts_standard; rewrite E0; forms.
Qed.

(** The error of a failed parse is the first of the decode errors. *)
Lemma parse_string_error (m : string) (originalErr : option json_error)
    (err : parse_error) :
  parse_string J m originalErr = ParseFailed err →
  err = match keep_first originalErr
                (head (omap id (drop 3 (decode_errors J m)))) with
        | Some e => ErrUnmarshalInput e m
        | None => ErrPatchesMissing m
        end.
Proof.
  unfold parse_string, decode_errors, parse_failure. cbn zeta.
  destruct (Unmarshal_PatchInputOneString J m) as [v3|e3] eqn:E3;
    [destruct (decide (string_Patches v3 = "")) as [P3|P3] |].
  1,3: destruct originalErr; simpl; by intros [= <-].
  destruct (Unmarshal_PatchRequest J (string_Patches v3)) as [q4|e4] eqn:E4;
    [destruct (decide (Operation q4 = "")) as [P4|P4] |].
  all: destruct (Unmarshal_PatchRequests J (string_Patches v3))
         as [l5|e5] eqn:E5.
  all: simpl; try done.
  all: destruct originalErr; simpl; by intros [= <-].
Qed.

Lemma patchParse_reported (m : string) (err : parse_error) :
  patchParse J m = ParseFailed err → err = reported_error J m.
Proof.
  unfold patchParse, parse_one, parse_singular, reported_error.
  cbn zeta. intros H.
  assert (∃ oe, parse_string J m oe = ParseFailed err
                ∧ oe = head (omap id (take 3 (decode_errors J m))))
    as (oe & Hs & Hoe).
  { unfold decode_errors. simpl.
    destruct (Unmarshal_PatchInput J m) as [i0|e0];
      [destruct (Patches i0); [| done] |].
    all: destruct (Unmarshal_PatchInputOne J m) as [v1|e1];
      [destruct (one_Patches v1); [done |] |].
    all: destruct (Unmarshal_PatchInputOneSingular J m) as [v2|e2];
      [destruct (singular_Patch v2); [done |] |].
    all: simpl in *; eauto. }
  apply parse_string_error in Hs. subst err oe.
  rewrite <- (take_drop 3 (decode_errors J m)) at 3.
  rewrite omap_app.
  destruct (omap id (take 3 (decode_errors J m))) as [|x l]; [done |].
  done.
Qed.

(** The calls of a run name the resolved path, and so does what a
    committed run displays. *)
Lemma patchRun_trace_paths (p : PatchTool) (os : OSReplies)
    (input : PatchInput) :
  let path := resolved_path X p input in
  Forall (λ ev, ev = EvReadFile path ∨ ev = EvMkdirAll (filepath_Dir X path)
                ∨ ∃ data, ev = EvWriteFile path data)
    (trace_of (patchRun X p os input)).
Proof.
  cbn zeta.
  destruct (patchRun_cases X p os input)
    as [[Hp ->]|[(Hp & _ & e & -> & _)|(orig & Hp & Hs & ->)]].
  - constructor.
  - repeat constructor.
  - unfold patchFinish.
    destruct (patchLoop X orig 0 (Patches input) (initial p orig))
      as [st| |]; [| repeat constructor | repeat constructor].
    destruct (patchErr st); [repeat constructor |].
    destruct (editbuf.Bytes (buf st)); [| repeat constructor].
    destruct (onMkdirAll os).
    { simpl. constructor; [by left |]. constructor; [| constructor].
      right. by left. }
    destruct (onWriteFile os); simpl.
    all: constructor; [by left |]; constructor; [right; by left |].
    all: constructor; [| constructor]; right; right; eauto.
Qed.

Lemma patchRun_display_path (p : PatchTool) (os : OSReplies)
    (input : PatchInput) (resp : Response) (d : PatchDisplayData)
    (c : gmap string string) (tr : list Event) :
  patchRun X p os input = Returned (ToolOutOK resp d) c tr →
  d_path d = resolved_path X p input.
Proof.
  intros H.
  destruct (patchRun_cases X p os input)
    as [[Hp E]|[(Hp & _ & e & E & _)|(orig & Hp & Hs & E)]];
    rewrite E in H; try done.
  unfold patchFinish in H.
  destruct (patchLoop X orig 0 (Patches input) (initial p orig))
    as [st|o c1|] eqn:Hl; [| | done].
  2: { injection H as -> _ _. by apply patchLoop_Return in Hl. }
  destruct (patchErr st); [done |].
  destruct (editbuf.Bytes (buf st)); [| done].
  destruct (onMkdirAll os); [done |].
  destruct (onWriteFile os); [done |].
  by injection H as _ <- _ _.
Qed.

End ParseFacts.


(** X15.  [patchParse] accepts five forms of a message, in this order,
    and reads the message as the first that applies: the standard form
    with at least one patch; the field patches holding one patch; the
    field patch; the field patches holding a string that decodes to one
    patch with an operation; that string decoding to an array of patches.
    A later form is used only when none before it applies. *)
Theorem patchParse_forms (J : JSON) (m : string) (input : PatchInput) :
  patchParse J m = Parsed input ↔
  accepts_standard J m input
  ∨ ((∀ i, ¬ accepts_standard J m i) ∧ accepts_one J m input)
  ∨ ((∀ i, ¬ accepts_standard J m i) ∧ (∀ i, ¬ accepts_one J m i)
     ∧ accepts_singular J m input)
  ∨ ((∀ i, ¬ accepts_standard J m i) ∧ (∀ i, ¬ accepts_one J m i)
     ∧ (∀ i, ¬ accepts_singular J m i) ∧ accepts_string_one J m input)
  ∨ ((∀ i, ¬ accepts_standard J m i) ∧ (∀ i, ¬ accepts_one J m i)
     ∧ (∀ i, ¬ accepts_singular J m i)
     ∧ (∀ i, ¬ accepts_string_one J m i)
     ∧ accepts_string_array J m input).
Proof. rewrite patchParse_stages. tauto. Qed.

(** X16.  A failed parse reports the first error among the decodes it
    made, in the order: the standard form, the one-patch form, the
    singular form and, when the string form decoded to a non-empty string,
    that string as one patch and as an array; an error of decoding the
    string form itself is never reported.  When none of these decodes
    failed the error says that the patches field is missing or empty.
    Either way the error quotes the message. *)
Theorem patchParse_error (J : JSON) (m : string) (err : parse_error) :
  patchParse J m = ParseFailed err →
  err = match head (omap id (decode_errors J m)) with
        | Some e => ErrUnmarshalInput e m
        | None => ErrPatchesMissing m
        end.
Proof. apply patchParse_reported. Qed.

Lemma patchParse_error_witness :
  ErrUnmarshalInput (JSONError "invalid character") "patch it" =
  match head (omap id (decode_errors DemoJSON.garbage "patch it")) with
  | Some e => ErrUnmarshalInput e "patch it"
  | None => ErrPatchesMissing "patch it"
  end.
Proof.
  apply (patchParse_error DemoJSON.garbage "patch it"). reflexivity.
Defined.

(** X17.  A message is parsed into a batch with no patch only through the
    string form, the string holding an array that decodes to no patch:
    every other form gives at least one patch.  [Run] then answers that no
    patches were provided, calls nothing and leaves the clipboards as they
    were; the callback, if any, is given the input with its path resolved
    and that answer. *)
Theorem parsed_empty_batch (X : Externals) (J : JSON)
    (Callback : option PatchCallback) (p : PatchTool) (os : OSReplies)
    (m : string) (input : PatchInput) :
  patchParse J m = Parsed input → Patches input = [] →
  accepts_string_array J m input
  ∧ Run X J Callback p os m =
    Done (respond Callback
            {| Path := resolved_path X p input; Patches := [] |}
            (RunOut (ErrorToolOut ErrNoPatches)))
      (clipboards p) [].
Proof.
  intros Hparse Hp. split.
  - apply patchParse_stages in Hparse.
    destruct Hparse as [[_ H]|[_ [H|[_ [H|[_ [H|[_ H]]]]]]]]; try done.
    all: destruct H as (v & patch & H); unpack; done.
  - unfold Run, patchRun. by rewrite Hparse, Hp.
Qed.

Lemma parsed_empty_batch_witness :
  accepts_string_array DemoJSON.J "m" {| Path := "f.txt"; Patches := [] |}
  ∧ Run Demo.X DemoJSON.J None (Demo.tool ∅) (Demo.os_ok "abc") "m" =
    Done (respond None
            {| Path := resolved_path Demo.X (Demo.tool ∅)
                         {| Path := "f.txt"; Patches := [] |};
               Patches := [] |}
            (RunOut (ErrorToolOut ErrNoPatches)))
      (clipboards (Demo.tool ∅)) [].
Proof.
  apply (parsed_empty_batch Demo.X DemoJSON.J None (Demo.tool ∅)
           (Demo.os_ok "abc") "m" {| Path := "f.txt"; Patches := [] |});
    reflexivity.
Defined.

(** X18.  Clipboards persist across the calls of a conversation: a
    clipboard the tool holds is still held after every later call,
    whatever the messages, the replies of the system and the ends of the
    calls; and (with no callback altering the outputs) no later call is
    rejected for that clipboard not existing. *)
Theorem session_keeps_clipboards (X : Externals) (J : JSON)
    (Callback : option PatchCallback) (calls : list Call)
    (c : gmap string string) (name : string) :
  is_Some (c !! name) →
  Forall (λ r, is_Some (outcome_clipboards r !! name))
    (session X J Callback c calls)
  ∧ Forall (λ r, ∀ c' tr,
              r ≠ Done (RunOut (ErrorToolOut (ErrFromClipboardMissing name)))
                    c' tr)
      (session X J None c calls).
Proof.
  revert c. induction calls as [|call rest IH]; intros c Hc; [done |].
  simpl. split.
  - constructor.
    + by apply Run_keeps_clipboard.
    + apply IH. by apply Run_keeps_clipboard.
  - constructor.
    + intros c' tr Hrun. unfold Run in Hrun.
      destruct (patchParse J (call_m call)) as [input|err]; [| done].
      destruct (patchRun X _ (call_os call) input) as [out c1 tr1|] eqn:E;
        [| done].
      simpl in Hrun. injection Hrun as -> -> ->.
      apply patchRun_missing_clipboard in E as (_ & Hnone & _).
      simpl in Hnone. rewrite Hnone in Hc. by destruct Hc.
    + apply IH. by apply Run_keeps_clipboard.
Qed.

Lemma session_keeps_clipboards_witness :
  Forall (λ r, is_Some (outcome_clipboards r !! "c1"))
    (session Demo.X
       (DemoJSON.standard "f.txt" [Demo.op_from "replace" "b" "c1"])
       None {["c1" := "x"]}
       [ {| call_dir := "/w"; call_os := Demo.os_ok "abc";
            call_m := "first" |};
         {| call_dir := "/w"; call_os := Demo.os_ok "zzz";
            call_m := "second" |} ])
  ∧ Forall (λ r, ∀ c' tr,
              r ≠ Done (RunOut (ErrorToolOut (ErrFromClipboardMissing "c1")))
                    c' tr)
      (session Demo.X
         (DemoJSON.standard "f.txt" [Demo.op_from "replace" "b" "c1"])
         None {["c1" := "x"]}
         [ {| call_dir := "/w"; call_os := Demo.os_ok "abc";
              call_m := "first" |};
           {| call_dir := "/w"; call_os := Demo.os_ok "zzz";
              call_m := "second" |} ]).
Proof.
  apply (session_keeps_clipboards Demo.X
           (DemoJSON.standard "f.txt" [Demo.op_from "replace" "b" "c1"])
           None
           [ {| call_dir := "/w"; call_os := Demo.os_ok "abc";
                call_m := "first" |};
             {| call_dir := "/w"; call_os := Demo.os_ok "zzz";
                call_m := "second" |} ]
           {["c1" := "x"]} "c1").
  exists "x". by vm_compute.
Defined.

(** X19.  What the callback of [Run] is given.  After a failed parse: the
    zero input and the parse error, nothing having been called and the
    clipboards being as they were.  Otherwise: the output of [patchRun]
    and the parsed input with its path resolved, which is the path every
    call of the run was made at (the directory made is the directory of
    that path) and the path a committed run displays. *)
Theorem callback_sees_the_run (X : Externals) (J : JSON)
    (Callback : option PatchCallback) (p : PatchTool) (os : OSReplies)
    (m : string) (output : Output) (c : gmap string string)
    (tr : list Event) :
  Run X J Callback p os m = Done output c tr →
  ∃ input out,
    output = respond Callback input out
    ∧ ((∃ err,
          patchParse J m = ParseFailed err ∧ out = ParseErrorOut err
          ∧ input = {| Path := ""; Patches := [] |}
          ∧ tr = [] ∧ c = clipboards p)
       ∨ (∃ parsed out',
            patchParse J m = Parsed parsed ∧ out = RunOut out'
            ∧ patchRun X p os parsed = Returned out' c tr
            ∧ Patches input = Patches parsed
            ∧ Path input = resolved_path X p parsed
            ∧ Forall (λ ev, ev = EvReadFile (Path input)
                            ∨ ev = EvMkdirAll (filepath_Dir X (Path input))
                            ∨ ∃ data, ev = EvWriteFile (Path input) data) tr
            ∧ (∀ resp d, out' = ToolOutOK resp d → d_path d = Path input))).
Proof.
  unfold Run. intros H.
  destruct (patchParse J m) as [parsed|err] eqn:Hparse.
  - destruct (patchRun X p os parsed) as [out' c1 tr1|] eqn:Hrun; [| done].
    injection H as <- <- <-.
    eexists _, _. split; [reflexivity |]. right.
    exists parsed, out'. split_and!; try done.
    + pose proof (patchRun_trace_paths X p os parsed) as Ht.
      by rewrite Hrun in Ht.
    + intros resp d ->. simpl. by eapply patchRun_display_path.
  - injection H as <- <- <-.
    eexists _, _. split; [reflexivity |]. left. eauto 10.
Qed.

Lemma callback_sees_the_run_witness :
  ∃ input out,
    RunOut (ErrorToolOut (ErrFileNotExist "/w/f.txt"))
    = respond None input out
    ∧ ((∃ err,
          patchParse (DemoJSON.standard "f.txt" [Demo.op "replace" "a" "b"])
            "m" = ParseFailed err
          ∧ out = ParseErrorOut err
          ∧ input = {| Path := ""; Patches := [] |}
          ∧ [EvReadFile "/w/f.txt"] = []
          ∧ (∅ : gmap string string) = clipboards (Demo.tool ∅))
       ∨ (∃ parsed out',
            patchParse (DemoJSON.standard "f.txt"
                          [Demo.op "replace" "a" "b"]) "m" = Parsed parsed
            ∧ out = RunOut out'
            ∧ patchRun Demo.X (Demo.tool ∅) Demo.os_missing parsed
              = Returned out' ∅ [EvReadFile "/w/f.txt"]
            ∧ Patches input = Patches parsed
            ∧ Path input = resolved_path Demo.X (Demo.tool ∅) parsed
            ∧ Forall (λ ev, ev = EvReadFile (Path input)
                            ∨ ev = EvMkdirAll
                                     (filepath_Dir Demo.X (Path input))
                            ∨ ∃ data, ev = EvWriteFile (Path input) data)
                [EvReadFile "/w/f.txt"]
            ∧ (∀ resp d, out' = ToolOutOK resp d → d_path d = Path input))).
Proof.
  apply (callback_sees_the_run Demo.X
           (DemoJSON.standard "f.txt" [Demo.op "replace" "a" "b"]) None
           (Demo.tool ∅) Demo.os_missing "m"
           (RunOut (ErrorToolOut (ErrFileNotExist "/w/f.txt"))) ∅
           [EvReadFile "/w/f.txt"]).
  by vm_compute.
Defined.


(** * An overwrite among other operations *)

Section OverwriteFacts.

Import GoStrings editbuf patchkit.

Variable X : Externals.

(** An iteration after which no error is recorded found none recorded and
    registered one edit; the edit of an overwrite replaces the span of the
    whole document by the text the operation resolves to. *)
Lemma patchStep_registers (orig : string) (i : nat) (patch : PatchRequest)
    (st st' : LoopState) :
  patchStep X orig i patch st = Continue st' → patchErr st' = None →
  patchErr st = None
  ∧ ∃ e, q (buf st') = q (buf st) ++ [e]
         ∧ (Operation patch = "overwrite" →
            e_start e = 0 ∧ e_end e = len orig
            ∧ resolve_newText patch (captured patch (cb st)) = Ok (e_new e)).
Proof.
  rewrite patchStep_spec.
  destruct (structural_error i patch (cb st)) eqn:Hs; [done |]. cbn zeta.
  destruct (resolve_newText patch _) as [newText|] eqn:Hres.
  2: { exfalso. unfold structural_error in Hs. rewrite Hres in Hs.
       repeat case_match; done. }
  destruct (decide (Operation patch = "replace")) as [Hop|Hop].
  - destruct (ladder X orig (OldText patch) newText) as [[] s| |].
    2,3,4: intros (Hb & He & _)%applied_with_clipboard_Continue Hnone;
      rewrite He in Hnone; split; [done |]; rewrite Hb; simpl;
      eexists; split; [done |]; intros Hov; by rewrite Hop in Hov.
    1,2: intros [= <-] Hnone; simpl in *; split; [done |];
      eexists; split; [done |]; intros Hov; by rewrite Hop in Hov.
    1,2: intros [= <-]; unfold join_patchErr, errors_Join; simpl;
      by destruct (patchErr st).
  - repeat case_decide; intros [= <-] Hnone; simpl in *; (split; [done |]);
      eexists; (split; [done |]); intros Hov; simpl; try done.
    all: congruence.
Qed.

(** A loop after which no error is recorded registered one edit per
    operation, in the order of the batch. *)
Lemma patchLoop_registers (orig : string) (patches : list PatchRequest) :
  ∀ i st st',
  patchLoop X orig i patches st = Continue st' → patchErr st' = None →
  patchErr st = None
  ∧ ∃ es, q (buf st') = q (buf st) ++ es ∧ length es = length patches
          ∧ ∀ k patch,
              patches !! k = Some patch → Operation patch = "overwrite" →
              ∃ t, es !! k = Some {| e_start := 0; e_end := len orig;
                                     e_new := t |}
                   ∧ (FromClipboard patch = "" → PReindent patch = None →
                      t = NewText patch).
Proof.
  induction patches as [|patch rest IH]; intros i st st' Hloop Hnone.
  { simpl in Hloop. injection Hloop as <-. split; [done |].
    exists []. by rewrite app_nil_r. }
  simpl in Hloop.
  destruct (patchStep X orig i patch st) as [st1| |] eqn:Hstep; try done.
  destruct (IH _ _ _ Hloop Hnone) as (Hnone1 & es & Hq & Hlen & Hov).
  destruct (patchStep_registers _ _ _ _ _ Hstep Hnone1)
    as (Hnone0 & e & Hq1 & He).
  split; [done |]. exists (e :: es). split_and!.
  - by rewrite Hq, Hq1, <- app_assoc.
  - simpl. by rewrite Hlen.
  - intros [|k] patch' Hk Hop; simpl in Hk; [| by apply Hov].
    injection Hk as <-. destruct (He Hop) as (Hs & Hend & Hres).
    exists (e_new e). split; [destruct e; simpl in *; by subst |].
    intros Hfrom Hre. unfold resolve_newText in Hres.
    rewrite decide_True, Hre in Hres by done. by injection Hres.
Qed.

(** The edit of the whole document is incompatible with every edit. *)
Lemma incompatible_whole (orig t : string) (e : edit) :
  incompatible orig {| e_start := 0; e_end := len orig; e_new := t |} e
  = true.
Proof. unfold incompatible, whole. simpl. by rewrite Nat.eqb_refl. Qed.

End OverwriteFacts.

(** C6.  A batch that holds an overwrite together with any other operation
    is never committed and the file is never written.  When every
    operation of the batch resolves and matches, each has registered one
    edit, in the order of the batch; the edit of the overwrite replaces the
    span from 0 to the length of the document and is incompatible with the
    edit of every other operation; and the batch is rejected when the edits
    are materialized, after the loop, with an overlap error naming two
    incompatible edits registered by two operations of the batch, the file
    having been read and nothing else. *)
Theorem overwrite_conflict (X : Externals) (p : PatchTool) (os : OSReplies)
    (input : PatchInput) (k : nat) (patch : PatchRequest) :
  Patches input !! k = Some patch → Operation patch = "overwrite" →
  2 ≤ length (Patches input) →
  let path := resolved_path X p input in
  let r := patchRun X p os input in
  no_write (trace_of r)
  ∧ (∀ out c tr, r = Returned out c tr → rejected out)
  ∧ (∀ orig st,
       snapshot os (Patches input) = Some orig →
       patchLoop X orig 0 (Patches input) (initial p orig) = Continue st →
       patchErr st = None →
       let edits := editbuf.q (buf st) in
       length edits = length (Patches input)
       ∧ (∃ t, edits !! k = Some {| e_start := 0;
                                    e_end := GoStrings.len orig;
                                    e_new := t |}
               ∧ (FromClipboard patch = "" → PReindent patch = None →
                  t = NewText patch)
               ∧ ∀ j e, j ≠ k → edits !! j = Some e →
                        editbuf.incompatible orig
                          {| e_start := 0; e_end := GoStrings.len orig;
                             e_new := t |} e = true)
       ∧ ∃ x y,
           r = Returned (ErrorToolOut (ErrOverlap x y)) (cb st)
                 [EvReadFile path]
           ∧ conflict orig edits x y).
Proof.
  intros Hk Hop Hlen. cbn zeta.
  assert (Patches input ≠ []) as Hne by (intros E; by rewrite E in Hk).
  assert (∀ orig st,
            patchLoop X orig 0 (Patches input) (initial p orig) = Continue st →
            patchErr st = None →
            length (editbuf.q (buf st)) = length (Patches input)
            ∧ (∃ t, editbuf.q (buf st) !! k
                    = Some {| e_start := 0; e_end := GoStrings.len orig;
                              e_new := t |}
                    ∧ (FromClipboard patch = "" → PReindent patch = None →
                       t = NewText patch))
            ∧ ∃ x y, editbuf.Bytes (buf st) = Err (ErrOverlap x y)
                     ∧ conflict orig (editbuf.q (buf st)) x y) as Hmain.
  { intros orig st Hloop Hnone.
    destruct (patchLoop_registers X _ _ _ _ _ Hloop Hnone)
      as (_ & es & Hq & Hles & Hov).
    destruct (patchLoop_Continue X _ _ _ _ _ Hloop) as (_ & _ & Hold & _).
    simpl in Hq, Hold. subst es.
    destruct (Hov k patch Hk Hop) as (t & Het & Ht).
    split; [done |]. split; [by exists t |].
    assert (∃ j e, j ≠ k ∧ editbuf.q (buf st) !! j = Some e)
      as (j & e & Hjk & Hj).
    { destruct (decide (k = 0)) as [->|Hk0].
      - destruct (lookup_lt_is_Some_2 (editbuf.q (buf st)) 1) as [e He];
          [lia |]. by exists 1, e.
      - destruct (lookup_lt_is_Some_2 (editbuf.q (buf st)) 0) as [e He];
          [lia |]. by exists 0, e. }
    rewrite <- Hold.
    apply (Bytes_conflict (buf st)
             {| e_start := 0; e_end := GoStrings.len orig; e_new := t |} e).
    exists k, j. rewrite Hold. split_and!; try done.
    apply incompatible_whole. }
  destruct (patchRun_cases X p os input)
    as [[Hp _]|[(_ & Hs & e & -> & _)|(orig & _ & Hs & ->)]]; [done | |].
  { split_and!; [done | by intros out c tr [= <- _ _] |].
    intros orig st Hs'. by rewrite Hs in Hs'. }
  destruct (patchLoop X orig 0 (Patches input) (initial p orig))
    as [st|out c|c] eqn:Hloop; simpl.
  - destruct (patchErr st) as [err|] eqn:Herr.
    { split_and!; [done | by intros out c tr [= <- _ _] |].
      intros orig' st' Hs'. rewrite Hs in Hs'. injection Hs' as <-.
      rewrite Hloop. intros [= <-]. by rewrite Herr. }
    destruct (Hmain orig st Hloop Herr) as (Hl & Ht & x & y & Hb & Hxy).
    rewrite Hb.
    split_and!; [done | by intros out c tr [= <- _ _] |].
    intros orig' st' Hs'. rewrite Hs in Hs'. injection Hs' as <-.
    rewrite Hloop. intros [= <-] _. split; [done |].
    split.
    + destruct Ht as (t & Het & Htt). exists t. split_and!; try done.
      intros j e _ _. apply incompatible_whole.
    + by exists x, y.
  - split_and!; [done | |].
    + intros out' c' tr [= <- _ _]. apply patchLoop_Return in Hloop.
      by destruct out.
    + intros orig' st' Hs'. rewrite Hs in Hs'. injection Hs' as <-.
      by rewrite Hloop.
  - split_and!; [done | done |].
    intros orig' st' Hs'. rewrite Hs in Hs'. injection Hs' as <-.
    by rewrite Hloop.
Qed.

(** An overwrite and an append on "abc": the two edits are registered,
    that of the overwrite on the span from 0 to 3, and the batch is rejected
    for their overlap. *)
Lemma overwrite_conflict_witness :
  no_write
    (trace_of
       (patchRun Demo.X (Demo.tool ∅) (Demo.os_ok "abc")
          {| Path := "f.txt";
             Patches := [Demo.op "overwrite" "" "y";
                         Demo.op "append_eof" "" "z"] |}))
  ∧ patchRun Demo.X (Demo.tool ∅) (Demo.os_ok "abc")
      {| Path := "f.txt";
         Patches := [Demo.op "overwrite" "" "y";
                     Demo.op "append_eof" "" "z"] |}
    = Returned
        (ErrorToolOut
           (ErrOverlap {| e_start := 0; e_end := 3; e_new := "y" |}
              {| e_start := 3; e_end := 3; e_new := "z" |}))
        ∅ [EvReadFile "/w/f.txt"].
Proof.
  split.
  - refine (proj1 (overwrite_conflict Demo.X (Demo.tool ∅) (Demo.os_ok "abc")
                     {| Path := "f.txt";
                        Patches := [Demo.op "overwrite" "" "y";
                                    Demo.op "append_eof" "" "z"] |}
                     0 (Demo.op "overwrite" "" "y") eq_refl eq_refl _)).
    simpl. lia.
  - by vm_compute.
Defined.


(** * The autogenerated flag *)

Section AutogeneratedFacts.

Import GoStrings.

Variable X : Externals.

Lemma autogeneratedHeaderSignals_eq :
  autogeneratedHeaderSignals X = header_phrases.
Proof. reflexivity. Qed.

Lemma existsb_elem_of {A} (f : A → bool) (l : list A) :
  existsb f l = true ↔ ∃ x, x ∈ l ∧ f x = true.
Proof.
  rewrite existsb_exists. split; intros (x & Hx & Hf); exists x;
    (split; [by apply list_elem_of_In | done]).
Qed.

Lemma Contains_cons (c : ascii) (r sub : string) :
  Contains (String c r) sub = HasPrefix (String c r) sub || Contains r sub.
Proof. reflexivity. Qed.

Lemma Contains_nil (sub : string) : Contains "" sub = HasPrefix "" sub.
Proof. unfold Contains. apply orb_false_r. Qed.

(** [strings.Contains] finds the text wherever it occurs. *)
Lemma Contains_occurs (s sub : string) :
  Contains s sub = true ↔ occurs sub s.
Proof.
  split.
  - induction s as [|c r IH].
    + rewrite Contains_nil. intros H%HasPrefix_split.
      by exists "", (drop (len sub) "").
    + rewrite Contains_cons. intros [H%HasPrefix_split|H]%orb_true_iff.
      * by exists "", (drop (len sub) (String c r)).
      * destruct (IH H) as (a & b & ->). by exists (String c a), b.
  - intros (a & b & ->). induction a as [|c a IH].
    + rewrite app_nil_l. destruct (sub +:+ b) as [|c r] eqn:E.
      * by rewrite Contains_nil, <- E, HasPrefix_app.
      * by rewrite Contains_cons, <- E, HasPrefix_app.
    + rewrite app_cons, Contains_cons, IH. apply orb_true_r.
Qed.

(** [strings.HasSuffix] with the extension of Go files. *)
Lemma HasSuffix_go (path : string) :
  HasSuffix path ".go" = true ↔ go_file path.
Proof.
  unfold HasSuffix, go_file. split.
  - intros [Hl He%String.eqb_eq]%andb_true_iff.
    exists (take (len path - len ".go") path).
    transitivity (take (len path - len ".go") path
                  +:+ drop (len path - len ".go") path).
    + by rewrite take_drop_str.
    + by rewrite He.
  - intros [stem ->]. rewrite len_app.
    rewrite (proj2 (Nat.leb_le _ _)) by lia.
    replace (len stem + len ".go" - len ".go") with (len stem) by lia.
    rewrite drop_app_len. done.
Qed.

Lemma isASCII_lt (c : ascii) : isASCII c = true ↔ nat_of_ascii c < 128.
Proof.
  destruct c as [b0 b1 b2 b3 b4 b5 b6 b7].
  destruct b0, b1, b2, b3, b4, b5, b6, b7; vm_compute; split;
    first [done | lia].
Qed.

(** A byte that is a phrase's byte but for the case is an ASCII byte, and
    lower-casing it gives the phrase's byte. *)
Lemma same_letter_lower (c d : ascii) :
  isASCII d = true → lowerByte d = d → same_letter c d →
  isASCII c = true ∧ lowerByte c = d.
Proof.
  intros Hd Hl [->|[Hr Hc]]; [done |]. split.
  - apply isASCII_lt. lia.
  - unfold lowerByte.
    rewrite (proj2 (Nat.leb_le 65 _)), (proj2 (Nat.leb_le _ 90)) by lia.
    simpl. by rewrite Hc, ascii_nat_embedding.
Qed.

Lemma spells_lower (v phrase : string) :
  small phrase → spells v phrase →
  allASCII v = true ∧ mapBytes lowerByte v = phrase.
Proof.
  revert phrase. induction v as [|c v IH]; intros [|d phrase]; simpl;
    try done.
  intros [[Hd Ha]%andb_true_iff [= Hl Hm]] [Hcd Hs].
  destruct (same_letter_lower c d Hd Hl Hcd) as [Hc ->].
  destruct (IH phrase) as [Hv ->]; [done | done |].
  by rewrite Hc, Hv.
Qed.

Lemma mapBytes_app (f : ascii → ascii) (a b : string) :
  mapBytes f (a +:+ b) = mapBytes f a +:+ mapBytes f b.
Proof.
  induction a as [|c a IH]; [done |]. rewrite app_cons. simpl.
  by rewrite IH.
Qed.

(** The runes before a byte of ASCII are mapped on their own. *)
Lemma mapRunes_app (u : string) (c : ascii) (r : string) :
  isASCII c = true →
  ∀ run, mapRunes X run (u +:+ String c r)
         = mapRunes X run u +:+ mapRunes X "" (String c r).
Proof.
  intros Hc. induction u as [|d u IH]; intros run.
  - rewrite app_nil_l. simpl. rewrite Hc. unfold flushRun at 3.
    rewrite decide_True by done. by rewrite app_nil_l.
  - rewrite app_cons. simpl. destruct (isASCII d).
    + rewrite IH, app_assoc_str. by rewrite app_cons.
    + apply IH.
Qed.

(** Bytes of ASCII are lower-cased one by one. *)
Lemma mapRunes_ascii (v w : string) :
  allASCII v = true →
  mapRunes X "" (v +:+ w) = mapBytes lowerByte v +:+ mapRunes X "" w.
Proof.
  induction v as [|c v IH]; [done |]. rewrite app_cons. simpl.
  intros [Hc Hv]%andb_true_iff. rewrite Hc. unfold flushRun.
  rewrite decide_True by done. rewrite app_nil_l, app_cons.
  by rewrite IH.
Qed.

(** A comment that holds a phrase but for the case of its letters holds
    the phrase once lower-cased. *)
Lemma ToLower_spells (u v w phrase : string) :
  small phrase → phrase ≠ "" → spells v phrase →
  occurs phrase (ToLower X (u +:+ v +:+ w)).
Proof.
  intros Hsmall Hne Hs.
  destruct (spells_lower v phrase Hsmall Hs) as [Hv Hl].
  unfold ToLower. destruct (allASCII (u +:+ v +:+ w)).
  - exists (mapBytes lowerByte u), (mapBytes lowerByte w).
    by rewrite !mapBytes_app, Hl.
  - destruct v as [|c v]; [by destruct phrase |].
    simpl in Hv. apply andb_true_iff in Hv as [Hc Hv'].
    rewrite app_cons, (mapRunes_app u c _ Hc), <- app_cons.
    rewrite mapRunes_ascii by (simpl; by rewrite Hc, Hv').
    rewrite Hl. by eexists _, _.
Qed.

Lemma header_phrases_small (phrase : string) :
  phrase ∈ header_phrases → small phrase ∧ phrase ≠ "".
Proof.
  unfold header_phrases. rewrite !elem_of_cons, elem_of_nil.
  intros [->|[->|[->|[]]]]; by vm_compute.
Qed.

(** The flag is raised exactly for the literal marker anywhere in the
    file, or for a phrase in the lower-cased text of a comment group the
    parse returns. *)
Lemma IsAutogeneratedGoFile_iff (buf : string) :
  IsAutogeneratedGoFile X buf = true ↔
  occurs literal_marker buf
  ∨ ∃ comments cg phrase,
      parser_ParseFile X buf = Some comments ∧ cg ∈ comments
      ∧ phrase ∈ header_phrases ∧ occurs phrase (ToLower X cg).
Proof.
  unfold IsAutogeneratedGoFile.
  rewrite autogeneratedHeaderSignals_eq. unfold autogeneratedSignals.
  simpl existsb at 1. rewrite orb_false_r.
  destruct (Contains buf (nl +:+ "func bindataRead(")) eqn:Hlit.
  { split; [intros _; left; by apply Contains_occurs | done]. }
  assert (¬ occurs literal_marker buf) as Hno.
  { intros H%Contains_occurs. unfold literal_marker in H. congruence. }
  destruct (parser_ParseFile X buf) as [comments|].
  - rewrite existsb_elem_of. split.
    + intros (cg & Hcg & Hsig). apply existsb_elem_of in Hsig
        as (sig & Hsig & Hc%Contains_occurs).
      right. by exists comments, cg, sig.
    + intros [?|(comments' & cg & sig & [= <-] & Hcg & Hsig & Hc)];
        [done |].
      exists cg. split; [done |]. apply existsb_elem_of. exists sig.
      split; [done |]. by apply Contains_occurs.
  - split; [done |]. by intros [?|(? & ? & ? & ? & _)].
Qed.

(** The flag looks at the file through the literal marker and the parse
    only. *)
Lemma IsAutogeneratedGoFile_parse (buf buf' : string) :
  ¬ occurs literal_marker buf → ¬ occurs literal_marker buf' →
  parser_ParseFile X buf = parser_ParseFile X buf' →
  IsAutogeneratedGoFile X buf = IsAutogeneratedGoFile X buf'.
Proof.
  intros Hb Hb' Hp.
  destruct (IsAutogeneratedGoFile X buf) eqn:E,
           (IsAutogeneratedGoFile X buf') eqn:E'; try done.
  - apply IsAutogeneratedGoFile_iff in E as [?|E]; [done |].
    rewrite Hp in E. rewrite <- E'. symmetry.
    apply IsAutogeneratedGoFile_iff. by right.
  - apply IsAutogeneratedGoFile_iff in E' as [?|E']; [done |].
    rewrite <- Hp in E'. rewrite <- E.
    apply IsAutogeneratedGoFile_iff. by right.
Qed.

(** The result of a run but for the warning is that of the run with the
    flag left out. *)
Lemma patchFinish_erase_warning (os : OSReplies) (path orig : string)
    (flag : bool) (flow : Flow) :
  erase_warning (patchFinish X os path orig flag flow) =
  erase_warning (patchFinish X os path orig false flow).
Proof.
  unfold patchFinish.
  destruct flow as [st| |]; [| done | done].
  destruct (patchErr st); [done |].
  destruct (editbuf.Bytes (buf st)); [| done].
  destruct (onMkdirAll os); [done |].
  by destruct (onWriteFile os).
Qed.

(** The warning of a committed response. *)
Lemma patchRun_warning (p : PatchTool) (os : OSReplies) (input : PatchInput)
    (orig : string) (resp : Response) (d : PatchDisplayData)
    (c : gmap string string) (tr : list Event) :
  snapshot os (Patches input) = Some orig →
  patchRun X p os input = Returned (ToolOutOK resp d) c tr →
  r_warning resp =
  if HasSuffix (resolved_path X p input) ".go" && IsAutogeneratedGoFile X orig
  then Some (resolved_path X p input) else None.
Proof.
  intros Hsnap.
  destruct (Patches input) as [|patch rest] eqn:Hp.
  { unfold patchRun. by rewrite Hp. }
  rewrite (patchRun_snapshot X p os input orig) by (by rewrite Hp).
  rewrite Hp. unfold patchApply, patchFinish.
  destruct (patchLoop X orig 0 (patch :: rest) (initial p orig))
    as [st|o c'|] eqn:Hloop; [| | done].
  2: { intros [= -> _ _]. by apply patchLoop_Return in Hloop. }
  destruct (patchErr st); [done |].
  destruct (editbuf.Bytes (buf st)); [| done].
  destruct (onMkdirAll os); [done |].
  destruct (onWriteFile os); [done |]. by intros [= <- _ _ _].
Qed.

End AutogeneratedFacts.

(** C7.  The flag of a Go file.  It is raised exactly when the literal
    marker, a line starting [func bindataRead(], occurs anywhere in the
    file, or the imports-only parse succeeds and the lower-cased text of a
    comment group it returns holds "generate", "do not edit" or
    "export by".  The phrases are found whatever the case of their letters
    in the comment.  The flag looks at the rest of the file through that
    parse only: two files without the literal marker that share a header
    at which the imports-only parse stops have the same flag, whether the
    body of either parses and whatever its comments hold.  And the flag
    is advisory: the run is the run with the flag left out but for the
    warning, which a committed response carries exactly when the path ends
    in [.go] and the flag is raised. *)
Theorem autogenerated_flag (X : Externals) (buf : string) :
  (IsAutogeneratedGoFile X buf = true ↔
   occurs literal_marker buf
   ∨ ∃ comments cg phrase,
       parser_ParseFile X buf = Some comments ∧ cg ∈ comments
       ∧ phrase ∈ header_phrases ∧ occurs phrase (ToLower X cg))
  ∧ (∀ comments cg phrase u v w,
       parser_ParseFile X buf = Some comments → cg ∈ comments →
       phrase ∈ header_phrases → cg = u +:+ v +:+ w → spells v phrase →
       IsAutogeneratedGoFile X buf = true)
  ∧ (∀ header body body',
       buf = header +:+ body →
       parser_ParseFile X (header +:+ body)
       = parser_ParseFile X (header +:+ body') →
       ¬ occurs literal_marker (header +:+ body) →
       ¬ occurs literal_marker (header +:+ body') →
       IsAutogeneratedGoFile X buf
       = IsAutogeneratedGoFile X (header +:+ body'))
  ∧ (∀ p os input,
       Patches input ≠ [] → snapshot os (Patches input) = Some buf →
       let path := resolved_path X p input in
       erase_warning (patchRun X p os input)
       = erase_warning
           (patchFinish X os path buf false
              (patchLoop X buf 0 (Patches input) (initial p buf)))
       ∧ ∀ resp d c tr,
           patchRun X p os input = Returned (ToolOutOK resp d) c tr →
           (go_file path ∧ IsAutogeneratedGoFile X buf = true →
            r_warning resp = Some path)
           ∧ (¬ (go_file path ∧ IsAutogeneratedGoFile X buf = true) →
              r_warning resp = None)).
Proof.
  split_and!.
  - apply IsAutogeneratedGoFile_iff.
  - intros comments cg phrase u v w Hp Hcg Hph -> Hs.
    apply IsAutogeneratedGoFile_iff. right.
    exists comments, (u +:+ v +:+ w), phrase.
    split_and!; try done.
    destruct (header_phrases_small phrase Hph) as [Hsmall Hne].
    by apply ToLower_spells.
  - intros header body body' -> Hp Hb Hb'.
    by apply IsAutogeneratedGoFile_parse.
  - intros p os input Hne Hsnap. cbn zeta. split.
    + destruct (patchRun_cases X p os input)
        as [[Hp _]|[(_ & Hs & _)|(orig & _ & Hs & ->)]].
      * done.
      * by rewrite Hs in Hsnap.
      * rewrite Hs in Hsnap. injection Hsnap as ->.
        apply patchFinish_erase_warning.
    + intros resp d c tr Hrun.
      rewrite (patchRun_warning X p os input buf resp d c tr Hsnap Hrun).
      destruct (GoStrings.HasSuffix (resolved_path X p input) ".go") eqn:Hgo.
      * apply HasSuffix_go in Hgo.
        destruct (IsAutogeneratedGoFile X buf); simpl; split; try done.
        -- intros H. exfalso. by apply H.
        -- by intros [_ ?].
      * simpl. split; [| done]. intros [Hg%HasSuffix_go _]. congruence.
Qed.

(** The file with the canonical comment above its package clause is
    flagged, for its "DO NOT EDIT" in capitals; an append to it under a
    name ending in [.go] is committed, with the warning.  The file whose
    one phrase is in the comment of a function body that does not parse
    has the flag of its header alone, which is not raised. *)
Lemma autogenerated_flag_witness :
  IsAutogeneratedGoFile DemoGo.X DemoGo.generated = true
  ∧ (∃ resp d c,
       patchRun DemoGo.X (Demo.tool ∅) (Demo.os_ok DemoGo.generated)
         {| Path := "gen.go";
            Patches := [Demo.op "append_eof" "" "var x int"] |}
       = Returned (ToolOutOK resp d) c
           [EvReadFile "/w/gen.go"; EvMkdirAll "/w";
            EvWriteFile "/w/gen.go" (DemoGo.generated +:+ "var x int")]
       ∧ r_warning resp = Some "/w/gen.go")
  ∧ IsAutogeneratedGoFile DemoGo.X (DemoGo.header +:+ DemoGo.body)
    = IsAutogeneratedGoFile DemoGo.X (DemoGo.header +:+ "")
  ∧ IsAutogeneratedGoFile DemoGo.X (DemoGo.header +:+ "") = false
  ∧ occurs "generate" DemoGo.body.
Proof.
  assert (IsAutogeneratedGoFile DemoGo.X DemoGo.generated = true) as Hflag.
  { refine (proj1 (proj2 (autogenerated_flag DemoGo.X DemoGo.generated))
              [" Code generated by x. DO NOT EDIT."]
              " Code generated by x. DO NOT EDIT." "do not edit"
              " Code generated by x. " "DO NOT EDIT" "." _ _ _ _ _).
    - by vm_compute.
    - left.
    - right. left.
    - reflexivity.
    - simpl. unfold same_letter.
      repeat split; first [by left | right; vm_compute; lia]. }
  split_and!.
  - exact Hflag.
  - eexists _, _, _. split; [by vm_compute |].
    refine (proj1 (proj2 (proj2 (proj2 (proj2
              (autogenerated_flag DemoGo.X DemoGo.generated)))
              (Demo.tool ∅) (Demo.os_ok DemoGo.generated)
              {| Path := "gen.go";
                 Patches := [Demo.op "append_eof" "" "var x int"] |}
              _ eq_refl) _ _ _ _ eq_refl) _).
    + discriminate.
    + split; [by exists "/w/gen" | exact Hflag].
  - refine (proj1 (proj2 (proj2
              (autogenerated_flag DemoGo.X (DemoGo.header +:+ DemoGo.body))))
              DemoGo.header DemoGo.body "" eq_refl _ _ _).
    + by vm_compute.
    + intros H%Contains_occurs. by vm_compute in H.
    + intros H%Contains_occurs. by vm_compute in H.
  - by vm_compute.
  - exists ("func f() {" +:+ nl +:+ tab +:+ "// "), ("d" +:+ nl).
    by vm_compute.
Defined.


(** * Replacing a text by itself *)

Section IdentityFacts.

Import GoStrings editbuf patchkit.

Variable X : Externals.

(** Inserting an edit that holds bytes and is compatible with the edits of
    a sequence keeps the sequence one. *)
Lemma insert_in_sequence (orig : string) (e : edit) (l : list edit) :
  e_start e < e_end e →
  Forall (λ x, e_start x < e_end x ∧ incompatible orig e x = false) l →
  ∀ offset, offset ≤ e_start e → in_sequence offset l →
            in_sequence offset (insert_by_start e l).
Proof.
  intros He. induction l as [|x r IH]; intros Hall offset Hoff Hseq.
  { simpl. done. }
  inversion Hall as [|? ? [Hx Hc] Hr]; subst. destruct Hseq as [Hox Hseq].
  apply orb_false_iff in Hc as [_ Hc]. unfold spans_intersect in Hc.
  apply andb_false_iff in Hc.
  simpl. unfold before. destruct (e_start e <? e_start x) eqn:Hlt; simpl.
  - apply Nat.ltb_lt in Hlt. split_and!; try done.
    destruct Hc as [Hc%Nat.ltb_ge|Hc%Nat.ltb_ge]; lia.
  - apply Nat.ltb_ge in Hlt.
    destruct (e_start e =? e_start x) eqn:Heq; simpl.
    + apply Nat.eqb_eq in Heq.
      destruct Hc as [Hc%Nat.ltb_ge|Hc%Nat.ltb_ge]; lia.
    + apply Nat.eqb_neq in Heq. split; [done |].
      apply IH; [done | | done].
      destruct Hc as [Hc%Nat.ltb_ge|Hc%Nat.ltb_ge]; lia.
Qed.

(** Sorted, edits that hold bytes and are compatible two by two follow
    one another. *)
Lemma sort_in_sequence (orig : string) (l : list edit) :
  Forall (λ x, e_start x < e_end x) l →
  (∀ x y, ¬ conflict orig l x y) →
  in_sequence 0 (sort_by_start l).
Proof.
  induction l as [|e r IH]; intros Hall Hfree; [done |].
  inversion Hall as [|? ? He Hr]; subst. simpl.
  apply (insert_in_sequence orig); [done | | lia |].
  - apply Forall_forall. intros x Hx.
    rewrite sort_by_start_perm in Hx. split.
    + rewrite Forall_forall in Hr. by apply Hr.
    + apply list_elem_of_lookup in Hx as [j Hj].
      destruct (incompatible orig e x) eqn:Hc; [| done].
      exfalso. apply (Hfree e x). by exists 0, (S j).
  - apply IH; [done |]. intros x y (i & j & Hij & Hi & Hj & Hc).
    apply (Hfree x y). exists (S i), (S j). split_and!; try done. lia.
Qed.

(** The walk over identity edits that follow one another gives back the
    document. *)
Lemma emit_identity (orig : string) (l : list edit) :
  Forall (identity_edit orig) l →
  ∀ offset, in_sequence offset l → emit orig offset l = drop offset orig.
Proof.
  induction l as [|e r IH]; intros Hid offset Hseq; [done |].
  inversion Hid as [|? ? [Hlt Hnew] Hidr]; subst.
  destruct Hseq as [Hoff Hseq]. simpl. rewrite (IH Hidr _ Hseq), Hnew.
  replace (drop (e_start e) orig)
    with (drop (e_start e - offset) (drop offset orig))
    by (rewrite drop_drop_str; f_equal; lia).
  replace (drop (e_end e) orig)
    with (drop (e_end e - e_start e)
            (drop (e_start e - offset) (drop offset orig)))
    by (rewrite !drop_drop_str; f_equal; lia).
  by rewrite !take_drop_str.
Qed.

(** Identity edits materialize to the document itself. *)
Lemma Bytes_identity (b : Buffer) (patched : string) :
  Forall (identity_edit (old b)) (q b) → Bytes b = Ok patched →
  patched = old b.
Proof.
  intros Hid. unfold Bytes. cbn zeta.
  destruct (overlap (old b) (sort_by_start (q b))) as [[x y]|] eqn:Ho;
    [done |].
  intros [= <-].
  rewrite emit_identity; [done | by rewrite sort_by_start_perm |].
  apply (sort_in_sequence (old b)).
  - eapply Forall_impl; [exact Hid |]. by intros e [? _].
  - intros x y Hc. apply (overlap_None _ _ x y Ho).
    apply (conflict_perm _ (q b)); [| done].
    symmetry. apply sort_by_start_perm.
Qed.

(** The iteration of a replace of a text by itself registers an identity
    edit and records no error. *)
Lemma patchStep_identity (orig : string) (i : nat) (patch : PatchRequest)
    (st st' : LoopState) :
  replaces_by_itself orig patch (cb st) →
  patchStep X orig i patch st = Continue st' →
  patchErr st' = patchErr st
  ∧ ∃ e, buf st' = {| old := old (buf st); q := q (buf st) ++ [e] |}
         ∧ identity_edit orig e.
Proof.
  intros (Hop & Hold & Hres & off & Hocc).
  rewrite (patchStep_found X orig i patch st _ ExactUnique
             {| Off := off; Len := len (OldText patch);
                New := OldText patch |} Hop Hold Hres)
    by (apply ladder_exact; eauto).
  intros [= <-]. simpl. split; [done |]. eexists. split; [done |].
  unfold identity_edit. simpl.
  assert (0 < len (OldText patch))
    by (destruct (OldText patch); [done | unfold len; simpl; lia]).
  split; [lia |].
  replace (off + len (OldText patch) - off) with (len (OldText patch))
    by lia.
  symmetry. apply occurrences_slice; [done |]. rewrite Hocc. left.
Qed.

(** A loop over replaces of a text by itself keeps a buffer of identity
    edits a buffer of identity edits, and records no error. *)
Lemma patchLoop_identity (orig : string) (patches : list PatchRequest) :
  ∀ i st st',
  identity_batch X orig i patches st →
  patchLoop X orig i patches st = Continue st' →
  patchErr st' = patchErr st ∧ old (buf st') = old (buf st)
  ∧ (Forall (identity_edit orig) (q (buf st)) →
     Forall (identity_edit orig) (q (buf st'))).
Proof.
  induction patches as [|patch rest IH]; intros i st st' Hid Hloop.
  { simpl in Hloop. by injection Hloop as <-. }
  destruct Hid as [Hop Hrest]. simpl in Hloop.
  destruct (patchStep X orig i patch st) as [st1| |] eqn:Hstep; try done.
  destruct (patchStep_identity orig i patch st st1 Hop Hstep)
    as (He & e & Hb & Hie).
  destruct (IH _ _ _ (Hrest st1 eq_refl) Hloop) as (He' & Ho' & Hq').
  rewrite He', Ho', He, Hb. simpl. split_and!; try done.
  intros Hq. apply Hq'. rewrite Hb. simpl.
  apply Forall_app. split; [done |]. constructor; [exact Hie | constructor].
Qed.

End IdentityFacts.

(** X20.  Replacing a text by itself changes nothing: when every operation
    of a batch is a replace whose old text occurs exactly once in the
    document and whose resolved new text is that old text, a committed
    run writes back the bytes it read; the old and the new content of the
    display are the document. *)
Theorem replaces_by_itself_identity (X : Externals) (p : PatchTool)
    (os : OSReplies) (input : PatchInput) (orig : string) :
  onReadFile os = ReadOK orig →
  identity_batch X orig 0 (Patches input) (initial p orig) →
  ∀ resp d c tr,
    patchRun X p os input = Returned (ToolOutOK resp d) c tr →
    d_oldContent d = orig ∧ d_newContent d = orig
    ∧ tr = [EvReadFile (resolved_path X p input);
            EvMkdirAll (filepath_Dir X (resolved_path X p input));
            EvWriteFile (resolved_path X p input) orig].
Proof.
  intros Hread Hid resp d c tr.
  destruct (Patches input) as [|patch rest] eqn:Hp.
  { unfold patchRun. by rewrite Hp. }
  rewrite (patchRun_snapshot X p os input orig);
    [| by rewrite Hp | unfold snapshot; by rewrite Hread].
  unfold patchApply. rewrite Hp.
  destruct (patchLoop X orig 0 (patch :: rest) (initial p orig))
    as [st'|o c'|] eqn:Hloop; [| | done].
  2: { intros [= -> _ _]. by apply patchLoop_Return in Hloop. }
  destruct (patchLoop_identity X orig _ _ _ _ Hid Hloop) as (He & Ho & Hq).
  unfold patchFinish. simpl in He, Ho. rewrite He.
  destruct (editbuf.Bytes (buf st')) as [patched|] eqn:Hbytes; [| done].
  apply Bytes_identity in Hbytes;
    [| rewrite Ho; apply Hq; constructor].
  rewrite Ho in Hbytes. subst patched.
  destruct (onMkdirAll os); [done |].
  destruct (onWriteFile os); [done |].
  by intros [= <- <- <- <-].
Qed.

(** The "a" and the "c" of "abc" each replaced by itself: "abc" is
    written. *)
Lemma replaces_by_itself_identity_witness :
  patchRun Demo.X (Demo.tool ∅) (Demo.os_ok "abc")
    {| Path := "f.txt";
       Patches := [Demo.op "replace" "a" "a"; Demo.op "replace" "c" "c"] |}
  = Returned
      (ToolOutOK {| r_clipboardsModified := []; r_warning := None |}
         {| d_path := "/w/f.txt"; d_oldContent := "abc";
            d_newContent := "abc"; d_diff := "" |})
      ∅
      [EvReadFile "/w/f.txt"; EvMkdirAll "/w"; EvWriteFile "/w/f.txt" "abc"]
  ∧ d_oldContent
      {| d_path := "/w/f.txt"; d_oldContent := "abc"; d_newContent := "abc";
         d_diff := "" |} = "abc"
  ∧ d_newContent
      {| d_path := "/w/f.txt"; d_oldContent := "abc"; d_newContent := "abc";
         d_diff := "" |} = "abc"
  ∧ [EvReadFile "/w/f.txt"; EvMkdirAll "/w"; EvWriteFile "/w/f.txt" "abc"]
    = [EvReadFile "/w/f.txt"; EvMkdirAll "/w"; EvWriteFile "/w/f.txt" "abc"].
Proof.
  split; [by vm_compute |].
  refine (replaces_by_itself_identity Demo.X (Demo.tool ∅) (Demo.os_ok "abc")
            {| Path := "f.txt";
               Patches := [Demo.op "replace" "a" "a";
                           Demo.op "replace" "c" "c"] |}
            "abc" eq_refl _
            {| r_clipboardsModified := []; r_warning := None |}
            {| d_path := "/w/f.txt"; d_oldContent := "abc";
               d_newContent := "abc"; d_diff := "" |}
            ∅
            [EvReadFile "/w/f.txt"; EvMkdirAll "/w";
             EvWriteFile "/w/f.txt" "abc"] _).
  - simpl. split.
    + split; [reflexivity |]. split; [discriminate |].
      split; [reflexivity |]. exists 0. by vm_compute.
    + intros st' _. split; [| done].
      split; [reflexivity |]. split; [discriminate |].
      split; [reflexivity |]. exists 2. by vm_compute.
  - by vm_compute.
Defined.
